(** * OpenAuxilium server: the session store and request queue of [RunAILlamaCpp]

    A shallow embedding of [server/AI/RunAILlamaCpp.js] and of the message
    route of [server/API/chatRoutes.js].

    - Thrown [Error]s are values [Err message]; a method returns a
      [Result] together with the state it leaves behind (a mutation made
      before a [throw] stays).
    - The inference engine, the clock and the id generator are outside the
      program: they are the operations of a [Runtime] over an abstract
      world, threaded through every call.
    - [async] methods are run to their end by the sequential definitions
      ([createSession], [deleteSession], [_processMessage],
      [cleanupInactiveSessions]).  The queue is also given its event-loop
      semantics: an activation of [_processQueue] is a coroutine suspended
      at one of its two [await]s, and [exec] runs one event.  A call of
      [createSession], [deleteSession] or the sweep is one event there:
      none of them touches the queue, the flag or an activation
      ([quiet_calls_frame]).  [cleanup()], which runs at shutdown only, is
      not an event.

    The second part of the definitions adds the rest of the class
    ([getActiveSessions], [cleanup]), the other routes of [chatRoutes.js],
    [createSession] and [deleteSession] cut at their [await] (for calls
    that overlap), and the browser side: [_formatMessage] of
    [auxilium-plugin/src/ChatUI.js] over UTF-16 code units, and
    [ChatManager] with the state of the [ChatUI] it drives, its calls cut
    at their [await]s and its requests to the server answered by the
    events of a run. *)

From Stdlib Require Import String Ascii List ZArith QArith Bool Arith Lia DecimalString.
From Stdlib Require Import NArith.
Import ListNotations.
Local Open Scope string_scope.
Local Open Scope nat_scope.

Set Implicit Arguments.

(** ** Results of fallible calls *)

Inductive Result (A : Type) : Type :=
| Ok (value : A)
| Err (message : string).

Arguments Ok {A} value.
Arguments Err {A} message.

Definition isOk {A} (r : Result A) : bool :=
  match r with Ok _ => true | Err _ => false end.

(** Template literals print numbers in decimal. *)
Definition string_of_nat (n : nat) : string :=
  NilEmpty.string_of_uint (Nat.to_uint n).

(** [haystack.includes(needle)] *)
Fixpoint includes (needle haystack : string) : bool :=
  if String.prefix needle haystack then true
  else match haystack with
       | EmptyString => false
       | String _ rest => includes needle rest
       end.

(** ** JavaScript values that reach the validated parameters *)

Inductive JsValue : Type :=
| JsUndefined
| JsNull
| JsBoolean (b : bool)
| JsNumber (n : Z)
| JsString (s : string)
| JsObject.

(** [!v] is false exactly on truthy values. *)
Definition truthy (v : JsValue) : bool :=
  match v with
  | JsUndefined | JsNull => false
  | JsBoolean b => b
  | JsNumber n => negb (Z.eqb n 0)
  | JsString s => negb (String.eqb s "")
  | JsObject => true
  end.

Definition typeof_string (v : JsValue) : bool :=
  match v with JsString _ => true | _ => false end.

(** ** [Map] with string keys: insertion ordered, one entry per key *)

Module JsMap.

Definition t (V : Type) : Type := list (string * V).

Definition empty {V} : t V := [].

Fixpoint get {V} (k : string) (m : t V) : option V :=
  match m with
  | [] => None
  | (k', v) :: rest => if String.eqb k k' then Some v else get k rest
  end.

Definition has {V} (k : string) (m : t V) : bool :=
  match get k m with Some _ => true | None => false end.

(** [set] keeps the position of a key that is present and appends a new one. *)
Fixpoint set {V} (k : string) (v : V) (m : t V) : t V :=
  match m with
  | [] => [(k, v)]
  | (k', v') :: rest =>
      if String.eqb k k' then (k', v) :: rest else (k', v') :: set k v rest
  end.

(** [delete] removes what is stored under the key. *)
Definition delete {V} (k : string) (m : t V) : t V :=
  filter (fun e => negb (String.eqb k (fst e))) m.

Definition size {V} (m : t V) : nat := length m.

Definition keys {V} (m : t V) : list string := map fst m.

End JsMap.

(** ** Data model *)

Definition Context := nat.
Definition Sequence := nat.

(** [new LlamaChatSession({ contextSequence, systemPrompt })] *)
Record ChatSession : Type := {
  contextSequence : Sequence;
  systemPrompt : string
}.

Inductive Role : Type := user | assistant.

Record HistoryEntry : Type := {
  role : Role;
  content : string;
  timestamp : Z
}.

(** The object stored under a session id.  [oid] is the object's identity:
    [_processMessage] keeps a reference to the object across its [await],
    and a write through that reference reaches the store only while the
    store still holds this very object. *)
Record SessionData : Type := {
  oid : nat;
  session : ChatSession;
  context : option Context;
  history : list HistoryEntry;
  createdAt : Z;
  lastActivity : Z;
  systemRoleSet : bool
}.

Module Request.
(** [{ sessionId, message, resolve, reject, timestamp }]; [promise] names the
    promise whose [resolve] and [reject] the request carries. *)
Record t : Type := {
  sessionId : string;
  message : string;
  promise : nat;
  timestamp : Z
}.
End Request.

(** An activation of [_processQueue], suspended at an [await]. *)
Inductive Lane : Type :=
| AwaitPrompt (request : Request.t) (sessionData : nat) (chat : ChatSession)
              (reinforcedMessage : string)
  (** inside [_processMessage], at [await sessionData.session.prompt(...)] *)
| AwaitMessage (request : Request.t) (outcome : Result string).
  (** at [await this._processMessage(...)], whose promise has settled *)

(** What the queue does, in the order it does it (a trace kept beside the
    program's own fields). *)
Inductive QueueEvent : Type :=
| Enqueued (p : nat)
| Shifted (p : nat)
| Prompted (p : nat) (sessionId text : string)
| Resolved (p : nat) (response : string)
| Rejected (p : nat) (message : string).

(** ** The runtime the program calls into *)

Class Runtime (W : Type) : Type := {
  newDate : W -> Z * W;                  (* new Date(), Date.now(): milliseconds *)
  uuidv4 : W -> string * W;
  loadModel : string -> W -> Result unit * W;        (* getLlama(), loadModel *)
  createContext : W -> Result Context * W;           (* model.createContext() *)
  getSequence : Context -> W -> Result Sequence * W; (* context.getSequence() *)
  prompt : ChatSession -> string -> W -> Result string * W;
  dispose : Context -> W -> Result unit * W;         (* context.dispose() *)
  trim : string -> string                            (* String.prototype.trim *)
}.

Section RunAILlamaCpp.

Context {W : Type} {RT : Runtime W}.

Record State : Type := {
  sessions : JsMap.t SessionData;
  isInitialized : bool;
  processingQueue : list Request.t;
  currentlyProcessing : bool;
  maxConcurrentSessions : nat;
  systemRole : string;
  (* the surroundings of the object *)
  world : W;
  nextOid : nat;
  nextPromise : nat;
  lanes : list Lane;
  trace : list QueueEvent
}.

Definition with_sessions (m : JsMap.t SessionData) (s : State) : State :=
  {| sessions := m; isInitialized := isInitialized s;
     processingQueue := processingQueue s;
     currentlyProcessing := currentlyProcessing s;
     maxConcurrentSessions := maxConcurrentSessions s;
     systemRole := systemRole s; world := world s; nextOid := nextOid s;
     nextPromise := nextPromise s; lanes := lanes s; trace := trace s |}.

Definition with_isInitialized (b : bool) (s : State) : State :=
  {| sessions := sessions s; isInitialized := b;
     processingQueue := processingQueue s;
     currentlyProcessing := currentlyProcessing s;
     maxConcurrentSessions := maxConcurrentSessions s;
     systemRole := systemRole s; world := world s; nextOid := nextOid s;
     nextPromise := nextPromise s; lanes := lanes s; trace := trace s |}.

Definition with_processingQueue (q : list Request.t) (s : State) : State :=
  {| sessions := sessions s; isInitialized := isInitialized s;
     processingQueue := q;
     currentlyProcessing := currentlyProcessing s;
     maxConcurrentSessions := maxConcurrentSessions s;
     systemRole := systemRole s; world := world s; nextOid := nextOid s;
     nextPromise := nextPromise s; lanes := lanes s; trace := trace s |}.

Definition with_currentlyProcessing (b : bool) (s : State) : State :=
  {| sessions := sessions s; isInitialized := isInitialized s;
     processingQueue := processingQueue s;
     currentlyProcessing := b;
     maxConcurrentSessions := maxConcurrentSessions s;
     systemRole := systemRole s; world := world s; nextOid := nextOid s;
     nextPromise := nextPromise s; lanes := lanes s; trace := trace s |}.

Definition with_systemRole (r : string) (s : State) : State :=
  {| sessions := sessions s; isInitialized := isInitialized s;
     processingQueue := processingQueue s;
     currentlyProcessing := currentlyProcessing s;
     maxConcurrentSessions := maxConcurrentSessions s;
     systemRole := r; world := world s; nextOid := nextOid s;
     nextPromise := nextPromise s; lanes := lanes s; trace := trace s |}.

Definition with_world (w : W) (s : State) : State :=
  {| sessions := sessions s; isInitialized := isInitialized s;
     processingQueue := processingQueue s;
     currentlyProcessing := currentlyProcessing s;
     maxConcurrentSessions := maxConcurrentSessions s;
     systemRole := systemRole s; world := w; nextOid := nextOid s;
     nextPromise := nextPromise s; lanes := lanes s; trace := trace s |}.

Definition with_nextOid (n : nat) (s : State) : State :=
  {| sessions := sessions s; isInitialized := isInitialized s;
     processingQueue := processingQueue s;
     currentlyProcessing := currentlyProcessing s;
     maxConcurrentSessions := maxConcurrentSessions s;
     systemRole := systemRole s; world := world s; nextOid := n;
     nextPromise := nextPromise s; lanes := lanes s; trace := trace s |}.

Definition with_nextPromise (n : nat) (s : State) : State :=
  {| sessions := sessions s; isInitialized := isInitialized s;
     processingQueue := processingQueue s;
     currentlyProcessing := currentlyProcessing s;
     maxConcurrentSessions := maxConcurrentSessions s;
     systemRole := systemRole s; world := world s; nextOid := nextOid s;
     nextPromise := n; lanes := lanes s; trace := trace s |}.

Definition with_lanes (l : list Lane) (s : State) : State :=
  {| sessions := sessions s; isInitialized := isInitialized s;
     processingQueue := processingQueue s;
     currentlyProcessing := currentlyProcessing s;
     maxConcurrentSessions := maxConcurrentSessions s;
     systemRole := systemRole s; world := world s; nextOid := nextOid s;
     nextPromise := nextPromise s; lanes := l; trace := trace s |}.

Definition with_trace (t : list QueueEvent) (s : State) : State :=
  {| sessions := sessions s; isInitialized := isInitialized s;
     processingQueue := processingQueue s;
     currentlyProcessing := currentlyProcessing s;
     maxConcurrentSessions := maxConcurrentSessions s;
     systemRole := systemRole s; world := world s; nextOid := nextOid s;
     nextPromise := nextPromise s; lanes := lanes s; trace := t |}.

Definition emit (e : QueueEvent) (s : State) : State :=
  with_trace (trace s ++ [e]) s.

(** [constructor()]; [role] is [process.env.AI_SYSTEM_ROLE] when that is set
    and non-empty. *)
Definition constructor (role : option string) (w : W) : State :=
  {| sessions := JsMap.empty; isInitialized := false;
     processingQueue := []; currentlyProcessing := false;
     maxConcurrentSessions := 10;
     systemRole := match role with
                   | Some r => if String.eqb r "" then "You are a helpful assistant." else r
                   | None => "You are a helpful assistant."
                   end;
     world := w; nextOid := 0; nextPromise := 0; lanes := []; trace := [] |}.

(** [initialize(modelPath)] *)
Definition initialize (modelPath : string) (s : State) : Result unit * State :=
  match loadModel modelPath (world s) with
  | (Ok _, w) => (Ok tt, with_isInitialized true (with_world w s))
  | (Err e, w) => (Err ("Failed to initialize LLaMA model: " ++ e), with_world w s)
  end.

(** ** [createSession(sessionId = null)] *)

Definition notInitializedError : string :=
  "Model not initialized. Call initialize() first.".

Definition capacityError (max : nat) : string :=
  "Maximum concurrent sessions (" ++ string_of_nat max ++ ") reached".

Definition duplicateError (id : string) : string :=
  "Session " ++ id ++ " already exists".

Definition notFoundError (id : string) : string :=
  "Session " ++ id ++ " not found".

(** [sessionId || uuidv4()]: an absent or empty id is replaced. *)
Definition chooseId (sessionId : option string) (w : W) : string * W :=
  match sessionId with
  | Some id => if String.eqb id "" then uuidv4 w else (id, w)
  | None => uuidv4 w
  end.

Definition createSession (sessionId : option string) (s : State)
  : Result string * State :=
  if negb (isInitialized s) then (Err notInitializedError, s)
  else if maxConcurrentSessions s <=? JsMap.size (sessions s)
  then (Err (capacityError (maxConcurrentSessions s)), s)
  else
    let (id, w0) := chooseId sessionId (world s) in
    if JsMap.has id (sessions s)
    then (Err (duplicateError id), with_world w0 s)
    else
      match createContext w0 with
      | (Err e, w1) => (Err ("Failed to create session: " ++ e), with_world w1 s)
      | (Ok ctx, w1) =>
          match getSequence ctx w1 with
          | (Err e, w2) => (Err ("Failed to create session: " ++ e), with_world w2 s)
          | (Ok sq, w2) =>
              let (created, w3) := newDate w2 in
              let (active, w4) := newDate w3 in
              let data :=
                {| oid := nextOid s;
                   session := {| contextSequence := sq;
                                 systemPrompt := systemRole s |};
                   context := Some ctx;
                   history := [];
                   createdAt := created;
                   lastActivity := active;
                   systemRoleSet := true |} in
              (Ok id,
               with_nextOid (S (nextOid s))
                 (with_sessions (JsMap.set id data (sessions s))
                    (with_world w4 s)))
          end
      end.

(** ** [deleteSession(sessionId)] *)

Definition deleteSession (sessionId : string) (s : State)
  : Result unit * State :=
  match JsMap.get sessionId (sessions s) with
  | None => (Err (notFoundError sessionId), s)
  | Some sessionData =>
      let released :=
        match context sessionData with
        | Some ctx => dispose ctx (world s)
        | None => (Ok tt, world s)
        end in
      match released with
      | (Ok _, w) =>
          (Ok tt, with_sessions (JsMap.delete sessionId (sessions s)) (with_world w s))
      | (Err e, w) =>
          (Err ("Failed to delete session: " ++ e), with_world w s)
      end
  end.

(** ** [_processMessage(sessionId, message)] *)

(** A write through a reference to the object [o]. *)
Definition updateObject (o : nat) (f : SessionData -> SessionData)
  (m : JsMap.t SessionData) : JsMap.t SessionData :=
  map (fun e => if oid (snd e) =? o then (fst e, f (snd e)) else e) m.

Definition pushHistory (entry : HistoryEntry) (d : SessionData) : SessionData :=
  {| oid := oid d; session := session d; context := context d;
     history := history d ++ [entry];
     createdAt := createdAt d; lastActivity := lastActivity d;
     systemRoleSet := systemRoleSet d |}.

Definition setLastActivity (t : Z) (d : SessionData) : SessionData :=
  {| oid := oid d; session := session d; context := context d;
     history := history d;
     createdAt := createdAt d; lastActivity := t;
     systemRoleSet := systemRoleSet d |}.

Definition newline : string := String "010"%char EmptyString.

(** [`System: ${this.systemRole}\n\nUser: ${message}`] *)
Definition reinforcedMessage (role message : string) : string :=
  "System: " ++ role ++ newline ++ newline ++ "User: " ++ message.

(** From the entry of [_processMessage] to its [await]: the lookup, the
    user entry, the text for the engine.  [Err] is the throw before the
    [try]; [Ok] carries the object, its chat session and the text. *)
Definition processMessage_begin (sessionId message : string) (s : State)
  : Result (nat * ChatSession * string) * State :=
  match JsMap.get sessionId (sessions s) with
  | None => (Err (notFoundError sessionId), s)
  | Some sessionData =>
      let (now, w) := newDate (world s) in
      let entry := {| role := user; content := message; timestamp := now |} in
      (Ok (oid sessionData, session sessionData,
           reinforcedMessage (systemRole s) message),
       with_sessions (updateObject (oid sessionData) (pushHistory entry) (sessions s))
         (with_world w s))
  end.

(** From the [await] to the end, given how the engine call settled. *)
Definition processMessage_end (o : nat) (answer : Result string) (s : State)
  : Result string * State :=
  match answer with
  | Ok rawResponse =>
      let response := trim rawResponse in
      let (now, w) := newDate (world s) in
      let entry := {| role := assistant; content := response; timestamp := now |} in
      let (active, w') := newDate w in
      (Ok response,
       with_sessions
         (updateObject o (setLastActivity active)
            (updateObject o (pushHistory entry) (sessions s)))
         (with_world w' s))
  | Err e => (Err ("Failed to process message: " ++ e), s)
  end.

Definition _processMessage (sessionId message : string) (s : State)
  : Result string * State :=
  match processMessage_begin sessionId message s with
  | (Err e, s1) => (Err e, s1)
  | (Ok (o, chat, text), s1) =>
      let (answer, w) := prompt chat text (world s1) in
      processMessage_end o answer (with_world w s1)
  end.

(** ** [_processQueue()] and [sendMessage(sessionId, message)] *)

(** One turn of the [while] loop, from its test to the first [await]: the
    activation either leaves the loop or suspends on the request it took. *)
Definition nextRequest (s : State) : State * option Lane :=
  match processingQueue s with
  | [] => (with_currentlyProcessing false s, None)
  | request :: rest =>
      let s1 := emit (Shifted (Request.promise request))
                  (with_processingQueue rest s) in
      match processMessage_begin (Request.sessionId request)
              (Request.message request) s1 with
      | (Err e, s2) => (s2, Some (AwaitMessage request (Err e)))
      | (Ok (o, chat, text), s2) =>
          (emit (Prompted (Request.promise request)
                   (Request.sessionId request) text) s2,
           Some (AwaitPrompt request o chat text))
      end
  end.

Definition _processQueue (s : State) : State :=
  if currentlyProcessing s || (length (processingQueue s) =? 0) then s
  else
    let (s1, suspended) := nextRequest (with_currentlyProcessing true s) in
    match suspended with
    | Some lane => with_lanes (lanes s1 ++ [lane]) s1
    | None => s1
    end.

(** [this.processingQueue.push({ sessionId, message, resolve, reject,
    timestamp: Date.now() })] inside [new Promise(...)]. *)
Definition enqueue (sessionId message : string) (s : State) : State :=
  let (now, w) := newDate (world s) in
  let request :=
    {| Request.sessionId := sessionId; Request.message := message;
       Request.promise := nextPromise s; Request.timestamp := now |} in
  emit (Enqueued (nextPromise s))
    (with_nextPromise (S (nextPromise s))
       (with_processingQueue (processingQueue s ++ [request])
          (with_world w s))).

(** The call returns the promise it created, or throws. *)
Definition sendMessage (sessionId message : string) (s : State)
  : Result nat * State :=
  if negb (JsMap.has sessionId (sessions s))
  then (Err (notFoundError sessionId), s)
  else (Ok (nextPromise s), _processQueue (enqueue sessionId message s)).

Fixpoint replaceAt {A} (i : nat) (x : A) (l : list A) : list A :=
  match l, i with
  | [], _ => []
  | _ :: rest, O => x :: rest
  | y :: rest, S j => y :: replaceAt j x rest
  end.

Fixpoint removeAt {A} (i : nat) (l : list A) : list A :=
  match l, i with
  | [], _ => []
  | _ :: rest, O => rest
  | y :: rest, S j => y :: removeAt j rest
  end.

(** The engine call of activation [i] settles: [_processMessage] runs to
    its end and its promise settles. *)
Definition promptSettles (i : nat) (s : State) : State :=
  match nth_error (lanes s) i with
  | Some (AwaitPrompt request o chat text) =>
      let (answer, w) := prompt chat text (world s) in
      let (outcome, s1) := processMessage_end o answer (with_world w s) in
      with_lanes (replaceAt i (AwaitMessage request outcome) (lanes s1)) s1
  | _ => s
  end.

(** Activation [i] resumes after [await this._processMessage(...)]:
    [request.resolve] or [request.reject], then the loop goes on. *)
Definition resume (i : nat) (s : State) : State :=
  match nth_error (lanes s) i with
  | Some (AwaitMessage request outcome) =>
      let settled :=
        match outcome with
        | Ok response => Resolved (Request.promise request) response
        | Err e => Rejected (Request.promise request) e
        end in
      let (s1, suspended) := nextRequest (emit settled s) in
      match suspended with
      | Some lane => with_lanes (replaceAt i lane (lanes s1)) s1
      | None => with_lanes (removeAt i (lanes s1)) s1
      end
  | _ => s
  end.

(** ** The remaining methods *)

Definition getHistory (sessionId : string) (s : State)
  : Result (list HistoryEntry) :=
  match JsMap.get sessionId (sessions s) with
  | None => Err (notFoundError sessionId)
  | Some sessionData => Ok (history sessionData)
  end.

Record QueueStatus : Type := {
  queueLength : nat;
  isProcessing : bool;
  activeSessions : nat;
  maxSessions : nat
}.

Definition getQueueStatus (s : State) : QueueStatus :=
  {| queueLength := length (processingQueue s);
     isProcessing := currentlyProcessing s;
     activeSessions := JsMap.size (sessions s);
     maxSessions := maxConcurrentSessions s |}.

Definition asString (v : JsValue) : string :=
  match v with JsString x => x | _ => "" end.

Definition roleError : string := "System role must be a non-empty string".

Definition updateSystemRole (newRole : JsValue) (s : State)
  : Result unit * State :=
  if negb (truthy newRole) || negb (typeof_string newRole)
  then (Err roleError, s)
  else (Ok tt, with_systemRole (asString newRole) s).

Definition getSystemRole (s : State) : string := systemRole s.

(** ** [cleanupInactiveSessions(maxAgeMinutes = 60)] *)

(** [(now - data.lastActivity) / (1000 * 60)], as an exact quotient. *)
Definition ageMinutes (now last : Z) : Q := Qmake (now - last) 60000.

Definition tooOld (now : Z) (maxAgeMinutes : Q) (d : SessionData) : bool :=
  negb (Qle_bool (ageMinutes now (lastActivity d)) maxAgeMinutes).

Definition sessionsToDelete (now : Z) (maxAgeMinutes : Q)
  (m : JsMap.t SessionData) : list string :=
  map fst (filter (fun e => tooOld now maxAgeMinutes (snd e)) m).

(** The second [for] loop; the list holds what each [deleteSession] did
    (the line the loop logs for it). *)
Fixpoint cleanupLoop (ids : list string) (s : State)
  : list (Result unit) * State :=
  match ids with
  | [] => ([], s)
  | sessionId :: rest =>
      let (r, s1) := deleteSession sessionId s in
      let (rs, s2) := cleanupLoop rest s1 in
      (r :: rs, s2)
  end.

Definition cleanupInactiveSessions (maxAgeMinutes : option Q) (s : State)
  : nat * State :=
  let maxAge := match maxAgeMinutes with Some m => m | None => 60%Q end in
  let (now, w) := newDate (world s) in
  let ids := sessionsToDelete now maxAge (sessions s) in
  (length ids, snd (cleanupLoop ids (with_world w s))).

(** ** [POST /sessions/:sessionId/messages] *)

Inductive Reply : Type :=
| Responded (status : nat) (error : string)
| AwaitingPromise (p : nat).

Definition messageError : string := "Message is required and must be a string".

Definition errorStatus (e : string) : nat :=
  if includes "not found" e then 404 else 500.

(** The handler up to its [await]: it has answered, or it waits for the
    promise of [sendMessage]. *)
Definition postMessage (sessionId : string) (message : JsValue) (s : State)
  : Reply * State :=
  if negb (truthy message) || negb (typeof_string message)
  then (Responded 400 messageError, s)
  else
    match sendMessage sessionId (asString message) s with
    | (Err e, s1) => (Responded (errorStatus e) e, s1)
    | (Ok p, s1) => (AwaitingPromise p, s1)
    end.

(** ** The event loop *)

Inductive Event : Type :=
| CallInitialize (modelPath : string)
| CallCreateSession (sessionId : option string)
| CallSendMessage (sessionId message : string)
| CallPostMessage (sessionId : string) (message : JsValue)
| CallDeleteSession (sessionId : string)
| CallUpdateSystemRole (newRole : JsValue)
| CallCleanupInactiveSessions (maxAgeMinutes : option Q)
| PromptSettles (lane : nat)
| Resume (lane : nat).

Definition exec (e : Event) (s : State) : State :=
  match e with
  | CallInitialize modelPath => snd (initialize modelPath s)
  | CallCreateSession sessionId => snd (createSession sessionId s)
  | CallSendMessage sessionId message => snd (sendMessage sessionId message s)
  | CallPostMessage sessionId message => snd (postMessage sessionId message s)
  | CallDeleteSession sessionId => snd (deleteSession sessionId s)
  | CallUpdateSystemRole newRole => snd (updateSystemRole newRole s)
  | CallCleanupInactiveSessions maxAge => snd (cleanupInactiveSessions maxAge s)
  | PromptSettles i => promptSettles i s
  | Resume i => resume i s
  end.

Definition run (events : list Event) (s : State) : State :=
  fold_left (fun s e => exec e s) events s.

(** Engine calls in flight: the activations suspended on [prompt]. *)
Definition inFlight (s : State) : nat :=
  length (filter (fun l => match l with AwaitPrompt _ _ _ _ => true | _ => false end)
            (lanes s)).

(** ** Reading the trace *)

(** Promises in the order their requests were pushed. *)
Definition submitted (t : list QueueEvent) : list nat :=
  flat_map (fun e => match e with Enqueued p => [p] | _ => [] end) t.

(** Promises in the order they were resolved or rejected. *)
Definition settled (t : list QueueEvent) : list nat :=
  flat_map (fun e => match e with
                     | Resolved p _ | Rejected p _ => [p]
                     | _ => []
                     end) t.

(** Texts handed to the engine. *)
Definition prompts (t : list QueueEvent) : list string :=
  flat_map (fun e => match e with Prompted _ _ text => [text] | _ => [] end) t.

(** Serving one request at a time, in the order of the promise numbers:
    request [n] is taken, possibly handed to the engine, and settled before
    request [n + 1] is taken. *)
Inductive Phase : Type :=
| Idle (next : nat)
| Taken (p : nat)
| Calling (p : nat)
| OutOfOrder.

Definition serveStep (ph : Phase) (e : QueueEvent) : Phase :=
  match e, ph with
  | Enqueued _, _ => ph
  | Shifted p, Idle n => if p =? n then Taken p else OutOfOrder
  | Prompted p _ _, Taken q => if p =? q then Calling p else OutOfOrder
  | Rejected p _, Taken q => if p =? q then Idle (S p) else OutOfOrder
  | Resolved p _, Calling q => if p =? q then Idle (S p) else OutOfOrder
  | Rejected p _, Calling q => if p =? q then Idle (S p) else OutOfOrder
  | _, _ => OutOfOrder
  end.

Definition serve (t : list QueueEvent) : Phase :=
  fold_left serveStep t (Idle 0).


(** The requests an activation holds between [shift] and settling. *)
Definition inProgress (l : list Lane) : list nat :=
  map (fun a => match a with
                | AwaitPrompt r _ _ _ | AwaitMessage r _ => Request.promise r
                end) l.

(** Letting the engine answer and the activation go on, [n] times. *)
Fixpoint drain (n : nat) : list Event :=
  match n with
  | O => []
  | S k => PromptSettles 0 :: Resume 0 :: drain k
  end.


(** Calls in sequence, for scenarios. *)
Fixpoint createAll (ids : list (option string)) (s : State)
  : list (Result string) * State :=
  match ids with
  | [] => ([], s)
  | id :: rest =>
      let (r, s1) := createSession id s in
      let (rs, s2) := createAll rest s1 in
      (r :: rs, s2)
  end.

(** What the queue fields of a state must agree on. *)
Definition queued (s : State) : list nat :=
  map Request.promise (processingQueue s).

Definition QueueInv (s : State) : Prop :=
  submitted (trace s) = seq 0 (nextPromise s) /\
  match lanes s with
  | [] =>
      currentlyProcessing s = false /\ processingQueue s = [] /\
      serve (trace s) = Idle (nextPromise s)
  | [AwaitPrompt r _ _ _] =>
      currentlyProcessing s = true /\
      serve (trace s) = Calling (Request.promise r) /\
      queued s = seq (S (Request.promise r)) (nextPromise s - S (Request.promise r)) /\
      Request.promise r < nextPromise s
  | [AwaitMessage r outcome] =>
      currentlyProcessing s = true /\
      (serve (trace s) = Calling (Request.promise r) \/
       (serve (trace s) = Taken (Request.promise r) /\ isOk outcome = false)) /\
      queued s = seq (S (Request.promise r)) (nextPromise s - S (Request.promise r)) /\
      Request.promise r < nextPromise s
  | _ => False
  end.

(** One entry per key. *)
Definition StoreInv (s : State) : Prop :=
  NoDup (JsMap.keys (sessions s)).

(** A step that leaves the queue, its activations and the trace alone. *)
Definition QueueFrame (s s' : State) : Prop :=
  lanes s' = lanes s /\
  currentlyProcessing s' = currentlyProcessing s /\
  processingQueue s' = processingQueue s /\
  nextPromise s' = nextPromise s /\
  trace s' = trace s.

(** Every text handed to the engine carries the role [r]. *)
Definition promptsUse (r : string) (t : list QueueEvent) : Prop :=
  Forall (fun text => exists m, text = reinforcedMessage r m) (prompts t).

End RunAILlamaCpp.

(** ** A scripted runtime, for running the definitions *)

Module Scripted.

Record t : Type := {
  clock : list Z;                 (* the next readings of the clock *)
  uuids : list string;            (* the next generated ids *)
  contexts : nat;                 (* contexts created so far *)
  unreleasable : list Context;    (* contexts whose dispose() throws *)
  answers : list (Result string)  (* how the next prompts settle *)
}.

Definition tick (w : t) : Z * t :=
  match clock w with
  | [] => (0%Z, w)
  | now :: later =>
      (now, {| clock := later; uuids := uuids w; contexts := contexts w;
               unreleasable := unreleasable w; answers := answers w |})
  end.

Definition generate (w : t) : string * t :=
  match uuids w with
  | [] => ("00000000-0000-4000-8000-000000000000", w)
  | id :: later =>
      (id, {| clock := clock w; uuids := later; contexts := contexts w;
              unreleasable := unreleasable w; answers := answers w |})
  end.

Definition allocate (w : t) : Result Context * t :=
  (Ok (contexts w),
   {| clock := clock w; uuids := uuids w; contexts := S (contexts w);
      unreleasable := unreleasable w; answers := answers w |}).

Definition answer (chat : ChatSession) (text : string) (w : t)
  : Result string * t :=
  match answers w with
  | [] => (Ok text, w)
  | a :: later =>
      (a, {| clock := clock w; uuids := uuids w; contexts := contexts w;
             unreleasable := unreleasable w; answers := later |})
  end.

Definition release (c : Context) (w : t) : Result unit * t :=
  if existsb (Nat.eqb c) (unreleasable w)
  then (Err "context is busy", w)
  else (Ok tt, w).

#[global] Instance runtime : Runtime t := {
  newDate := tick;
  uuidv4 := generate;
  loadModel := fun _ w => (Ok tt, w);
  createContext := allocate;
  getSequence := fun c w => (Ok c, w);
  prompt := answer;
  dispose := release;
  trim := fun x => x
}.

Definition quiet : t :=
  {| clock := []; uuids := []; contexts := 0; unreleasable := []; answers := [] |}.

(** A server that has loaded its model. *)
Definition started (w : t) : State :=
  snd (initialize "model.gguf" (constructor None w)).

Definition ten : list (option string) :=
  map Some ["s0"; "s1"; "s2"; "s3"; "s4"; "s5"; "s6"; "s7"; "s8"; "s9"].

(** Ten sessions: the store is at its ceiling. *)
Definition full : State := snd (createAll ten (started quiet)).

(** One session, created at 0, whose context cannot be released; the next
    reading of the clock is two hours later. *)
Definition stuck : State :=
  snd (createSession (Some "s1")
         (started {| clock := [0%Z; 0%Z; 7200000%Z]; uuids := []; contexts := 0;
                     unreleasable := [0]; answers := [] |})).

(** The clock moves on between two readings. *)
Definition ticking : State :=
  started {| clock := [1000%Z; 1001%Z]; uuids := ["generated"]; contexts := 0;
             unreleasable := []; answers := [] |}.

(** One session and an engine whose first call fails. *)
Definition failing : State :=
  snd (createSession (Some "s1")
         (started {| clock := [10%Z; 10%Z; 20%Z; 30%Z]; uuids := []; contexts := 0;
                     unreleasable := []; answers := [Err "out of memory"] |})).


(** Three requests were submitted, two for ["a"] and one for ["b"]; then
    ["a"] was deleted and the engine answered the first request. *)
Definition waiting : State :=
  run [CallCreateSession (Some "a"); CallCreateSession (Some "b");
       CallSendMessage "a" "one"; CallSendMessage "a" "two";
       CallSendMessage "b" "three"; CallDeleteSession "a"; PromptSettles 0]
    (started quiet).

(** One request with the engine, one in the queue. *)
Definition pending : State :=
  run [CallCreateSession (Some "a");
       CallSendMessage "a" "one"; CallSendMessage "a" "two"]
    (started quiet).

End Scripted.

(** * The rest of the class, the other routes, calls that overlap *)

Module SessionInfo.
(** What [getActiveSessions] lists for a session. *)
Record t : Type := {
  id : string;
  createdAt : Z;
  lastActivity : Z;
  messageCount : nat
}.
End SessionInfo.

(** What a route sends back. *)
Inductive Body : Type :=
| Created (sessionId message : string)
| Failed (error : string)
| HistoryOf (sessionId : string) (history : list HistoryEntry) (messageCount : nat)
| Done (message : string)
| StatusOf (queueLength : nat) (isProcessing : bool)
           (activeSessions : list SessionInfo.t) (maxSessions : nat)
| RoleIs (systemRole : string)
| RoleSet (message systemRole : string)
| Answer (response sessionId : string) (timestamp : Z).

Record Response : Type := {
  status : nat;
  body : Body
}.

(** How a call of [createSession] or [deleteSession] stands when it first
    gives up control. *)
Inductive Call (A : Type) : Type :=
| Returned (r : Result A)
| Suspended.

Arguments Returned {A} r.
Arguments Suspended {A}.

(** [if (this.model) await this.model.dispose()]: the model is the world's. *)
Class ModelHandle (W : Type) : Type := {
  disposeModel : W -> Result unit * W
}.

Section Rest.

Context {W : Type} {RT : Runtime W}.

(** ** [getActiveSessions()] *)

Definition getActiveSessions (s : @State W) : list SessionInfo.t :=
  map (fun e => {| SessionInfo.id := fst e;
                   SessionInfo.createdAt := createdAt (snd e);
                   SessionInfo.lastActivity := lastActivity (snd e);
                   SessionInfo.messageCount := length (history (snd e)) |})
    (sessions s).

(** ** [createSession], cut at [await this.model.createContext()] *)

(** Up to the [await]: the three checks.  [Ok id] is the id the suspended
    call goes on with. *)
Definition createSession_begin (sessionId : option string) (s : @State W)
  : Result string * @State W :=
  if negb (isInitialized s) then (Err notInitializedError, s)
  else if maxConcurrentSessions s <=? JsMap.size (sessions s)
  then (Err (capacityError (maxConcurrentSessions s)), s)
  else
    let (id, w0) := chooseId sessionId (world s) in
    if JsMap.has id (sessions s)
    then (Err (duplicateError id), with_world w0 s)
    else (Ok id, with_world w0 s).

(** From the [await] on, in the state the call finds when it goes on. *)
Definition createSession_resume (id : string) (s : @State W)
  : Result string * @State W :=
  match createContext (world s) with
  | (Err e, w1) => (Err ("Failed to create session: " ++ e), with_world w1 s)
  | (Ok ctx, w1) =>
      match getSequence ctx w1 with
      | (Err e, w2) => (Err ("Failed to create session: " ++ e), with_world w2 s)
      | (Ok sq, w2) =>
          let (created, w3) := newDate w2 in
          let (active, w4) := newDate w3 in
          let data :=
            {| oid := nextOid s;
               session := {| contextSequence := sq;
                             systemPrompt := systemRole s |};
               context := Some ctx;
               history := [];
               createdAt := created;
               lastActivity := active;
               systemRoleSet := true |} in
          (Ok id,
           with_nextOid (S (nextOid s))
             (with_sessions (JsMap.set id data (sessions s))
                (with_world w4 s)))
      end
  end.

(** ** [deleteSession], cut at [await sessionData.context.dispose()] *)

(** Up to the [await]; without a context there is none and the call runs
    to its end.  A suspended call keeps its [sessionData]. *)
Definition deleteSession_begin (sessionId : string) (s : @State W)
  : Call unit * option SessionData * @State W :=
  match JsMap.get sessionId (sessions s) with
  | None => (Returned (Err (notFoundError sessionId)), None, s)
  | Some sessionData =>
      match context sessionData with
      | Some _ => (Suspended, Some sessionData, s)
      | None =>
          (Returned (Ok tt), None,
           with_sessions (JsMap.delete sessionId (sessions s)) s)
      end
  end.

Definition deleteSession_resume (sessionId : string) (sessionData : SessionData)
  (s : @State W) : Result unit * @State W :=
  match context sessionData with
  | Some ctx =>
      match dispose ctx (world s) with
      | (Ok _, w) =>
          (Ok tt, with_sessions (JsMap.delete sessionId (sessions s)) (with_world w s))
      | (Err e, w) => (Err ("Failed to delete session: " ++ e), with_world w s)
      end
  | None => (Ok tt, with_sessions (JsMap.delete sessionId (sessions s)) s)
  end.

(** ** The other routes of [createChatRoutes] *)


(** What the message route sends once the promise of [sendMessage] has
    settled. *)
Definition messageReply (sessionId : string) (outcome : Result string)
  (s : @State W)   : Response * @State W :=
  match outcome with
  | Ok response =>
      let (now, w) := newDate (world s) in
      ({| status := 200; body := Answer response sessionId now |}, with_world w s)
  | Err e => ({| status := errorStatus e; body := Failed e |}, s)
  end.

(** [GET /sessions/:sessionId/history] *)
Definition getSessionHistory (sessionId : string) (s : @State W) : Response :=
  match getHistory sessionId s with
  | Ok h => {| status := 200; body := HistoryOf sessionId h (length h) |}
  | Err e => {| status := errorStatus e; body := Failed e |}
  end.

(** [DELETE /sessions/:sessionId] *)
Definition deleteSessionRoute (sessionId : string) (s : @State W)
    : Response * @State W :=
  match deleteSession sessionId s with
  | (Ok _, s1) =>
      ({| status := 200;
          body := Done ("Session " ++ sessionId ++ " deleted successfully") |}, s1)
  | (Err e, s1) => ({| status := errorStatus e; body := Failed e |}, s1)
  end.

(** [GET /status]: [{ ...queueStatus, activeSessions }], the list taking the
    place of the number. *)
Definition getStatus (s : @State W) : Response :=
  let queueStatus := getQueueStatus s in
  {| status := 200;
     body := StatusOf (queueLength queueStatus) (isProcessing queueStatus)
               (getActiveSessions s) (maxSessions queueStatus) |}.

(** [GET /system-role] *)
Definition getSystemRoleRoute (s : @State W) : Response :=
  {| status := 200; body := RoleIs (getSystemRole s) |}.

Definition systemRoleError : string :=
  "systemRole is required and must be a string".

(** [PUT /system-role] *)
Definition putSystemRole (systemRole : JsValue) (s : @State W)
    : Response * @State W :=
  if negb (truthy systemRole) || negb (typeof_string systemRole)
  then ({| status := 400; body := Failed systemRoleError |}, s)
  else
    match updateSystemRole systemRole s with
    | (Ok _, s1) =>
        ({| status := 200;
            body := RoleSet "System role updated successfully"
                      (asString systemRole) |}, s1)
    | (Err e, s1) => ({| status := 500; body := Failed e |}, s1)
    end.

(** ** What the invariants of the later facts speak of *)

(** Every object of the store was allocated before [nextOid]. *)
Definition OidInv (s : @State W) : Prop :=
  forall e, In e (sessions s) -> oid (snd e) < nextOid s.

(** The requests a state still answers for. *)
Definition outstanding (s : @State W) : list nat :=
  (inProgress (lanes s) ++ queued s)%list.

Definition isInitialize (e : Event) : bool :=
  match e with CallInitialize _ => true | _ => false end.

(** [d'] is the object [d] later on: what was in its history is still
    there, in front. *)
Definition grownFrom (d d' : SessionData) : Prop :=
  oid d' = oid d /\
  (exists more, history d' = (history d ++ more)%list) /\
  createdAt d' = createdAt d /\
  context d' = context d /\
  session d' = session d.

(** From a store [m] with allocation counter [n] to [m'] with [n']: every
    entry of [m'] is an entry of [m] grown, or was allocated in between. *)
Definition StoreStep (m : JsMap.t SessionData) (n : nat)
  (m' : JsMap.t SessionData) (n' : nat) : Prop :=
  n <= n' /\
  forall e', In e' m' ->
    (exists e, In e m /\ fst e' = fst e /\ grownFrom (snd e) (snd e')) \/
    (n <= oid (snd e') < n').

End Rest.

Section Shutdown.

Context {W : Type} {RT : Runtime W} {MH : ModelHandle W}.

(** ** [cleanup()] *)

(** The queue is replaced by an empty one; [deleteSession] is called on
    every id the store held, a throw being logged ([cleanupLoop] is that
    loop); the model is disposed of, a throw being logged. *)
Definition cleanup (s : @State W) : @State W :=
  let s1 := with_processingQueue [] s in
  let sessionIds := JsMap.keys (sessions s1) in
  let s2 := snd (cleanupLoop sessionIds s1) in
  let s3 := with_world (snd (disposeModel (world s2))) s2 in
  with_isInitialized false s3.

End Shutdown.

Module Staged.

#[global] Instance model : ModelHandle Scripted.t := {
  disposeModel := fun w => (Ok tt, w)
}.

(** One session and an engine that answers ["  Hi.  "]; the scripted
    [trim] leaves texts as they are. *)
Definition greeting : State :=
  snd (createSession (Some "s1")
         (Scripted.started
            {| Scripted.clock := [10%Z; 10%Z; 20%Z; 30%Z; 40%Z];
               Scripted.uuids := []; Scripted.contexts := 0;
               Scripted.unreleasable := [];
               Scripted.answers := [Ok "  Hi.  "] |})).

(** Nine sessions: one place is left. *)
Definition nine : State :=
  snd (createAll (map Some ["s0"; "s1"; "s2"; "s3"; "s4"; "s5"; "s6"; "s7"; "s8"])
         (Scripted.started Scripted.quiet)).

(** Two sessions, the first with a context that cannot be released, and
    three requests, the first of them with the engine. *)
Definition closing : State :=
  run [CallCreateSession (Some "a"); CallCreateSession (Some "b");
       CallSendMessage "a" "one"; CallSendMessage "b" "two";
       CallSendMessage "a" "three"]
    (Scripted.started
       {| Scripted.clock := []; Scripted.uuids := []; Scripted.contexts := 0;
          Scripted.unreleasable := [0]; Scripted.answers := [] |}).

(** The calls that lead to [closing], from the constructor on. *)
Definition opening : list Event :=
  [CallInitialize "model.gguf";
   CallCreateSession (Some "a"); CallCreateSession (Some "b");
   CallSendMessage "a" "one"; CallSendMessage "b" "two";
   CallSendMessage "a" "three"].

(** A model is loaded, a session is created and asked one question. *)
Definition asking : list Event :=
  [CallInitialize "model.gguf"; CallCreateSession (Some "a");
   CallSendMessage "a" "one"].

(** The role is changed after a session was created, then the session is
    used. *)
Definition briefed : list Event :=
  [CallUpdateSystemRole (JsString "Be brief."); CallSendMessage "a" "one";
   PromptSettles 0; Resume 0].

(** Calls on a manager whose model was never loaded. *)
Definition early : list Event :=
  [CallCreateSession (Some "a"); CallSendMessage "a" "one";
   CallUpdateSystemRole (JsString "Be brief."); CallDeleteSession "a";
   CallCleanupInactiveSessions None; PromptSettles 0; Resume 0].

End Staged.

(** An engine that never fails, with a scripted clock. *)
Module Willing.

Record t : Type := {
  clock : list Z;
  contexts : nat
}.

Definition tick (w : t) : Z * t :=
  match clock w with
  | [] => (0%Z, w)
  | now :: later => (now, {| clock := later; contexts := contexts w |})
  end.

Definition allocate (w : t) : Result Context * t :=
  (Ok (contexts w), {| clock := clock w; contexts := S (contexts w) |}).

#[global] Instance runtime : Runtime t := {
  newDate := tick;
  uuidv4 := fun w => ("00000000-0000-4000-8000-000000000000", w);
  loadModel := fun _ w => (Ok tt, w);
  createContext := allocate;
  getSequence := fun c w => (Ok c, w);
  prompt := fun _ text w => (Ok text, w);
  dispose := fun _ w => (Ok tt, w);
  trim := fun x => x
}.

(** One session, created at 0; every later reading of the clock is two
    hours after. *)
Definition idle : State :=
  snd (createSession (Some "a")
         (snd (initialize "model.gguf"
                 (constructor None
                    {| clock := [0%Z; 0%Z; 7200000%Z; 7200000%Z; 7200000%Z];
                       contexts := 0 |})))).

End Willing.

(** * The chat widget: how [ChatUI] renders a message *)

Module ChatUI.

Local Open Scope list_scope.

(** A JavaScript string is a sequence of UTF-16 code units. *)
Definition jsString : Type := list N.

(** The code units of a literal. *)
Definition units (s : string) : jsString :=
  map N_of_ascii (list_ascii_of_string s).

(** The double quote, which a literal here cannot hold. *)
Definition quote : jsString := [34%N].

(** What [.] does not match in a pattern without the [s] flag: the line
    terminators LF, CR, LS and PS. *)
Definition isLineTerminator (c : N) : bool :=
  (c =? 10)%N || (c =? 13)%N || (c =? 8232)%N || (c =? 8233)%N.

Fixpoint startsWith (p s : jsString) : bool :=
  match p, s with
  | [], _ => true
  | _ :: _, [] => false
  | a :: p', b :: s' => (a =? b)%N && startsWith p' s'
  end.

(** [s.replace(/c/g, by)] for a pattern that is one code unit. *)
Definition replaceUnit (c : N) (by_ : jsString) (s : jsString) : jsString :=
  flat_map (fun x => if (x =? c)%N then by_ else [x]) s.

(** [(.*?)D] from the start of [s]: the shortest run of units that are not
    line terminators and that [D] follows, with what comes after [D]. *)
Fixpoint lazyUntil (D s : jsString) : option (jsString * jsString) :=
  if startsWith D s then Some ([], skipn (length D) s)
  else match s with
       | [] => None
       | c :: rest =>
           if isLineTerminator c then None
           else match lazyUntil D rest with
                | Some (group, after) => Some (c :: group, after)
                | None => None
                end
       end.

(** [D(.*?)D] at the start of [s]. *)
Definition delimitedAt (D s : jsString) : option (jsString * jsString) :=
  if startsWith D s then lazyUntil D (skipn (length D) s) else None.

(** [s.replace(/D(.*?)D/g, opening + '$1' + closing)]: the matches are
    looked for from left to right, each search starting where the match
    before it ended; a unit at which no match starts is copied.  [fuel]
    bounds the number of steps; the length of [s] is enough. *)
Fixpoint wrapAll (fuel : nat) (D opening closing s : jsString) : jsString :=
  match fuel, s with
  | _, [] => []
  | O, _ :: _ => s
  | S fuel', c :: rest =>
      match delimitedAt D s with
      | Some (group, after) =>
          opening ++ group ++ closing ++ wrapAll fuel' D opening closing after
      | None => c :: wrapAll fuel' D opening closing rest
      end
  end.

Definition wrap (D opening closing s : jsString) : jsString :=
  wrapAll (length s) D opening closing s.

(** [[^x]+x] from the start of [s]: the run of units other than [x] up to
    the first [x], and what comes after that [x].  The run is the longest
    one, and no shorter one is followed by [x]. *)
Fixpoint runUntil (x : N) (s : jsString) : option (jsString * jsString) :=
  match s with
  | [] => None
  | c :: rest =>
      if (c =? x)%N then Some ([], rest)
      else match runUntil x rest with
           | Some (run, after) => Some (c :: run, after)
           | None => None
           end
  end.

(** [\[([^\]]+)\]\(([^)]+)\)] at the start of [s]: the text, the target and
    what comes after the match. *)
Definition linkAt (s : jsString) : option (jsString * jsString * jsString) :=
  match s with
  | [] => None
  | c :: s1 =>
      if (c =? 91)%N then
        match runUntil 93 s1 with
        | Some ((_ :: _) as text, p :: s2) =>
            if (p =? 40)%N then
              match runUntil 41 s2 with
              | Some ((_ :: _) as url, after) => Some (text, url, after)
              | _ => None
              end
            else None
        | _ => None
        end
      else None
  end.

(** ['<a href="$2" target="_blank" rel="noopener noreferrer">$1</a>'] *)
Definition anchor (text url : jsString) : jsString :=
  units "<a href=" ++ quote ++ url ++ quote ++
  units " target=" ++ quote ++ units "_blank" ++ quote ++
  units " rel=" ++ quote ++ units "noopener noreferrer" ++ quote ++
  units ">" ++ text ++ units "</a>".

Fixpoint linkAll (fuel : nat) (s : jsString) : jsString :=
  match fuel, s with
  | _, [] => []
  | O, _ :: _ => s
  | S fuel', c :: rest =>
      match linkAt s with
      | Some (text, url, after) => anchor text url ++ linkAll fuel' after
      | None => c :: linkAll fuel' rest
      end
  end.

Definition links (s : jsString) : jsString := linkAll (length s) s.

(** The three replacements [_formatMessage] starts with. *)
Definition escapeHtml (content : jsString) : jsString :=
  replaceUnit 62 (units "&gt;")
    (replaceUnit 60 (units "&lt;")
       (replaceUnit 38 (units "&amp;") content)).

Definition _formatMessage (content : jsString) : jsString :=
  let formatted := escapeHtml content in
  let formatted := wrap (units "**") (units "<strong>") (units "</strong>") formatted in
  let formatted := wrap (units "__") (units "<strong>") (units "</strong>") formatted in
  let formatted := wrap (units "*") (units "<em>") (units "</em>") formatted in
  let formatted := wrap (units "_") (units "<em>") (units "</em>") formatted in
  let formatted := wrap (units "`") (units "<code>") (units "</code>") formatted in
  let formatted := links formatted in
  replaceUnit 10 (units "<br>") formatted.

(** The markup [_formatMessage] writes: how each of its tags begins. *)
Definition tags : list jsString :=
  map units ["<strong>"; "</strong>"; "<em>"; "</em>"; "<code>"; "</code>";
             "<a href="; "</a>"; "<br>"].

(** Wherever [s] has a [<], one of [tags] begins. *)
Fixpoint onlyOwnTags (s : jsString) : bool :=
  match s with
  | [] => true
  | c :: rest =>
      (if (c =? 60)%N then existsb (fun t => startsWith t s) tags else true)
      && onlyOwnTags rest
  end.

(** The units that make [_formatMessage] do more than escape. *)
Definition isMarkdown (c : N) : bool :=
  (c =? 42)%N || (c =? 95)%N || (c =? 96)%N || (c =? 91)%N || (c =? 10)%N.

Definition isHtml (c : N) : bool :=
  (c =? 38)%N || (c =? 60)%N || (c =? 62)%N.

(** No tag of [tags] holds [d] after its [<]. *)
Definition inert (d : N) : bool :=
  forallb (fun t => negb (existsb (N.eqb d) (tl t))) tags.

(** The units no step of [_formatMessage] looks for. *)
Definition isPlain (c : N) : bool := negb (isMarkdown c || isHtml c).

(** [[text](url)] *)
Definition linkSource (text url : jsString) : jsString :=
  units "[" ++ text ++ units "](" ++ url ++ units ")".

End ChatUI.

(** * The chat widget: [ChatManager] and the [ChatUI] object it drives *)

(** The state of a [ChatUI] object that its methods other than [create]
    read and write: the window and its three parts. *)
Module ChatWindow.

Local Open Scope list_scope.

Inductive Role : Type := user | assistant | system.

(** What [addMessage] is given. *)
Record Message : Type := {
  role : Role;
  content : ChatUI.jsString;
  timestamp : Z
}.

(** A child of [elements.messages]: its class, the markup of its text and
    the instant its time is printed from. *)
Record Element : Type := {
  className : Role;
  text : ChatUI.jsString;
  time : Z
}.

Record t : Type := {
  isOpen : bool;              (* also: the window is displayed *)
  messages : list Element;
  messageCount : nat;
  typing : bool;              (* [elements.typing] is displayed *)
  errorText : string;
  errorShown : bool           (* [elements.error] is displayed *)
}.

(** After [new ChatUI(config)] and [create()]. *)
Definition created : t :=
  {| isOpen := false; messages := []; messageCount := 0; typing := false;
     errorText := ""; errorShown := false |}.

Definition open (u : t) : t :=
  {| isOpen := true; messages := messages u; messageCount := messageCount u;
     typing := typing u; errorText := errorText u; errorShown := errorShown u |}.

Definition hideError (u : t) : t :=
  {| isOpen := isOpen u; messages := messages u; messageCount := messageCount u;
     typing := typing u; errorText := errorText u; errorShown := false |}.

Definition close (u : t) : t :=
  hideError
    {| isOpen := false; messages := messages u; messageCount := messageCount u;
       typing := typing u; errorText := errorText u; errorShown := errorShown u |}.

Definition addMessage (message : Message) (u : t) : t :=
  let messageEl :=
    {| className := role message;
       text := ChatUI._formatMessage (content message);
       time := timestamp message |} in
  {| isOpen := isOpen u; messages := messages u ++ [messageEl];
     messageCount := S (messageCount u);
     typing := typing u; errorText := errorText u; errorShown := errorShown u |}.

Definition showTyping (u : t) : t :=
  {| isOpen := isOpen u; messages := messages u; messageCount := messageCount u;
     typing := true; errorText := errorText u; errorShown := errorShown u |}.

Definition hideTyping (u : t) : t :=
  {| isOpen := isOpen u; messages := messages u; messageCount := messageCount u;
     typing := false; errorText := errorText u; errorShown := errorShown u |}.

Definition showError (message : string) (u : t) : t :=
  {| isOpen := isOpen u; messages := messages u; messageCount := messageCount u;
     typing := typing u; errorText := message; errorShown := true |}.

Definition clearMessages (u : t) : t :=
  {| isOpen := isOpen u; messages := []; messageCount := 0;
     typing := typing u; errorText := errorText u; errorShown := errorShown u |}.

Definition getMessageCount (u : t) : nat := messageCount u.

End ChatWindow.

Module ChatManager.

Local Open Scope list_scope.

(** The requests the manager has made through its [ChatAPI]. *)
Inductive Request : Type :=
| CreateSession
| SendMessage (sessionId : string) (message : ChatUI.jsString)
| DeleteSession (sessionId : string).

(** A call of the manager that waits for a request to settle. *)
Inductive Lane : Type :=
| AwaitCreateSession (message : ChatUI.jsString)
    (* [sendMessage] at [await this._createSession()] *)
| AwaitSendMessage
    (* [sendMessage] at [await this.chatAPI.sendMessage(...)] *)
| AwaitDeleteSession
    (* [clearHistory] at [await this.chatAPI.deleteSession(...)] *)
| AwaitNewSession.
    (* [clearHistory] at [await this._createSession()] *)

Class Clock (W : Type) : Type := {
  newDate : W -> Z * W
}.

Section Manager.

Context {W : Type} {CL : Clock W}.

(** A manager whose [init()] has created its [ChatUI]. *)
Record t : Type := {
  welcomeMessage : ChatUI.jsString;   (* [config.welcomeMessage] *)
  chatUI : ChatWindow.t;
  sessionId : option string;
  isOpen : bool;
  isConnected : bool;
  world : W;
  requests : list Request;            (* ghost: in the order they were made *)
  pending : list Lane                 (* ghost: the calls that are suspended *)
}.

Definition with_chatUI (u : ChatWindow.t) (m : t) : t :=
  {| welcomeMessage := welcomeMessage m; chatUI := u; sessionId := sessionId m;
     isOpen := isOpen m; isConnected := isConnected m; world := world m;
     requests := requests m; pending := pending m |}.

Definition with_sessionId (id : option string) (m : t) : t :=
  {| welcomeMessage := welcomeMessage m; chatUI := chatUI m; sessionId := id;
     isOpen := isOpen m; isConnected := isConnected m; world := world m;
     requests := requests m; pending := pending m |}.

Definition with_isOpen (b : bool) (m : t) : t :=
  {| welcomeMessage := welcomeMessage m; chatUI := chatUI m; sessionId := sessionId m;
     isOpen := b; isConnected := isConnected m; world := world m;
     requests := requests m; pending := pending m |}.

Definition with_world (w : W) (m : t) : t :=
  {| welcomeMessage := welcomeMessage m; chatUI := chatUI m; sessionId := sessionId m;
     isOpen := isOpen m; isConnected := isConnected m; world := w;
     requests := requests m; pending := pending m |}.

Definition with_pending (l : list Lane) (m : t) : t :=
  {| welcomeMessage := welcomeMessage m; chatUI := chatUI m; sessionId := sessionId m;
     isOpen := isOpen m; isConnected := isConnected m; world := world m;
     requests := requests m; pending := l |}.

(** A request is made and the call waits for it. *)
Definition await (r : Request) (lane : Lane) (m : t) : t :=
  {| welcomeMessage := welcomeMessage m; chatUI := chatUI m; sessionId := sessionId m;
     isOpen := isOpen m; isConnected := isConnected m; world := world m;
     requests := requests m ++ [r]; pending := pending m ++ [lane] |}.

(** After [init()] has had its answer from [getStatus()] and has created
    the [ChatUI]; [autoOpen] is looked at next. *)
Definition connected (welcome : ChatUI.jsString) (w : W) : t :=
  {| welcomeMessage := welcome; chatUI := ChatWindow.created; sessionId := None;
     isOpen := false; isConnected := true; world := w;
     requests := []; pending := [] |}.

Definition connectionError : string :=
  "Unable to connect to chat server. Please try again later.".

Definition _showConnectionError (m : t) : t :=
  with_chatUI (ChatWindow.showError connectionError (chatUI m)) m.

(** [this.chatUI.addMessage({ role, content, timestamp: new Date() })] *)
Definition addMessageNow (role : ChatWindow.Role) (content : ChatUI.jsString)
  (m : t) : t :=
  let (now, w) := newDate (world m) in
  with_chatUI
    (ChatWindow.addMessage
       {| ChatWindow.role := role; ChatWindow.content := content;
          ChatWindow.timestamp := now |} (chatUI m))
    (with_world w m).

Definition open (m : t) : t :=
  if negb (isConnected m) then _showConnectionError m
  else
    let m1 := with_isOpen true (with_chatUI (ChatWindow.open (chatUI m)) m) in
    if ChatWindow.getMessageCount (chatUI m1) =? 0
    then addMessageNow ChatWindow.assistant (welcomeMessage m1) m1
    else m1.

Definition close (m : t) : t :=
  with_isOpen false (with_chatUI (ChatWindow.close (chatUI m)) m).

Definition toggle (m : t) : t :=
  if isOpen m then close m else open m.

(** [!this.sessionId] is false: the id is a string that is not empty. *)
Definition hasSession (m : t) : bool :=
  match sessionId m with
  | Some id => negb (String.eqb id "")
  | None => false
  end.

(** The id as [ChatAPI] writes it into the path of its request. *)
Definition sessionPath (m : t) : string :=
  match sessionId m with Some id => id | None => "null" end.

(** What [trim()] removes: white space and line terminators. *)
Definition isWhiteSpace (c : N) : bool :=
  existsb (N.eqb c)
    [9; 10; 11; 12; 13; 32; 160; 5760; 8192; 8193; 8194; 8195; 8196; 8197;
     8198; 8199; 8200; 8201; 8202; 8232; 8233; 8239; 8287; 12288; 65279]%N.

(** [!message || message.trim() === ''] *)
Definition isBlank (message : ChatUI.jsString) : bool :=
  forallb isWhiteSpace message.

Definition sorry : ChatUI.jsString :=
  ChatUI.units "Sorry, I encountered an error. Please try again.".

(** [sendMessage] from its second [if] to its [await]. *)
Definition sendMessage_send (message : ChatUI.jsString) (m : t) : t :=
  if isBlank message then m
  else
    let m1 := addMessageNow ChatWindow.user message m in
    let m2 := with_chatUI (ChatWindow.showTyping (chatUI m1)) m1 in
    await (SendMessage (sessionPath m2) message) AwaitSendMessage m2.

(** [sendMessage(message)] up to its first [await]. *)
Definition sendMessage (message : ChatUI.jsString) (m : t) : t :=
  if negb (isConnected m) then _showConnectionError m
  else if negb (hasSession m)
  then await CreateSession (AwaitCreateSession message) m
  else sendMessage_send message m.

(** [clearHistory] from [await this._createSession()] on. *)
Definition clearHistory_create (m : t) : t :=
  await CreateSession AwaitNewSession m.

(** [clearHistory()] up to its first [await]. *)
Definition clearHistory (m : t) : t :=
  if hasSession m
  then await (DeleteSession (sessionPath m)) AwaitDeleteSession m
  else clearHistory_create m.

(** The call [i] has its answer and goes on to its next [await] or to its
    end. *)
Definition finish (i : nat) (m : t) : t :=
  with_pending (removeAt i (pending m)) m.

(** The promise of [createSession()] that call [i] waits for settles. *)
Definition sessionSettles (i : nat) (outcome : Result string) (m : t) : t :=
  match nth_error (pending m) i, outcome with
  | Some (AwaitCreateSession message), Ok id =>
      sendMessage_send message (with_sessionId (Some id) (finish i m))
  | Some (AwaitCreateSession message), Err _ =>
      _showConnectionError (finish i m)
  | Some AwaitNewSession, Ok id =>
      let m1 := with_sessionId (Some id) (finish i m) in
      let m2 := with_chatUI (ChatWindow.clearMessages (chatUI m1)) m1 in
      addMessageNow ChatWindow.assistant (welcomeMessage m2) m2
  | Some AwaitNewSession, Err _ => finish i m
  | _, _ => m
  end.

(** The promise of [chatAPI.sendMessage(...)] that call [i] waits for
    settles; a response carries its text and its timestamp. *)
Definition messageSettles (i : nat) (outcome : Result (ChatUI.jsString * Z))
  (m : t) : t :=
  match nth_error (pending m) i, outcome with
  | Some AwaitSendMessage, Ok (response, timestamp) =>
      let m1 := finish i m in
      let u := ChatWindow.hideTyping (chatUI m1) in
      with_chatUI
        (ChatWindow.addMessage
           {| ChatWindow.role := ChatWindow.assistant;
              ChatWindow.content := response;
              ChatWindow.timestamp := timestamp |} u) m1
  | Some AwaitSendMessage, Err _ =>
      let m1 := finish i m in
      let m2 := with_chatUI (ChatWindow.hideTyping (chatUI m1)) m1 in
      addMessageNow ChatWindow.system sorry m2
  | _, _ => m
  end.

(** The promise of [chatAPI.deleteSession(...)] that call [i] waits for
    settles. *)
Definition deleteSettles (i : nat) (outcome : Result unit) (m : t) : t :=
  match nth_error (pending m) i, outcome with
  | Some AwaitDeleteSession, Ok _ => clearHistory_create (finish i m)
  | Some AwaitDeleteSession, Err _ => finish i m
  | _, _ => m
  end.

(** What happens to a manager: the callbacks of its [ChatUI] and the
    settlements of its requests. *)
Inductive Event : Type :=
| Toggle
| Close
| MessageSend (message : ChatUI.jsString)
| ClearHistory
| SessionSettles (i : nat) (outcome : Result string)
| MessageSettles (i : nat) (outcome : Result (ChatUI.jsString * Z))
| DeleteSettles (i : nat) (outcome : Result unit).

Definition exec (e : Event) (m : t) : t :=
  match e with
  | Toggle => toggle m
  | Close => close m
  | MessageSend message => sendMessage message m
  | ClearHistory => clearHistory m
  | SessionSettles i outcome => sessionSettles i outcome m
  | MessageSettles i outcome => messageSettles i outcome m
  | DeleteSettles i outcome => deleteSettles i outcome m
  end.

Definition run (events : list Event) (m : t) : t :=
  fold_left (fun m e => exec e m) events m.

Definition sending (lane : Lane) : bool :=
  match lane with AwaitSendMessage => true | _ => false end.

(** What holds of a manager between two events. *)
Definition Consistent (m : t) : Prop :=
  isOpen m = ChatWindow.isOpen (chatUI m) /\
  ChatWindow.messageCount (chatUI m) = length (ChatWindow.messages (chatUI m)) /\
  Forall (fun el => exists content,
            ChatWindow.text el = ChatUI._formatMessage content)
    (ChatWindow.messages (chatUI m)) /\
  (forallb (fun lane => negb (sending lane)) (pending m) = true ->
   ChatWindow.typing (chatUI m) = false) /\
  isConnected m = true.

End Manager.

(** A clock that gives the readings it was given, then 0. *)
Module Wound.

#[global] Instance clock : Clock (list Z) := {
  newDate := fun w => match w with [] => (0%Z, []) | now :: later => (now, later) end
}.

(** A widget that has one session and shows nothing yet. *)
Definition talking : @t (list Z) :=
  with_sessionId (Some "s1") (connected (ChatUI.units "Hello!") [10%Z; 20%Z; 30%Z]).

End Wound.

End ChatManager.

(** * Facts *)

Unset Implicit Arguments.

(** Case analysis on every [match] of the goal. *)
Ltac split_matches :=
  repeat match goal with
         | |- context [match ?x with _ => _ end] => destruct x eqn:?
         end.

(** ** [JsMap] *)

Lemma JsMap_get_delete_same V (k : string) (m : JsMap.t V) :
  JsMap.get k (JsMap.delete k m) = None.
Proof.
  induction m as [|[k' v] m IH]; simpl; [reflexivity|].
  destruct (String.eqb k k') eqn:E; simpl; [exact IH|].
  rewrite E. exact IH.
Qed.

Lemma JsMap_get_delete_other V (k k' : string) (m : JsMap.t V) :
  k' <> k -> JsMap.get k' (JsMap.delete k m) = JsMap.get k' m.
Proof.
  intros Hne. induction m as [|[k0 v] m IH]; simpl; [reflexivity|].
  destruct (String.eqb k k0) eqn:E; simpl.
  - apply String.eqb_eq in E. subst k0.
    destruct (String.eqb k' k) eqn:E'; [|exact IH].
    apply String.eqb_eq in E'. contradiction.
  - destruct (String.eqb k' k0); [reflexivity|exact IH].
Qed.

Lemma JsMap_get_none_keys V (k : string) (m : JsMap.t V) :
  JsMap.get k m = None <-> ~ In k (JsMap.keys m).
Proof.
  induction m as [|[k0 v] m IH]; simpl.
  - split; [intros _ []|reflexivity].
  - destruct (String.eqb k k0) eqn:E.
    + apply String.eqb_eq in E. subst. split; [discriminate|].
      intros H. exfalso. apply H. now left.
    + apply String.eqb_neq in E. rewrite IH. split.
      * intros H [H'|H']; [congruence|contradiction].
      * intros H H'. apply H. now right.
Qed.

Lemma JsMap_has_keys V (k : string) (m : JsMap.t V) :
  JsMap.has k m = true <-> In k (JsMap.keys m).
Proof.
  unfold JsMap.has. destruct (JsMap.get k m) eqn:E.
  - split; [intros _|reflexivity].
    destruct (in_dec string_dec k (JsMap.keys m)) as [H|H]; [exact H|].
    apply JsMap_get_none_keys in H. congruence.
  - apply JsMap_get_none_keys in E. split; [discriminate|contradiction].
Qed.

Lemma JsMap_has_delete_same V (k : string) (m : JsMap.t V) :
  JsMap.has k (JsMap.delete k m) = false.
Proof. unfold JsMap.has. now rewrite JsMap_get_delete_same. Qed.

Lemma JsMap_has_delete_other V (k k' : string) (m : JsMap.t V) :
  k' <> k -> JsMap.has k' (JsMap.delete k m) = JsMap.has k' m.
Proof. intros H. unfold JsMap.has. now rewrite JsMap_get_delete_other. Qed.

Lemma JsMap_delete_absent V (k : string) (m : JsMap.t V) :
  JsMap.has k m = false -> JsMap.delete k m = m.
Proof.
  unfold JsMap.has. induction m as [|[k0 v] m IH]; simpl; [reflexivity|].
  destruct (String.eqb k k0) eqn:E; simpl; [discriminate|].
  intros H. now rewrite IH.
Qed.

Lemma JsMap_size_delete V (k : string) (m : JsMap.t V) :
  NoDup (JsMap.keys m) -> JsMap.has k m = true ->
  S (JsMap.size (JsMap.delete k m)) = JsMap.size m.
Proof.
  unfold JsMap.size. induction m as [|[k0 v] m IH]; simpl.
  - intros _ H. discriminate H.
  - intros Hnd Hhas. inversion Hnd as [|? ? Hnot Hnd']; subst.
    unfold JsMap.has in Hhas. simpl in Hhas.
    destruct (String.eqb k k0) eqn:E; simpl.
    + apply String.eqb_eq in E. subst k0.
      fold (JsMap.delete k m). rewrite JsMap_delete_absent; [reflexivity|].
      destruct (JsMap.has k m) eqn:Hk; [|reflexivity].
      apply JsMap_has_keys in Hk. contradiction.
    + f_equal. apply IH; [exact Hnd'|exact Hhas].
Qed.

Lemma JsMap_keys_delete V (k k' : string) (m : JsMap.t V) :
  In k' (JsMap.keys (JsMap.delete k m)) -> In k' (JsMap.keys m).
Proof.
  induction m as [|[k0 v] m IH]; simpl; [tauto|].
  destruct (String.eqb k k0); simpl; tauto.
Qed.

Lemma JsMap_nodup_delete V (k : string) (m : JsMap.t V) :
  NoDup (JsMap.keys m) -> NoDup (JsMap.keys (JsMap.delete k m)).
Proof.
  induction m as [|[k0 v] m IH]; simpl; [trivial|].
  intros H. inversion H as [|? ? Hnot Hnd]; subst.
  destruct (String.eqb k k0); simpl; [now apply IH|].
  constructor; [|now apply IH].
  intros Hin. apply Hnot. eapply JsMap_keys_delete. exact Hin.
Qed.

Lemma JsMap_set_fresh V (k : string) (v : V) (m : JsMap.t V) :
  JsMap.has k m = false -> JsMap.set k v m = (m ++ [(k, v)])%list.
Proof.
  unfold JsMap.has. induction m as [|[k0 v0] m IH]; simpl; [reflexivity|].
  destruct (String.eqb k k0); [discriminate|].
  intros H. now rewrite IH.
Qed.

Lemma JsMap_get_app_fresh V (k k' : string) (v : V) (m : JsMap.t V) :
  JsMap.get k' (m ++ [(k, v)])%list =
  match JsMap.get k' m with
  | Some x => Some x
  | None => if String.eqb k' k then Some v else None
  end.
Proof.
  induction m as [|[k0 v0] m IH]; simpl; [reflexivity|].
  destruct (String.eqb k' k0); [reflexivity|exact IH].
Qed.

(** ** The session store *)

Section Store.

Context {W : Type} {RT : Runtime W}.

Implicit Types s : @State W.

Lemma createSession_ok_inv s o r s' :
  createSession o s = (Ok r, s') ->
  isInitialized s = true /\
  JsMap.size (sessions s) < maxConcurrentSessions s /\
  JsMap.has r (sessions s) = false /\
  exists w0 ctx w1 sq w2 created w3 active w4,
    chooseId o (world s) = (r, w0) /\
    createContext w0 = (Ok ctx, w1) /\
    getSequence ctx w1 = (Ok sq, w2) /\
    newDate w2 = (created, w3) /\
    newDate w3 = (active, w4) /\
    s' = with_nextOid (S (nextOid s))
           (with_sessions
              (JsMap.set r
                 {| oid := nextOid s;
                    session := {| contextSequence := sq;
                                  systemPrompt := systemRole s |};
                    context := Some ctx; history := [];
                    createdAt := created; lastActivity := active;
                    systemRoleSet := true |} (sessions s))
              (with_world w4 s)).
Proof.
  unfold createSession.
  destruct (isInitialized s); simpl; [|discriminate].
  destruct (maxConcurrentSessions s <=? JsMap.size (sessions s)) eqn:Hcap;
    [discriminate|].
  apply Nat.leb_gt in Hcap.
  destruct (chooseId o (world s)) as [id w0] eqn:Hid.
  destruct (JsMap.has id (sessions s)) eqn:Hhas; [discriminate|].
  destruct (createContext w0) as [[ctx|e] w1] eqn:Hctx; [|discriminate].
  destruct (getSequence ctx w1) as [[sq|e] w2] eqn:Hsq; [|discriminate].
  destruct (newDate w2) as [created w3] eqn:Hc.
  destruct (newDate w3) as [active w4] eqn:Ha.
  intros H. inversion H; subst.
  repeat split; try assumption.
  exists w0, ctx, w1, sq, w2, created, w3, active, w4.
  repeat split; assumption.
Qed.

Lemma createSession_err_sessions s o e :
  fst (createSession o s) = Err e ->
  sessions (snd (createSession o s)) = sessions s.
Proof.
  unfold createSession.
  destruct (isInitialized s); simpl; [|reflexivity].
  destruct (maxConcurrentSessions s <=? JsMap.size (sessions s)); [reflexivity|].
  destruct (chooseId o (world s)) as [id w0].
  destruct (JsMap.has id (sessions s)); [reflexivity|].
  destruct (createContext w0) as [[ctx|e1] w1]; [|reflexivity].
  destruct (getSequence ctx w1) as [[sq|e2] w2]; [|reflexivity].
  destruct (newDate w2) as [created w3].
  destruct (newDate w3) as [active w4].
  discriminate.
Qed.

Lemma createSession_frame s o :
  isInitialized (snd (createSession o s)) = isInitialized s /\
  maxConcurrentSessions (snd (createSession o s)) = maxConcurrentSessions s /\
  systemRole (snd (createSession o s)) = systemRole s /\
  processingQueue (snd (createSession o s)) = processingQueue s /\
  currentlyProcessing (snd (createSession o s)) = currentlyProcessing s /\
  nextPromise (snd (createSession o s)) = nextPromise s /\
  lanes (snd (createSession o s)) = lanes s /\
  trace (snd (createSession o s)) = trace s.
Proof.
  unfold createSession. split_matches; simpl; repeat split; reflexivity.
Qed.

Lemma createSession_size s o :
  JsMap.size (sessions (snd (createSession o s))) =
  JsMap.size (sessions s) + (if isOk (fst (createSession o s)) then 1 else 0).
Proof.
  destruct (createSession o s) as [[r|e] s'] eqn:E; simpl.
  - apply createSession_ok_inv in E.
    destruct E as (_ & _ & Hfresh & w0 & ctx & w1 & sq & w2 & c & w3 & a & w4 & E).
    destruct E as (_ & _ & _ & _ & _ & ->). simpl.
    rewrite (JsMap_set_fresh _ _ _ _ Hfresh). unfold JsMap.size.
    rewrite length_app. reflexivity.
  - pose proof (createSession_err_sessions s o e) as H.
    rewrite E in H. simpl in H. rewrite H by reflexivity. lia.
Qed.

Lemma createSession_at_ceiling s o :
  isInitialized s = true ->
  maxConcurrentSessions s <= JsMap.size (sessions s) ->
  createSession o s = (Err (capacityError (maxConcurrentSessions s)), s).
Proof.
  intros Hi Hcap. unfold createSession. rewrite Hi. simpl.
  apply Nat.leb_le in Hcap. now rewrite Hcap.
Qed.

Lemma createSession_below_ceiling s o :
  JsMap.size (sessions s) < maxConcurrentSessions s ->
  fst (createSession o s) <> Err (capacityError (maxConcurrentSessions s)).
Proof.
  intros Hlt. unfold createSession, capacityError, notInitializedError, duplicateError.
  destruct (isInitialized s); simpl; [|discriminate].
  apply Nat.leb_gt in Hlt. rewrite Hlt.
  destruct (chooseId o (world s)) as [id w0].
  destruct (JsMap.has id (sessions s)); [simpl; discriminate|].
  destruct (createContext w0) as [[ctx|e1] w1]; [|simpl; discriminate].
  destruct (getSequence ctx w1) as [[sq|e2] w2]; [|simpl; discriminate].
  destruct (newDate w2) as [created w3].
  destruct (newDate w3) as [active w4].
  simpl. discriminate.
Qed.

Lemma createAll_counts ids : forall s,
  JsMap.size (sessions (snd (createAll ids s))) =
    JsMap.size (sessions s) + length (filter isOk (fst (createAll ids s))) /\
  length (fst (createAll ids s)) = length ids /\
  isInitialized (snd (createAll ids s)) = isInitialized s /\
  maxConcurrentSessions (snd (createAll ids s)) = maxConcurrentSessions s.
Proof.
  induction ids as [|o ids IH]; intros s; simpl.
  - repeat split; lia.
  - pose proof (createSession_size s o) as Hsz.
    pose proof (createSession_frame s o) as (Hi & Hm & _).
    destruct (createSession o s) as [r s1]. simpl in *.
    specialize (IH s1). destruct (createAll ids s1) as [rs s2]. simpl in *.
    destruct IH as (IH1 & IH2 & IH3 & IH4).
    repeat split; try congruence.
    rewrite IH1, Hsz. destruct (isOk r); simpl; lia.
Qed.

Lemma filter_all_true A (f : A -> bool) (l : list A) :
  forallb f l = true -> filter f l = l.
Proof.
  induction l as [|x l IH]; simpl; [reflexivity|].
  destruct (f x); simpl; [|discriminate].
  intros H. now rewrite IH.
Qed.

Lemma deleteSession_ok_inv s id s1 :
  deleteSession id s = (Ok tt, s1) ->
  JsMap.has id (sessions s) = true /\
  exists w, s1 = with_sessions (JsMap.delete id (sessions s)) (with_world w s).
Proof.
  unfold deleteSession, JsMap.has.
  destruct (JsMap.get id (sessions s)) as [d|]; [|discriminate].
  destruct (match context d with
            | Some ctx => dispose ctx (world s)
            | None => (Ok tt, world s)
            end) as [[u|e] w]; [|discriminate].
  intros H. inversion H. split; [reflexivity|]. now exists w.
Qed.

Lemma deleteSession_frame s id :
  isInitialized (snd (deleteSession id s)) = isInitialized s /\
  maxConcurrentSessions (snd (deleteSession id s)) = maxConcurrentSessions s /\
  systemRole (snd (deleteSession id s)) = systemRole s /\
  processingQueue (snd (deleteSession id s)) = processingQueue s /\
  currentlyProcessing (snd (deleteSession id s)) = currentlyProcessing s /\
  nextPromise (snd (deleteSession id s)) = nextPromise s /\
  lanes (snd (deleteSession id s)) = lanes s /\
  trace (snd (deleteSession id s)) = trace s.
Proof.
  unfold deleteSession.
  destruct (JsMap.get id (sessions s)) as [d|]; [|now repeat split].
  destruct (match context d with
            | Some ctx => dispose ctx (world s)
            | None => (Ok tt, world s)
            end) as [[u|e] w]; now repeat split.
Qed.

(** C2, as amended.  [deleteSession] on a live id releases the context of
    the session.  When the release succeeds (or there is no context) the
    call succeeds, the id is no longer in the store and no other entry
    changes.  When the release throws, the call throws
    ["Failed to delete session: ..."] and the store is as it was: the entry
    stays. *)
Theorem deleteSession_live_session :
  forall s (id : string) (d : SessionData),
    JsMap.get id (sessions s) = Some d ->
    match (match context d with
           | Some ctx => dispose ctx (world s)
           | None => (Ok tt, world s)
           end) with
    | (Ok _, w) =>
        deleteSession id s =
          (Ok tt, with_sessions (JsMap.delete id (sessions s)) (with_world w s)) /\
        JsMap.has id (sessions (snd (deleteSession id s))) = false /\
        (forall k, k <> id ->
           JsMap.get k (sessions (snd (deleteSession id s))) = JsMap.get k (sessions s))
    | (Err e, w) =>
        deleteSession id s = (Err ("Failed to delete session: " ++ e), with_world w s) /\
        sessions (snd (deleteSession id s)) = sessions s /\
        JsMap.has id (sessions (snd (deleteSession id s))) = true
    end.
Proof.
  intros s id d Hget. unfold deleteSession. rewrite Hget.
  destruct (match context d with
            | Some ctx => dispose ctx (world s)
            | None => (Ok tt, world s)
            end) as [[u|e] w]; simpl.
  - repeat split.
    + apply JsMap_has_delete_same.
    + intros k Hk. now apply JsMap_get_delete_other.
  - repeat split. unfold JsMap.has. now rewrite Hget.
Qed.

(** C3.  With the model loaded, [createSession] throws the capacity error
    exactly when the store holds [maxConcurrentSessions] sessions (or
    more), and then leaves the state as it was.  From an empty store, once
    [maxConcurrentSessions] calls have succeeded the next call throws the
    capacity error.  After a successful [deleteSession] on a full store
    the capacity error is gone, and the retried call succeeds when its id
    is not live and the engine provides a context. *)
Theorem createSession_capacity :
  forall s (o : option string),
    isInitialized s = true ->
    (fst (createSession o s) = Err (capacityError (maxConcurrentSessions s)) <->
     maxConcurrentSessions s <= JsMap.size (sessions s)) /\
    (maxConcurrentSessions s <= JsMap.size (sessions s) ->
     snd (createSession o s) = s) /\
    (forall ids,
       sessions s = JsMap.empty ->
       length ids = maxConcurrentSessions s ->
       forallb isOk (fst (createAll ids s)) = true ->
       createSession o (snd (createAll ids s)) =
         (Err (capacityError (maxConcurrentSessions s)), snd (createAll ids s))) /\
    (forall victim s1,
       StoreInv s ->
       JsMap.size (sessions s) = maxConcurrentSessions s ->
       deleteSession victim s = (Ok tt, s1) ->
       fst (createSession o s1) <> Err (capacityError (maxConcurrentSessions s1)) /\
       (forall id w0 ctx w1 sq w2,
          chooseId o (world s1) = (id, w0) ->
          JsMap.has id (sessions s1) = false ->
          createContext w0 = (Ok ctx, w1) ->
          getSequence ctx w1 = (Ok sq, w2) ->
          fst (createSession o s1) = Ok id)).
Proof.
  intros s o Hi. split; [|split; [|split]].
  - split.
    + intros H.
      destruct (le_lt_dec (maxConcurrentSessions s) (JsMap.size (sessions s)))
        as [Hle|Hlt]; [exact Hle|].
      exfalso. exact (createSession_below_ceiling s o Hlt H).
    + intros Hle. now rewrite createSession_at_ceiling.
  - intros Hle. now rewrite createSession_at_ceiling.
  - intros ids Hempty Hlen Hall.
    destruct (createAll_counts ids s) as (Hsz & Hl & Hi' & Hm).
    rewrite <- Hm. apply createSession_at_ceiling; [congruence|].
    rewrite Hsz, Hm, Hempty. simpl.
    rewrite (filter_all_true _ _ _ Hall), Hl, Hlen. lia.
  - intros victim s1 Hinv Hfull Hdel.
    destruct (deleteSession_ok_inv _ _ _ Hdel) as (Hlive & w & ->).
    pose proof (JsMap_size_delete _ victim _ Hinv Hlive) as Hsz.
    split.
    + apply createSession_below_ceiling. simpl. lia.
    + intros id w0 ctx w1 sq w2 Hid Hfresh Hctx Hsq.
      unfold createSession in *. simpl in *. rewrite Hi. simpl.
      assert (Hlt : (maxConcurrentSessions s <=?
                     JsMap.size (JsMap.delete victim (sessions s))) = false)
        by (apply Nat.leb_gt; lia).
      rewrite Hlt, Hid, Hfresh, Hctx, Hsq.
      destruct (newDate w2) as [c w3]. destruct (newDate w3) as [a w4].
      reflexivity.
Qed.

(** C6, as amended.  With the model loaded and the store below its
    ceiling, let [id] be the id the call settles on: the supplied one when
    it is a non-empty string, a generated one otherwise.  If [id] is live
    the call throws the duplicate-id error and the store is as it was.  A
    call that succeeds returns [id], which was not live; the store gains,
    at its end, a session under [id] with the context the engine has just
    created, an empty history, and [createdAt] and [lastActivity] taken
    from two successive readings of the clock. *)
Theorem createSession_result :
  forall s (o : option string) (id : string) (w0 : W),
    isInitialized s = true ->
    JsMap.size (sessions s) < maxConcurrentSessions s ->
    chooseId o (world s) = (id, w0) ->
    (forall x, o = Some x -> x <> "" -> id = x /\ w0 = world s) /\
    (JsMap.has id (sessions s) = true ->
     createSession o s = (Err (duplicateError id), with_world w0 s) /\
     sessions (snd (createSession o s)) = sessions s) /\
    (forall r s',
       createSession o s = (Ok r, s') ->
       r = id /\ JsMap.has id (sessions s) = false /\
       exists ctx w1 sq w2 created w3 active w4,
         createContext w0 = (Ok ctx, w1) /\
         getSequence ctx w1 = (Ok sq, w2) /\
         newDate w2 = (created, w3) /\
         newDate w3 = (active, w4) /\
         sessions s' =
           (sessions s ++
            [(id, {| oid := nextOid s;
                     session := {| contextSequence := sq;
                                   systemPrompt := systemRole s |};
                     context := Some ctx; history := [];
                     createdAt := created; lastActivity := active;
                     systemRoleSet := true |})])%list).
Proof.
  intros s o id w0 Hi Hlt Hid. split; [|split].
  - intros x -> Hx. unfold chooseId in Hid.
    apply String.eqb_neq in Hx. rewrite Hx in Hid. now inversion Hid.
  - intros Hlive. unfold createSession. rewrite Hi. simpl.
    apply Nat.leb_gt in Hlt. rewrite Hlt, Hid, Hlive. now split.
  - intros r s' Hok. apply createSession_ok_inv in Hok.
    destruct Hok as (_ & _ & Hfresh & w0' & ctx & w1 & sq & w2 & c & w3 & a & w4 & H).
    destruct H as (Hid' & Hctx & Hsq & Hc & Ha & ->).
    rewrite Hid in Hid'. inversion Hid'; subst r w0'.
    split; [reflexivity|]. split; [exact Hfresh|].
    exists ctx, w1, sq, w2, c, w3, a, w4.
    repeat split; try assumption. simpl.
    now apply JsMap_set_fresh.
Qed.

End Store.

(** ** The sweep *)

Section Sweep.

Context {W : Type} {RT : Runtime W}.

Implicit Types s : @State W.


Lemma JsMap_get_in V (k : string) (v : V) (m : JsMap.t V) :
  NoDup (JsMap.keys m) -> (JsMap.get k m = Some v <-> In (k, v) m).
Proof.
  induction m as [|[k0 v0] m IH]; simpl; intros Hnd.
  - split; [discriminate|tauto].
  - inversion Hnd as [|? ? Hnot Hnd']; subst.
    destruct (String.eqb k k0) eqn:E.
    + apply String.eqb_eq in E. subst k0. split.
      * intros H. inversion H. now left.
      * intros [H|H]; [now inversion H|].
        exfalso. apply Hnot. change k with (fst (k, v)). now apply in_map.
    + apply String.eqb_neq in E. rewrite (IH Hnd'). split.
      * intros H. now right.
      * intros [H|H]; [inversion H; congruence|exact H].
Qed.



Lemma deleteSession_live_cases s id :
  JsMap.has id (sessions s) = true ->
  (exists w, deleteSession id s =
               (Ok tt, with_sessions (JsMap.delete id (sessions s)) (with_world w s))) \/
  (exists e w, deleteSession id s = (Err e, with_world w s)).
Proof.
  unfold deleteSession, JsMap.has.
  destruct (JsMap.get id (sessions s)) as [d|]; [intros _|discriminate].
  destruct (match context d with
            | Some ctx => dispose ctx (world s)
            | None => (Ok tt, world s)
            end) as [[[]|e] w].
  - left. now exists w.
  - right. now exists ("Failed to delete session: " ++ e), w.
Qed.

Lemma cleanupLoop_spec ids : forall s,
  NoDup ids ->
  (forall id, In id ids -> JsMap.has id (sessions s) = true) ->
  StoreInv s ->
  length (fst (cleanupLoop ids s)) = length ids /\
  (forall k, ~ In k ids ->
     JsMap.get k (sessions (snd (cleanupLoop ids s))) = JsMap.get k (sessions s)) /\
  (forall i id, nth_error ids i = Some id ->
     exists out, nth_error (fst (cleanupLoop ids s)) i = Some out /\
                 JsMap.has id (sessions (snd (cleanupLoop ids s))) = negb (isOk out)) /\
  JsMap.size (sessions (snd (cleanupLoop ids s))) +
    length (filter isOk (fst (cleanupLoop ids s))) = JsMap.size (sessions s) /\
  StoreInv (snd (cleanupLoop ids s)).
Proof.
  induction ids as [|id ids IH]; intros s Hnd Hlive Hinv; simpl.
  - repeat split; try lia; try assumption.
    intros [|i] id H; discriminate H.
  - inversion Hnd as [|? ? Hnot Hnd']; subst.
    assert (Hid : JsMap.has id (sessions s) = true) by (apply Hlive; now left).
    destruct (deleteSession_live_cases s id Hid) as [(w & E)|(e & w & E)];
      rewrite E.
    + set (s1 := with_sessions (JsMap.delete id (sessions s)) (with_world w s)).
      assert (Hlive1 : forall k, In k ids -> JsMap.has k (sessions s1) = true).
      { intros k Hk. simpl. rewrite JsMap_has_delete_other.
        - apply Hlive. now right.
        - intros ->. contradiction. }
      assert (Hinv1 : StoreInv s1) by (apply JsMap_nodup_delete; exact Hinv).
      destruct (IH s1 Hnd' Hlive1 Hinv1) as (H1 & H2 & H3 & H4 & H5).
      destruct (cleanupLoop ids s1) as [rs s2]. simpl in *.
      repeat split.
      * now rewrite H1.
      * intros k Hk. rewrite H2 by tauto.
        apply JsMap_get_delete_other. intros ->. tauto.
      * intros [|i] k Hi; simpl in *.
        -- inversion Hi; subst k. exists (Ok tt). split; [reflexivity|].
           unfold JsMap.has. rewrite (H2 id Hnot), JsMap_get_delete_same.
           reflexivity.
        -- now apply H3.
      * pose proof (JsMap_size_delete _ id _ Hinv Hid). lia.
      * exact H5.
    + set (s1 := with_world w s).
      assert (Hlive1 : forall k, In k ids -> JsMap.has k (sessions s1) = true).
      { intros k Hk. apply Hlive. now right. }
      destruct (IH s1 Hnd' Hlive1 Hinv) as (H1 & H2 & H3 & H4 & H5).
      destruct (cleanupLoop ids s1) as [rs s2]. simpl in *.
      repeat split.
      * now rewrite H1.
      * intros k Hk. apply H2. tauto.
      * intros [|i] k Hi; simpl in *.
        -- inversion Hi; subst k. exists (Err e). split; [reflexivity|].
           unfold JsMap.has in *. now rewrite (H2 id Hnot).
        -- now apply H3.
      * exact H4.
      * exact H5.
Qed.


End Sweep.

(** ** The queue *)

Section Queue.

Context {W : Type} {RT : Runtime W}.

Implicit Types s : @State W.

Lemma serve_snoc (t : list QueueEvent) (e : QueueEvent) :
  serve (t ++ [e]) = serveStep (serve t) e.
Proof. unfold serve. now rewrite fold_left_app. Qed.

Lemma submitted_snoc (t : list QueueEvent) (e : QueueEvent) :
  submitted (t ++ [e]) =
  (submitted t ++ match e with Enqueued p => [p] | _ => [] end)%list.
Proof. unfold submitted. rewrite flat_map_app. simpl. now rewrite app_nil_r. Qed.

Lemma settled_snoc (t : list QueueEvent) (e : QueueEvent) :
  settled (t ++ [e]) =
  (settled t ++ match e with
                | Resolved p _ | Rejected p _ => [p]
                | _ => []
                end)%list.
Proof. unfold settled. rewrite flat_map_app. simpl. now rewrite app_nil_r. Qed.

Lemma serve_settled (t : list QueueEvent) :
  match serve t with
  | Idle n => settled t = seq 0 n
  | Taken p | Calling p => settled t = seq 0 p
  | OutOfOrder => True
  end.
Proof.
  induction t as [|e t IH] using rev_ind; [reflexivity|].
  rewrite serve_snoc, settled_snoc.
  destruct e as [p|p|p sid text|p r|p m]; destruct (serve t) as [n|q|q|]; simpl;
    try exact I; try (now rewrite app_nil_r);
    match goal with
    | |- context [?a =? ?b] => destruct (Nat.eqb_spec a b)
    end; try exact I; subst;
    try (now rewrite app_nil_r);
    rewrite IH, seq_S; reflexivity.
Qed.

Lemma processMessage_begin_frame s sid msg :
  let s' := snd (processMessage_begin sid msg s) in
  isInitialized s' = isInitialized s /\
  maxConcurrentSessions s' = maxConcurrentSessions s /\
  systemRole s' = systemRole s /\
  processingQueue s' = processingQueue s /\
  currentlyProcessing s' = currentlyProcessing s /\
  nextPromise s' = nextPromise s /\
  lanes s' = lanes s /\
  trace s' = trace s /\
  JsMap.keys (sessions s') = JsMap.keys (sessions s).
Proof.
  unfold processMessage_begin. split_matches; simpl; repeat split.
  unfold updateObject, JsMap.keys. rewrite map_map. apply map_ext.
  intros [k d]. simpl. now destruct (oid d =? oid _).
Qed.

Lemma updateObject_keys o f (m : JsMap.t SessionData) :
  JsMap.keys (updateObject o f m) = JsMap.keys m.
Proof.
  unfold updateObject, JsMap.keys. rewrite map_map. apply map_ext.
  intros [k d]. simpl. now destruct (oid d =? o).
Qed.

Lemma processMessage_end_frame s o answer :
  let s' := snd (processMessage_end o answer s) in
  isInitialized s' = isInitialized s /\
  maxConcurrentSessions s' = maxConcurrentSessions s /\
  systemRole s' = systemRole s /\
  processingQueue s' = processingQueue s /\
  currentlyProcessing s' = currentlyProcessing s /\
  nextPromise s' = nextPromise s /\
  lanes s' = lanes s /\
  trace s' = trace s /\
  JsMap.keys (sessions s') = JsMap.keys (sessions s).
Proof.
  unfold processMessage_end. split_matches; simpl; repeat split.
  now rewrite !updateObject_keys.
Qed.

(** What one turn of the loop does. *)
Lemma nextRequest_spec s :
  match processingQueue s with
  | [] => nextRequest s = (with_currentlyProcessing false s, None)
  | r :: rest =>
      exists s2 lane,
        nextRequest s = (s2, Some lane) /\
        processingQueue s2 = rest /\
        currentlyProcessing s2 = currentlyProcessing s /\
        nextPromise s2 = nextPromise s /\
        lanes s2 = lanes s /\
        systemRole s2 = systemRole s /\
        isInitialized s2 = isInitialized s /\
        maxConcurrentSessions s2 = maxConcurrentSessions s /\
        JsMap.keys (sessions s2) = JsMap.keys (sessions s) /\
        ((JsMap.get (Request.sessionId r) (sessions s) = None /\
          lane = AwaitMessage r (Err (notFoundError (Request.sessionId r))) /\
          trace s2 = (trace s ++ [Shifted (Request.promise r)])%list /\
          sessions s2 = sessions s /\ world s2 = world s) \/
         (exists d,
            JsMap.get (Request.sessionId r) (sessions s) = Some d /\
            lane = AwaitPrompt r (oid d) (session d)
                     (reinforcedMessage (systemRole s) (Request.message r)) /\
            trace s2 =
              (trace s ++
               [Shifted (Request.promise r);
                Prompted (Request.promise r) (Request.sessionId r)
                  (reinforcedMessage (systemRole s) (Request.message r))])%list /\
            world s2 = snd (newDate (world s)) /\
            sessions s2 =
              updateObject (oid d)
                (pushHistory {| role := user; content := Request.message r;
                                timestamp := fst (newDate (world s)) |})
                (sessions s)))
  end.
Proof.
  unfold nextRequest. destruct (processingQueue s) as [|r rest]; [reflexivity|].
  unfold processMessage_begin. simpl.
  destruct (JsMap.get (Request.sessionId r) (sessions s)) as [d|] eqn:Hget.
  - destruct (newDate (world s)) as [now w]. eexists _, _.
    split; [reflexivity|]. simpl. repeat split.
    + apply updateObject_keys.
    + right. exists d. repeat split. unfold emit. simpl.
      now rewrite <- app_assoc.
  - eexists _, _. split; [reflexivity|]. simpl. repeat split.
    left. repeat split.
Qed.

Lemma QueueInv_frame s s' :
  lanes s' = lanes s ->
  currentlyProcessing s' = currentlyProcessing s ->
  processingQueue s' = processingQueue s ->
  nextPromise s' = nextPromise s ->
  trace s' = trace s ->
  QueueInv s -> QueueInv s'.
Proof.
  unfold QueueInv, queued. intros -> -> -> -> ->. trivial.
Qed.

Lemma serve_app (t t' : list QueueEvent) :
  serve (t ++ t') = fold_left serveStep t' (serve t).
Proof. unfold serve. now rewrite fold_left_app. Qed.

Lemma submitted_app (t t' : list QueueEvent) :
  submitted (t ++ t') = (submitted t ++ submitted t')%list.
Proof. unfold submitted. now rewrite flat_map_app. Qed.

Lemma seq_head (n k p : nat) (l : list nat) :
  p :: l = seq n k -> p = n /\ l = seq (S n) (k - 1) /\ 0 < k.
Proof.
  destruct k as [|k]; simpl; [discriminate|].
  intros H. inversion H. rewrite Nat.sub_0_r. repeat split. lia.
Qed.

(** The loop test and what follows it keep the queue in order. *)
Lemma nextRequest_QueueInv s (n : nat) :
  currentlyProcessing s = true ->
  submitted (trace s) = seq 0 (nextPromise s) ->
  serve (trace s) = Idle n ->
  n <= nextPromise s ->
  queued s = seq n (nextPromise s - n) ->
  QueueInv (with_lanes (match snd (nextRequest s) with
                        | Some lane => [lane]
                        | None => []
                        end) (fst (nextRequest s))) /\
  nextPromise (fst (nextRequest s)) = nextPromise s /\
  lanes (fst (nextRequest s)) = lanes s /\
  processingQueue (fst (nextRequest s)) = tl (processingQueue s) /\
  (snd (nextRequest s) = None <-> processingQueue s = []).
Proof.
  intros Hcp Hsub Hserve Hle Hq.
  pose proof (nextRequest_spec s) as Hspec. unfold queued in Hq.
  destruct (processingQueue s) as [|r rest] eqn:Hqueue.
  - rewrite Hspec. simpl. unfold QueueInv. simpl.
    assert (n = nextPromise s).
    { apply (f_equal (@length nat)) in Hq. rewrite length_seq in Hq.
      simpl in Hq. lia. }
    subst n. repeat split; assumption.
  - destruct Hspec as (s2 & lane & E & Hq2 & Hcp2 & Hn2 & Hl2 & _ & _ & _ & _ & Hcase).
    rewrite E. simpl in *.
    apply seq_head in Hq. destruct Hq as (Hp & Hrest & Hpos).
    replace (nextPromise s - n - 1) with (nextPromise s - S n) in Hrest by lia.
    split; [|repeat split; try assumption; discriminate].
    unfold QueueInv, queued. simpl.
    destruct Hcase as [(_ & -> & Htr & _)|(d & _ & -> & Htr & _)];
      rewrite Htr, Hq2, Hn2, Hcp2, Hp.
    + rewrite submitted_app, serve_app, Hserve. simpl.
      rewrite Nat.eqb_refl, app_nil_r.
      repeat split; try assumption; try lia. now right.
    + rewrite submitted_app, serve_app, Hserve. simpl.
      rewrite Nat.eqb_refl, Nat.eqb_refl, app_nil_r.
      repeat split; try assumption; lia.
Qed.

Lemma initial_QueueInv (role : option string) (w : W) :
  QueueInv (constructor role w).
Proof. unfold QueueInv. simpl. repeat split. Qed.

Lemma enqueue_fields s sid msg :
  exists now w,
    newDate (world s) = (now, w) /\
    processingQueue (enqueue sid msg s) =
      (processingQueue s ++
       [{| Request.sessionId := sid; Request.message := msg;
           Request.promise := nextPromise s; Request.timestamp := now |}])%list /\
    trace (enqueue sid msg s) = (trace s ++ [Enqueued (nextPromise s)])%list /\
    nextPromise (enqueue sid msg s) = S (nextPromise s) /\
    lanes (enqueue sid msg s) = lanes s /\
    currentlyProcessing (enqueue sid msg s) = currentlyProcessing s /\
    systemRole (enqueue sid msg s) = systemRole s /\
    sessions (enqueue sid msg s) = sessions s /\
    isInitialized (enqueue sid msg s) = isInitialized s /\
    maxConcurrentSessions (enqueue sid msg s) = maxConcurrentSessions s /\
    world (enqueue sid msg s) = w.
Proof.
  unfold enqueue. destruct (newDate (world s)) as [now w].
  exists now, w. simpl. repeat split.
Qed.

Lemma sendMessage_QueueInv s sid msg :
  QueueInv s -> QueueInv (snd (sendMessage sid msg s)).
Proof.
  intros Hinv. unfold sendMessage.
  destruct (JsMap.has sid (sessions s)); simpl; [|exact Hinv].
  destruct (enqueue_fields s sid msg)
    as (now & w & _ & Hq & Htr & Hn & Hl & Hcp & _).
  set (s1 := enqueue sid msg s) in *.
  unfold QueueInv in Hinv. destruct Hinv as (Hsub & Hinv).
  assert (Hsub1 : submitted (trace s1) = seq 0 (nextPromise s1)).
  { rewrite Htr, Hn, submitted_app, Hsub, seq_S. reflexivity. }
  assert (Hserve1 : serve (trace s1) = serve (trace s)).
  { rewrite Htr, serve_app. reflexivity. }
  unfold _processQueue.
  destruct (lanes s) as [|l [|l' ls]] eqn:Hlanes.
  - destruct Hinv as (Hidle & Hempty & Hserve).
    rewrite Hcp, Hidle, Hq, Hempty. simpl.
    set (s1' := with_currentlyProcessing true s1).
    destruct (nextRequest_QueueInv s1' (nextPromise s)) as (H1 & _ & H3 & _ & _).
    + reflexivity.
    + exact Hsub1.
    + simpl. now rewrite Hserve1.
    + simpl. lia.
    + unfold queued.
      change (processingQueue s1') with (processingQueue s1).
      change (nextPromise s1') with (nextPromise s1).
      rewrite Hq, Hempty, Hn.
      replace (S (nextPromise s) - nextPromise s) with 1 by lia. reflexivity.
    + simpl in H3. rewrite Hl in H3.
      destruct (nextRequest s1') as [s2 [lane|]]; simpl in *.
      * eapply QueueInv_frame; [| | | | |exact H1]; simpl;
          try reflexivity. now rewrite H3.
      * eapply QueueInv_frame; [| | | | |exact H1]; simpl;
          try reflexivity. exact H3.
  - assert (Hbusy : currentlyProcessing s = true)
      by (destruct l; tauto).
    rewrite Hcp, Hbusy. simpl.
    unfold QueueInv, queued. rewrite Hl, Hcp, Hq, Hn, Hserve1.
    split; [now rewrite <- Hn|]. rewrite map_app. simpl.
    unfold queued in Hinv.
    destruct l as [r o chat text|r out].
    + destruct Hinv as (H1 & H2 & H3 & H4). repeat split; try assumption; try lia.
      rewrite H3.
      replace (nextPromise s - Request.promise r)
        with (S (nextPromise s - S (Request.promise r))) by lia.
      rewrite seq_S. do 2 f_equal. lia.
    + destruct Hinv as (H1 & H2 & H3 & H4). repeat split; try assumption; try lia.
      rewrite H3.
      replace (nextPromise s - Request.promise r)
        with (S (nextPromise s - S (Request.promise r))) by lia.
      rewrite seq_S. do 2 f_equal. lia.
  - destruct l; contradiction.
Qed.

Lemma promptSettles_QueueInv s (i : nat) :
  QueueInv s -> QueueInv (promptSettles i s).
Proof.
  intros Hinv. unfold promptSettles.
  destruct (nth_error (lanes s) i) as [[r o chat text|r out]|] eqn:Hnth;
    try exact Hinv.
  destruct (prompt chat text (world s)) as [answer w].
  pose proof (processMessage_end_frame (with_world w s) o answer) as Hf.
  destruct (processMessage_end o answer (with_world w s)) as [outcome s1].
  simpl in Hf. destruct Hf as (_ & _ & _ & Hq & Hcp & Hn & Hl & Htr & _).
  unfold QueueInv in Hinv. destruct Hinv as (Hsub & Hinv).
  destruct (lanes s) as [|l [|l' ls]] eqn:Hlanes; destruct i as [|i];
    simpl in Hnth; try discriminate; try (destruct l; contradiction);
    try (destruct i; discriminate).
  inversion Hnth; subst l. destruct Hinv as (H1 & H2 & H3 & H4).
  unfold QueueInv, queued in *. simpl. rewrite Hl, Hq, Hcp, Hn, Htr. simpl.
  repeat split; try assumption. now left.
Qed.

Lemma resume_QueueInv s (i : nat) :
  QueueInv s -> QueueInv (resume i s).
Proof.
  intros Hinv. unfold resume.
  destruct (nth_error (lanes s) i) as [[r o chat text|r out]|] eqn:Hnth;
    try exact Hinv.
  unfold QueueInv in Hinv. destruct Hinv as (Hsub & Hinv).
  destruct (lanes s) as [|l [|l' ls]] eqn:Hlanes; destruct i as [|i];
    simpl in Hnth; try discriminate; try (destruct l; contradiction);
    try (destruct i; discriminate).
  inversion Hnth; subst l. destruct Hinv as (Hcp & Hserve & Hq & Hlt).
  set (ev := match out with
             | Ok response => Resolved (Request.promise r) response
             | Err e => Rejected (Request.promise r) e
             end).
  destruct (nextRequest_QueueInv (emit ev s) (S (Request.promise r)))
    as (H1 & _ & H3 & _ & _).
  - exact Hcp.
  - simpl. rewrite submitted_app, Hsub. subst ev.
    destruct out; simpl; now rewrite app_nil_r.
  - simpl. rewrite serve_app. subst ev. simpl.
    destruct Hserve as [->|(-> & Hout)]; destruct out; simpl in *;
      try discriminate; now rewrite Nat.eqb_refl.
  - simpl. lia.
  - exact Hq.
  - simpl in H3. rewrite Hlanes in H3.
    destruct (nextRequest (emit ev s)) as [s2 [lane|]]; simpl in *;
      (eapply QueueInv_frame; [| | | | |exact H1]); simpl;
      try reflexivity; now rewrite H3.
Qed.

Lemma QueueFrame_inv s s' : QueueFrame s s' -> QueueInv s -> QueueInv s'.
Proof. intros (H1 & H2 & H3 & H4 & H5). now apply QueueInv_frame. Qed.

Lemma cleanupLoop_frame ids : forall s,
  QueueFrame s (snd (cleanupLoop ids s)) /\
  systemRole (snd (cleanupLoop ids s)) = systemRole s.
Proof.
  induction ids as [|id ids IH]; intros s; simpl.
  - now repeat split.
  - pose proof (deleteSession_frame s id) as (_ & _ & R & Q & C & N & L & T).
    destruct (deleteSession id s) as [r s1]. simpl in *.
    specialize (IH s1). destruct (cleanupLoop ids s1) as [rs s2]. simpl in *.
    destruct IH as ((L' & C' & Q' & N' & T') & R').
    unfold QueueFrame. repeat split; congruence.
Qed.

Lemma quiet_calls_frame (e : Event) s :
  match e with
  | CallInitialize _ | CallCreateSession _ | CallDeleteSession _
  | CallUpdateSystemRole _ | CallCleanupInactiveSessions _ => QueueFrame s (exec e s)
  | _ => True
  end.
Proof.
  destruct e as [path|o|sid msg|sid v|sid|v|age|i|i]; simpl; try exact I.
  - unfold initialize. split_matches; simpl; now repeat split.
  - pose proof (createSession_frame s o) as (_ & _ & _ & Q & C & N & L & T).
    now repeat split.
  - pose proof (deleteSession_frame s sid) as (_ & _ & _ & Q & C & N & L & T).
    now repeat split.
  - unfold updateSystemRole. split_matches; simpl; now repeat split.
  - unfold cleanupInactiveSessions. destruct (newDate (world s)) as [now w].
    simpl. apply (cleanupLoop_frame _ (with_world w s)).
Qed.

Lemma postMessage_state s sid v :
  snd (postMessage sid v s) = s \/
  snd (postMessage sid v s) = snd (sendMessage sid (asString v) s).
Proof.
  unfold postMessage.
  destruct (negb (truthy v) || negb (typeof_string v)); [now left|].
  right. now destruct (sendMessage sid (asString v) s) as [[p|e] s1].
Qed.

Lemma exec_QueueInv (e : Event) s : QueueInv s -> QueueInv (exec e s).
Proof.
  intros Hinv. pose proof (quiet_calls_frame e s) as Hq.
  destruct e as [path|o|sid msg|sid v|sid|v|age|i|i];
    try (eapply QueueFrame_inv; [exact Hq|exact Hinv]).
  - now apply sendMessage_QueueInv.
  - simpl. destruct (postMessage_state s sid v) as [->| ->];
      [exact Hinv|now apply sendMessage_QueueInv].
  - now apply promptSettles_QueueInv.
  - now apply resume_QueueInv.
Qed.

Lemma run_QueueInv (events : list Event) : forall s,
  QueueInv s -> QueueInv (run events s).
Proof.
  induction events as [|e events IH]; intros s Hinv; [exact Hinv|].
  simpl. apply IH. now apply exec_QueueInv.
Qed.

Lemma QueueInv_lanes s : QueueInv s -> length (lanes s) <= 1.
Proof.
  intros (_ & H). destruct (lanes s) as [|l [|l' ls]]; simpl; try lia.
  destruct l; contradiction.
Qed.


(** C9.  However the calls of the API, the settling of engine calls and the
    resumptions of the loop interleave after construction, at most one
    activation of [_processQueue] exists and at most one engine call is in
    flight; [currentlyProcessing] is set exactly while an activation
    exists. *)
Theorem at_most_one_in_flight :
  forall (role : option string) (w : W) (events : list Event),
    let s := run events (constructor role w) in
    inFlight s <= 1 /\
    length (lanes s) <= 1 /\
    (currentlyProcessing s = true <-> lanes s <> []).
Proof.
  intros role w events s.
  assert (Hinv : QueueInv s) by apply run_QueueInv, initial_QueueInv.
  pose proof (QueueInv_lanes s Hinv) as Hlen.
  split; [|split; [exact Hlen|]].
  - unfold inFlight. etransitivity; [apply filter_length_le|exact Hlen].
  - destruct Hinv as (_ & H).
    destruct (lanes s) as [|l [|l' ls]]; [| |destruct l; contradiction].
    + destruct H as (-> & _). split; [discriminate|congruence].
    + assert (Hcp : currentlyProcessing s = true) by (destruct l; tauto).
      rewrite Hcp. split; [discriminate|reflexivity].
Qed.

Lemma prompts_app (t t' : list QueueEvent) :
  prompts (t ++ t') = (prompts t ++ prompts t')%list.
Proof. unfold prompts. now rewrite flat_map_app. Qed.

Lemma nextRequest_fields s :
  nextPromise (fst (nextRequest s)) = nextPromise s /\
  lanes (fst (nextRequest s)) = lanes s /\
  processingQueue (fst (nextRequest s)) = tl (processingQueue s) /\
  (snd (nextRequest s) = None <-> processingQueue s = []) /\
  systemRole (fst (nextRequest s)) = systemRole s /\
  exists new,
    trace (fst (nextRequest s)) = (trace s ++ new)%list /\
    promptsUse (systemRole s) new.
Proof.
  pose proof (nextRequest_spec s) as Hspec.
  destruct (processingQueue s) as [|r rest] eqn:Hqueue.
  - rewrite Hspec. simpl. repeat split; try assumption.
    exists []. split; [now rewrite app_nil_r|constructor].
  - destruct Hspec as (s2 & lane & E & Hq & _ & Hn & Hl & Hr & _ & _ & _ & Hcase).
    rewrite E. simpl. repeat split; try assumption; try discriminate.
    destruct Hcase as [(_ & _ & Htr & _)|(d & _ & _ & Htr & _)]; rewrite Htr;
      eexists; (split; [reflexivity|]); unfold promptsUse; simpl.
    + constructor.
    + constructor; [|constructor]. now eexists.
Qed.

Lemma promptSettles_single s r o chat text :
  lanes s = [AwaitPrompt r o chat text] ->
  promptSettles 0 s =
    with_lanes
      [AwaitMessage r
         (fst (processMessage_end o (fst (prompt chat text (world s)))
                 (with_world (snd (prompt chat text (world s))) s)))]
      (snd (processMessage_end o (fst (prompt chat text (world s)))
              (with_world (snd (prompt chat text (world s))) s))).
Proof.
  intros Hl. unfold promptSettles. rewrite Hl. simpl.
  destruct (prompt chat text (world s)) as [answer w]. simpl.
  pose proof (processMessage_end_frame (with_world w s) o answer) as Hf.
  destruct (processMessage_end o answer (with_world w s)) as [outcome s1].
  simpl in *. destruct Hf as (_ & _ & _ & _ & _ & _ & Hl1 & _).
  now rewrite Hl1, Hl.
Qed.

Lemma resume_single s r out :
  lanes s = [AwaitMessage r out] ->
  resume 0 s =
    let s1 := emit (match out with
                    | Ok response => Resolved (Request.promise r) response
                    | Err e => Rejected (Request.promise r) e
                    end) s in
    with_lanes (match snd (nextRequest s1) with
                | Some lane => [lane]
                | None => []
                end) (fst (nextRequest s1)).
Proof.
  intros Hl. unfold resume. rewrite Hl. simpl.
  set (s1 := emit _ s).
  pose proof (nextRequest_fields s1) as (_ & Hl1 & _).
  destruct (nextRequest s1) as [s2 [lane|]]; simpl in *;
    rewrite Hl1; subst s1; simpl; now rewrite Hl.
Qed.






(** ** The system role *)








(** ** Failures while a request is processed *)

Lemma JsMap_get_updateObject (k : string) (d : SessionData)
  (f : SessionData -> SessionData) (m : JsMap.t SessionData) :
  JsMap.get k m = Some d ->
  JsMap.get k (updateObject (oid d) f m) = Some (f d).
Proof.
  induction m as [|[k0 d0] m IH]; simpl; [discriminate|].
  destruct (String.eqb k k0) eqn:E.
  - intros H. inversion H; subst d0. rewrite Nat.eqb_refl. simpl. now rewrite E.
  - intros H. destruct (oid d0 =? oid d); simpl; rewrite E; now apply IH.
Qed.

Lemma resume_trace s r out :
  lanes s = [AwaitMessage r out] ->
  exists tail,
    trace (resume 0 s) =
      (trace s ++
       match out with
       | Ok response => Resolved (Request.promise r) response
       | Err e => Rejected (Request.promise r) e
       end :: tail)%list.
Proof.
  intros Hl. rewrite (resume_single s r out Hl). simpl.
  set (s1 := emit _ s).
  pose proof (nextRequest_fields s1) as (_ & _ & _ & _ & _ & new & Htr & _).
  exists new. rewrite Htr. subst s1. simpl. now rewrite <- app_assoc.
Qed.

Lemma nextRequest_congr s s' :
  processingQueue s' = processingQueue s ->
  sessions s' = sessions s ->
  world s' = world s ->
  systemRole s' = systemRole s ->
  snd (nextRequest s') = snd (nextRequest s) /\
  sessions (fst (nextRequest s')) = sessions (fst (nextRequest s)) /\
  world (fst (nextRequest s')) = world (fst (nextRequest s)) /\
  processingQueue (fst (nextRequest s')) = processingQueue (fst (nextRequest s)).
Proof.
  intros Hq Hs Hw Hr. unfold nextRequest, processMessage_begin. simpl.
  rewrite Hq, Hs, Hw, Hr.
  destruct (processingQueue s) as [|r rest] eqn:E; simpl;
    [repeat split; congruence|].
  destruct (JsMap.get (Request.sessionId r) (sessions s)) as [d|]; simpl.
  - destruct (newDate (world s)) as [now w]. simpl. repeat split.
  - repeat split; congruence.
Qed.

(** What the loop does next does not depend on how the request before
    settled. *)
Lemma resume_whatever_outcome s r out out' :
  lanes s = [AwaitMessage r out] ->
  lanes (resume 0 s) = lanes (resume 0 (with_lanes [AwaitMessage r out'] s)) /\
  sessions (resume 0 s) = sessions (resume 0 (with_lanes [AwaitMessage r out'] s)) /\
  world (resume 0 s) = world (resume 0 (with_lanes [AwaitMessage r out'] s)) /\
  processingQueue (resume 0 s) =
    processingQueue (resume 0 (with_lanes [AwaitMessage r out'] s)).
Proof.
  intros Hl.
  rewrite (resume_single s r out Hl).
  rewrite (resume_single (with_lanes [AwaitMessage r out'] s) r out' eq_refl).
  cbv zeta.
  set (a := emit _ s). set (b := emit _ (with_lanes _ s)).
  destruct (nextRequest_congr a b eq_refl eq_refl eq_refl eq_refl)
    as (H1 & H2 & H3 & H4).
  simpl. now rewrite H1, H2, H3, H4.
Qed.

(** C4.  An activation is about to go on ([r0] has settled) and the queue
    holds [r1], whose session is no longer in the store, then [r2], whose
    session is live.  Taking [r1] changes neither the store nor the world
    and hands nothing to the engine; [r1] is rejected with the not-found
    error.  The loop goes on: [r2] is taken, handed to the engine and, the
    engine answering, resolved with the trimmed answer.  In any state, what
    the loop does after a request does not depend on how that request
    settled. *)
Theorem deleted_session_fails_alone :
  forall s (r0 : Request.t) (out0 : Result string) (r1 r2 : Request.t)
         (rest : list Request.t) (d2 : SessionData) (now : Z) (w1 : W)
         (raw : string) (w2 : W),
    lanes s = [AwaitMessage r0 out0] ->
    processingQueue s = r1 :: r2 :: rest ->
    JsMap.has (Request.sessionId r1) (sessions s) = false ->
    JsMap.get (Request.sessionId r2) (sessions s) = Some d2 ->
    newDate (world s) = (now, w1) ->
    prompt (session d2)
      (reinforcedMessage (systemRole s) (Request.message r2)) w1 = (Ok raw, w2) ->
    let notFound := notFoundError (Request.sessionId r1) in
    let text := reinforcedMessage (systemRole s) (Request.message r2) in
    let s1 := resume 0 s in
    let s2 := resume 0 s1 in
    let s3 := resume 0 (promptSettles 0 s2) in
    lanes s1 = [AwaitMessage r1 (Err notFound)] /\
    sessions s1 = sessions s /\ world s1 = world s /\
    prompts (trace s1) = prompts (trace s) /\
    trace s2 =
      (trace s1 ++
       [Rejected (Request.promise r1) notFound;
        Shifted (Request.promise r2);
        Prompted (Request.promise r2) (Request.sessionId r2) text])%list /\
    lanes s2 = [AwaitPrompt r2 (oid d2) (session d2) text] /\
    (exists tail,
       trace s3 =
         (trace s2 ++ Resolved (Request.promise r2) (trim raw) :: tail)%list) /\
    (forall q (r : Request.t) (out out' : Result string),
       lanes q = [AwaitMessage r out] ->
       lanes (resume 0 q) = lanes (resume 0 (with_lanes [AwaitMessage r out'] q)) /\
       sessions (resume 0 q) =
         sessions (resume 0 (with_lanes [AwaitMessage r out'] q)) /\
       world (resume 0 q) = world (resume 0 (with_lanes [AwaitMessage r out'] q)) /\
       processingQueue (resume 0 q) =
         processingQueue (resume 0 (with_lanes [AwaitMessage r out'] q))).
Proof.
  intros s r0 out0 r1 r2 rest d2 now w1 raw w2 Hl Hq Hgone Hlive Hnow Hprompt
         notFound text s1 s2 s3.
  (* r0 settles, r1 is taken *)
  set (ev0 := match out0 with
              | Ok response => Resolved (Request.promise r0) response
              | Err e => Rejected (Request.promise r0) e
              end).
  assert (E1 : s1 = with_lanes
                      (match snd (nextRequest (emit ev0 s)) with
                       | Some lane => [lane]
                       | None => []
                       end) (fst (nextRequest (emit ev0 s))))
    by (subst s1; now rewrite (resume_single s r0 out0 Hl)).
  pose proof (nextRequest_spec (emit ev0 s)) as Hspec1. simpl in Hspec1.
  rewrite Hq in Hspec1.
  destruct Hspec1 as (q1 & lane1 & En1 & Hq1 & _ & _ & _ & Hr1 & _ & _ & _ & Hcase1).
  unfold JsMap.has in Hgone.
  destruct Hcase1 as [(_ & -> & Htr1 & Hs1 & Hw1)|(d & Hd & _)];
    [|rewrite Hd in Hgone; discriminate].
  rewrite En1 in E1. simpl in E1.
  assert (Hlanes1 : lanes s1 = [AwaitMessage r1 (Err notFound)])
    by (rewrite E1; reflexivity).
  assert (Hsess1 : sessions s1 = sessions s) by (rewrite E1; exact Hs1).
  assert (Hworld1 : world s1 = world s) by (rewrite E1; exact Hw1).
  assert (Hrole1 : systemRole s1 = systemRole s) by (rewrite E1; exact Hr1).
  assert (Hqueue1 : processingQueue s1 = r2 :: rest) by (rewrite E1; exact Hq1).
  assert (Htrace1 : trace s1 = (trace s ++ [ev0; Shifted (Request.promise r1)])%list).
  { rewrite E1. simpl. rewrite Htr1. simpl. now rewrite <- app_assoc. }
  (* r1 is rejected, r2 is taken *)
  set (ev1 := Rejected (Request.promise r1) notFound).
  assert (E2 : s2 = with_lanes
                      (match snd (nextRequest (emit ev1 s1)) with
                       | Some lane => [lane]
                       | None => []
                       end) (fst (nextRequest (emit ev1 s1))))
    by (subst s2; now rewrite (resume_single s1 r1 _ Hlanes1)).
  pose proof (nextRequest_spec (emit ev1 s1)) as Hspec2. simpl in Hspec2.
  rewrite Hqueue1, Hsess1, Hworld1, Hrole1, Hlive, Hnow in Hspec2.
  destruct Hspec2 as (q2 & lane2 & En2 & Hq2 & _ & _ & _ & _ & _ & _ & _ & Hcase2).
  destruct Hcase2 as [(Habs & _)|(d & Hd & -> & Htr2 & Hw2 & _)];
    [discriminate|].
  inversion Hd; subst d. simpl in Hw2.
  rewrite En2 in E2. simpl in E2.
  assert (Hlanes2 : lanes s2 = [AwaitPrompt r2 (oid d2) (session d2) text])
    by (rewrite E2; reflexivity).
  assert (Hworld2 : world s2 = w1) by (rewrite E2; exact Hw2).
  assert (Htrace2 : trace s2 =
            (trace s1 ++ [ev1; Shifted (Request.promise r2);
                          Prompted (Request.promise r2) (Request.sessionId r2) text])%list).
  { rewrite E2. simpl. rewrite Htr2. now rewrite <- app_assoc. }
  (* the engine answers, r2 is resolved *)
  pose proof (promptSettles_single s2 r2 _ _ _ Hlanes2) as E3.
  rewrite Hworld2 in E3. fold text in Hprompt. rewrite Hprompt in E3.
  simpl in E3.
  destruct (newDate w2) as [t1 w3]. destruct (newDate w3) as [t2 w4].
  simpl in E3.
  assert (Hlanes3 : lanes (promptSettles 0 s2) = [AwaitMessage r2 (Ok (trim raw))])
    by (rewrite E3; reflexivity).
  assert (Htrace3 : trace (promptSettles 0 s2) = trace s2)
    by (rewrite E3; reflexivity).
  destruct (resume_trace _ r2 _ Hlanes3) as (tail & Htail).
  split; [exact Hlanes1|]. split; [exact Hsess1|]. split; [exact Hworld1|].
  split.
  { rewrite Htrace1, prompts_app. subst ev0. destruct out0; simpl;
      now rewrite app_nil_r. }
  split; [exact Htrace2|]. split; [exact Hlanes2|]. split.
  { exists tail. subst s3. rewrite Htail, Htrace3. reflexivity. }
  intros q r out out' Hq'. exact (resume_whatever_outcome q r out out' Hq').
Qed.

(** C10.  The session is live and the engine call of the turn fails with
    [e].  [_processMessage] throws ["Failed to process message: " ++ e];
    the session's history has grown by the user entry alone and its
    [lastActivity] is what it was.  In the event loop, the activation
    suspended on that call keeps the store as it is when the call fails,
    and, resuming, rejects the caller's promise with that error. *)
Theorem engine_failure_leaves_user_entry :
  forall s (sid msg : string) (d : SessionData) (now : Z) (w : W)
         (e : string) (w' : W),
    JsMap.get sid (sessions s) = Some d ->
    newDate (world s) = (now, w) ->
    prompt (session d) (reinforcedMessage (systemRole s) msg) w = (Err e, w') ->
    let entry := {| role := user; content := msg; timestamp := now |} in
    let failure := "Failed to process message: " ++ e in
    fst (_processMessage sid msg s) = Err failure /\
    JsMap.get sid (sessions (snd (_processMessage sid msg s))) =
      Some (pushHistory entry d) /\
    history (pushHistory entry d) = (history d ++ [entry])%list /\
    lastActivity (pushHistory entry d) = lastActivity d /\
    (forall q (r : Request.t),
       lanes q = [AwaitPrompt r (oid d) (session d)
                    (reinforcedMessage (systemRole s) msg)] ->
       world q = w ->
       lanes (promptSettles 0 q) = [AwaitMessage r (Err failure)] /\
       sessions (promptSettles 0 q) = sessions q /\
       exists tail,
         trace (resume 0 (promptSettles 0 q)) =
           (trace q ++ Rejected (Request.promise r) failure :: tail)%list).
Proof.
  intros s sid msg d now w e w' Hget Hnow Hfail entry failure.
  split; [|split; [|split; [reflexivity|split; [reflexivity|]]]].
  - unfold _processMessage, processMessage_begin. rewrite Hget, Hnow. simpl.
    now rewrite Hfail.
  - unfold _processMessage, processMessage_begin. rewrite Hget, Hnow. simpl.
    rewrite Hfail. simpl. now apply JsMap_get_updateObject.
  - intros q r Hl Hw.
    pose proof (promptSettles_single q r _ _ _ Hl) as E.
    rewrite Hw, Hfail in E. simpl in E.
    assert (Hl' : lanes (promptSettles 0 q) = [AwaitMessage r (Err failure)])
      by (rewrite E; reflexivity).
    split; [exact Hl'|]. split; [rewrite E; reflexivity|].
    destruct (resume_trace _ r _ Hl') as (tail & Htail).
    exists tail. rewrite Htail, E. reflexivity.
Qed.


End Queue.

(** ** The store keeps one entry per key *)

Section Reachable.

Context {W : Type} {RT : Runtime W}.

Implicit Types s : @State W.

Lemma nodup_snoc (l : list string) (x : string) :
  NoDup l -> ~ In x l -> NoDup (l ++ [x]).
Proof.
  induction l as [|y l IH]; simpl; intros Hnd Hx.
  - constructor; [tauto|constructor].
  - inversion Hnd as [|? ? Hy Hnd']; subst. constructor.
    + rewrite in_app_iff. simpl. intros [H|[H|[]]]; [tauto|].
      apply Hx. now left.
    + apply IH; tauto.
Qed.

Lemma createSession_StoreInv s o : StoreInv s -> StoreInv (snd (createSession o s)).
Proof.
  intros Hinv. unfold StoreInv in *.
  destruct (createSession o s) as [[r|e] s'] eqn:E.
  - apply createSession_ok_inv in E.
    destruct E as (_ & _ & Hfresh & w0 & ctx & w1 & sq & w2 & c & w3 & a & w4 & E).
    destruct E as (_ & _ & _ & _ & _ & ->). simpl.
    rewrite (JsMap_set_fresh _ _ _ _ Hfresh). unfold JsMap.keys.
    rewrite map_app. simpl. apply nodup_snoc; [exact Hinv|].
    intros Hin. apply JsMap_has_keys in Hin. congruence.
  - pose proof (createSession_err_sessions s o e) as H.
    rewrite E in H. simpl in *. now rewrite H.
Qed.

Lemma deleteSession_StoreInv s id : StoreInv s -> StoreInv (snd (deleteSession id s)).
Proof.
  intros Hinv. unfold StoreInv, deleteSession in *.
  split_matches; simpl; try exact Hinv; now apply JsMap_nodup_delete.
Qed.

Lemma cleanupLoop_StoreInv ids : forall s,
  StoreInv s -> StoreInv (snd (cleanupLoop ids s)).
Proof.
  induction ids as [|id ids IH]; intros s Hinv; simpl; [exact Hinv|].
  pose proof (deleteSession_StoreInv s id Hinv) as H1.
  destruct (deleteSession id s) as [r s1]. simpl in H1.
  specialize (IH s1 H1). now destruct (cleanupLoop ids s1).
Qed.

Lemma nextRequest_keys s :
  JsMap.keys (sessions (fst (nextRequest s))) = JsMap.keys (sessions s).
Proof.
  pose proof (nextRequest_spec s) as Hspec.
  destruct (processingQueue s) as [|r rest].
  - now rewrite Hspec.
  - destruct Hspec as (s2 & lane & E & _ & _ & _ & _ & _ & _ & _ & Hk & _).
    now rewrite E.
Qed.

Lemma sendMessage_keys s sid msg :
  JsMap.keys (sessions (snd (sendMessage sid msg s))) = JsMap.keys (sessions s).
Proof.
  unfold sendMessage. destruct (JsMap.has sid (sessions s)); [|reflexivity].
  simpl. destruct (enqueue_fields s sid msg)
    as (now & w & _ & _ & _ & _ & _ & _ & _ & Hs & _).
  rewrite <- Hs. unfold _processQueue.
  destruct (currentlyProcessing (enqueue sid msg s)
            || (length (processingQueue (enqueue sid msg s)) =? 0));
    [reflexivity|].
  pose proof (nextRequest_keys (with_currentlyProcessing true (enqueue sid msg s)))
    as Hk.
  now destruct (nextRequest (with_currentlyProcessing true (enqueue sid msg s)))
    as [s1 [lane|]].
Qed.

Lemma exec_StoreInv (e : Event) s : StoreInv s -> StoreInv (exec e s).
Proof.
  intros Hinv.
  destruct e as [path|o|sid msg|sid v|sid|v|age|i|i]; simpl.
  - unfold initialize. split_matches; exact Hinv.
  - now apply createSession_StoreInv.
  - unfold StoreInv. now rewrite sendMessage_keys.
  - destruct (postMessage_state s sid v) as [->| ->]; [exact Hinv|].
    unfold StoreInv. now rewrite sendMessage_keys.
  - now apply deleteSession_StoreInv.
  - unfold updateSystemRole. split_matches; exact Hinv.
  - unfold cleanupInactiveSessions. destruct (newDate (world s)) as [now w].
    simpl. now apply cleanupLoop_StoreInv.
  - unfold promptSettles.
    destruct (nth_error (lanes s) i) as [[r o chat text|r out]|]; try exact Hinv.
    destruct (prompt chat text (world s)) as [answer w].
    pose proof (processMessage_end_frame (with_world w s) o answer) as Hf.
    destruct (processMessage_end o answer (with_world w s)) as [outcome s1].
    simpl in *. destruct Hf as (_ & _ & _ & _ & _ & _ & _ & _ & Hk).
    unfold StoreInv in *. simpl. now rewrite Hk.
  - unfold resume.
    destruct (nth_error (lanes s) i) as [[r o chat text|r out]|]; try exact Hinv.
    set (ev := match out with
               | Ok response => Resolved (Request.promise r) response
               | Err e => Rejected (Request.promise r) e
               end).
    pose proof (nextRequest_keys (emit ev s)) as Hk.
    unfold StoreInv in *.
    destruct (nextRequest (emit ev s)) as [s1 [lane|]]; simpl in *;
      now rewrite Hk.
Qed.

Lemma reachable_StoreInv (role : option string) (w : W) (events : list Event) :
  StoreInv (run events (constructor role w)).
Proof.
  assert (H : forall s, StoreInv s -> StoreInv (run events s)).
  { induction events as [|e events IH]; intros s Hinv; [exact Hinv|].
    simpl. apply IH. now apply exec_StoreInv. }
  apply H. constructor.
Qed.

End Reachable.

(** ** The definitions at work *)

(** The scenario of the specification: create ["s1"], submit ["hello"], the
    turn is appended to the history, delete ["s1"], and a later submission
    to ["s1"] throws the not-found error. *)
Example scenario :
  let s0 := Scripted.started Scripted.quiet in
  let s1 := run [CallCreateSession (Some "s1"); CallSendMessage "s1" "hello";
                 PromptSettles 0; Resume 0] s0 in
  let s2 := snd (deleteSession "s1" s1) in
  map (fun e => (role e, content e))
    (match getHistory "s1" s1 with Ok h => h | Err _ => [] end) =
    [(user, "hello");
     (assistant, reinforcedMessage "You are a helpful assistant." "hello")] /\
  fst (sendMessage "s1" "again" s2) = Err "Session s1 not found".
Proof. vm_compute. split; reflexivity. Qed.

(** Three requests from two sessions, submitted while the engine is busy
    with the first: they are handed to the engine and settled in the order
    of submission, and the flag drops when the queue is empty. *)
Example fifo_across_sessions :
  let s := run ([CallInitialize "model.gguf";
                 CallCreateSession (Some "a"); CallCreateSession (Some "b");
                 CallSendMessage "a" "one"; CallSendMessage "b" "two";
                 CallSendMessage "a" "three"] ++ drain 3)
             (constructor None Scripted.quiet) in
  prompts (trace s) =
    [reinforcedMessage "You are a helpful assistant." "one";
     reinforcedMessage "You are a helpful assistant." "two";
     reinforcedMessage "You are a helpful assistant." "three"] /\
  settled (trace s) = [0; 1; 2] /\
  currentlyProcessing s = false /\
  map (fun e => content e)
    (match getHistory "a" s with Ok h => h | Err _ => [] end) =
    ["one"; reinforcedMessage "You are a helpful assistant." "one";
     "three"; reinforcedMessage "You are a helpful assistant." "three"].
Proof. vm_compute. repeat split. Qed.

(** A request that was in the queue when the role changed is handed to the
    engine with the new role. *)
Example queued_request_reads_new_role :
  prompts (trace (run [CallUpdateSystemRole (JsString "Be brief.");
                       PromptSettles 0; Resume 0] Scripted.pending)) =
    [reinforcedMessage "You are a helpful assistant." "one";
     reinforcedMessage "Be brief." "two"].
Proof. vm_compute. reflexivity. Qed.

(** C2 fails as stated: the session ["s1"] is live, its context cannot be
    released, [deleteSession] throws and ["s1"] is still in the store. *)
Lemma deleteSession_keeps_unreleasable :
  JsMap.has "s1" (sessions Scripted.stuck) = true /\
  fst (deleteSession "s1" Scripted.stuck) =
    Err "Failed to delete session: context is busy" /\
  JsMap.has "s1" (sessions (snd (deleteSession "s1" Scripted.stuck))) = true.
Proof. vm_compute. repeat split. Qed.

Lemma deleteSession_live_session_witness :
  JsMap.has "s1" (sessions (snd (deleteSession "s1" Scripted.stuck))) = true /\
  JsMap.has "s3" (sessions (snd (deleteSession "s3" Scripted.full))) = false.
Proof.
  split.
  - assert (H := deleteSession_live_session Scripted.stuck "s1").
    vm_compute in H. specialize (H _ eq_refl).
    vm_compute in H. vm_compute. exact (proj2 (proj2 H)).
  - assert (H := deleteSession_live_session Scripted.full "s3").
    vm_compute in H. specialize (H _ eq_refl).
    vm_compute in H. vm_compute. exact (proj1 (proj2 H)).
Defined.

Lemma full_StoreInv : StoreInv Scripted.full.
Proof.
  unfold StoreInv. vm_compute.
  repeat (constructor; [simpl; intuition discriminate|]). constructor.
Qed.

Lemma createSession_capacity_witness :
  createSession (Some "s10") Scripted.full =
    (Err "Maximum concurrent sessions (10) reached", Scripted.full) /\
  fst (createSession (Some "s10") (snd (deleteSession "s3" Scripted.full))) =
    Ok "s10".
Proof.
  split.
  - assert (H := createSession_capacity (Scripted.started Scripted.quiet)
                   (Some "s10") eq_refl).
    destruct H as (_ & _ & H & _).
    specialize (H Scripted.ten eq_refl eq_refl eq_refl).
    vm_compute in H. vm_compute. exact H.
  - assert (H := createSession_capacity Scripted.full (Some "s10") eq_refl).
    destruct H as (_ & _ & _ & H).
    specialize (H "s3" _ full_StoreInv eq_refl eq_refl).
    destruct H as (_ & H).
    eapply H; reflexivity.
Defined.




(** C6 fails as stated, three times over.  In a full store a supplied id
    that is live gets the capacity error, not the duplicate-id error.  When
    the clock moves between the two readings, [createdAt] and
    [lastActivity] differ.  An empty string supplied as id is replaced by a
    generated one. *)
Lemma createSession_claim_fails :
  (JsMap.has "s0" (sessions Scripted.full) = true /\
   fst (createSession (Some "s0") Scripted.full) =
     Err "Maximum concurrent sessions (10) reached") /\
  (exists d,
     JsMap.get "generated" (sessions (snd (createSession None Scripted.ticking))) =
       Some d /\
     createdAt d = 1000%Z /\ lastActivity d = 1001%Z /\
     createdAt d <> lastActivity d) /\
  fst (createSession (Some "") Scripted.ticking) = Ok "generated".
Proof.
  split; [vm_compute; split; reflexivity|]. split; [|vm_compute; reflexivity].
  eexists. split; [vm_compute; reflexivity|]. simpl.
  repeat split. discriminate.
Qed.

Lemma createSession_result_witness :
  (exists d,
     sessions (snd (createSession (Some "s1") (Scripted.started Scripted.quiet))) =
       [("s1", d)] /\
     history d = [] /\ context d <> None) /\
  createSession (Some "s1") Scripted.stuck =
    (Err "Session s1 already exists", Scripted.stuck).
Proof.
  split.
  - assert (H := createSession_result (Scripted.started Scripted.quiet)
                   (Some "s1") "s1" Scripted.quiet eq_refl).
    assert (Hlt : JsMap.size (sessions (Scripted.started Scripted.quiet)) <
                  maxConcurrentSessions (Scripted.started Scripted.quiet))
      by (vm_compute; lia).
    specialize (H Hlt eq_refl). destruct H as (_ & _ & H).
    assert (E : createSession (Some "s1") (Scripted.started Scripted.quiet) =
                (Ok "s1",
                 snd (createSession (Some "s1") (Scripted.started Scripted.quiet))))
      by (vm_compute; reflexivity).
    specialize (H _ _ E).
    destruct H as (_ & _ & ctx & w1 & sq & w2 & c & w3 & a & w4 & _ & _ & _ & _ & H).
    eexists. split; [exact H|]. split; [reflexivity|discriminate].
  - assert (H := createSession_result Scripted.stuck (Some "s1") "s1"
                   (world Scripted.stuck) eq_refl).
    assert (Hlt : JsMap.size (sessions Scripted.stuck) <
                  maxConcurrentSessions Scripted.stuck)
      by (vm_compute; lia).
    specialize (H Hlt eq_refl). destruct H as (_ & H & _).
    specialize (H eq_refl). destruct H as (H & _).
    vm_compute in H. vm_compute. exact H.
Defined.



Lemma deleted_session_fails_alone_witness :
  JsMap.has "a" (sessions Scripted.waiting) = false /\
  JsMap.has "b" (sessions Scripted.waiting) = true /\
  settled (trace Scripted.waiting) = [] /\
  exists tail,
    trace (resume 0 (promptSettles 0 (resume 0 (resume 0 Scripted.waiting)))) =
      (trace Scripted.waiting ++
       [Resolved 0 (reinforcedMessage "You are a helpful assistant." "one");
        Shifted 1; Rejected 1 "Session a not found";
        Shifted 2;
        Prompted 2 "b" (reinforcedMessage "You are a helpful assistant." "three");
        Resolved 2 (reinforcedMessage "You are a helpful assistant." "three")] ++
       tail)%list.
Proof.
  split; [vm_compute; reflexivity|]. split; [vm_compute; reflexivity|].
  split; [vm_compute; reflexivity|].
  assert (H := deleted_session_fails_alone Scripted.waiting).
  vm_compute in H.
  specialize (H _ _ _ _ _ _ _ _ _ _ eq_refl eq_refl eq_refl eq_refl eq_refl eq_refl).
  destruct H as (_ & _ & _ & _ & _ & _ & (tail & H) & _).
  exists tail. vm_compute in H. vm_compute. exact H.
Defined.


Lemma engine_failure_leaves_user_entry_witness :
  fst (_processMessage "s1" "hello" Scripted.failing) =
    Err "Failed to process message: out of memory" /\
  (exists d,
     JsMap.get "s1" (sessions (snd (_processMessage "s1" "hello" Scripted.failing))) =
       Some d /\
     map (fun e => (role e, content e)) (history d) = [(user, "hello")] /\
     lastActivity d = 10%Z).
Proof.
  assert (H := engine_failure_leaves_user_entry Scripted.failing "s1" "hello").
  vm_compute in H. specialize (H _ _ _ _ _ eq_refl eq_refl eq_refl).
  destruct H as (H1 & H2 & _).
  split; [vm_compute; exact H1|].
  eexists. split; [vm_compute; exact H2|]. split; reflexivity.
Defined.

(** * More of the code *)

(** ** A turn that succeeds, and the life of a session *)

Section Turns.

Context {W : Type} {RT : Runtime W}.

Implicit Types s : @State W.

Lemma JsMap_get_In V (k : string) (v : V) (m : JsMap.t V) :
  JsMap.get k m = Some v -> In (k, v) m.
Proof.
  induction m as [|[k0 v0] m IH]; simpl; [discriminate|].
  destruct (String.eqb k k0) eqn:E.
  - apply String.eqb_eq in E. intros H. inversion H; subst. now left.
  - intros H. right. now apply IH.
Qed.

Lemma JsMap_delete_app_fresh V (k : string) (v : V) (m : JsMap.t V) :
  JsMap.has k m = false -> JsMap.delete k (m ++ [(k, v)])%list = m.
Proof.
  intros H. unfold JsMap.delete. rewrite filter_app. simpl.
  rewrite String.eqb_refl. simpl. rewrite app_nil_r.
  now apply JsMap_delete_absent.
Qed.


(** X2.  A session that has just been created is live with an empty
    history, and the sessions that were there are as they were.  Deleting
    it again gives back the store as it was before; from then on its id
    is unknown to [getHistory], [deleteSession] and [sendMessage], which
    throw the not-found error. *)
Theorem created_then_deleted :
  forall s (o : option string) (id : string) s1,
    createSession o s = (Ok id, s1) ->
    getHistory id s1 = Ok [] /\
    JsMap.size (sessions s1) = S (JsMap.size (sessions s)) /\
    (forall k d, JsMap.get k (sessions s) = Some d ->
                 JsMap.get k (sessions s1) = Some d) /\
    (forall s2,
       deleteSession id s1 = (Ok tt, s2) ->
       sessions s2 = sessions s /\
       getHistory id s2 = Err (notFoundError id) /\
       deleteSession id s2 = (Err (notFoundError id), s2) /\
       (forall m, sendMessage id m s2 = (Err (notFoundError id), s2))).
Proof.
  intros s o id s1 Hcreate.
  apply createSession_ok_inv in Hcreate.
  destruct Hcreate as (_ & _ & Hfresh & w0 & ctx & w1 & sq & w2 & c & w3 & a & w4 & H).
  destruct H as (_ & _ & _ & _ & _ & ->).
  set (data := {| oid := nextOid s;
                  session := {| contextSequence := sq; systemPrompt := systemRole s |};
                  context := Some ctx; history := []; createdAt := c;
                  lastActivity := a; systemRoleSet := true |}).
  assert (Hset : JsMap.set id data (sessions s) = (sessions s ++ [(id, data)])%list)
    by now apply JsMap_set_fresh.
  assert (Hnone : JsMap.get id (sessions s) = None).
  { unfold JsMap.has in Hfresh. now destruct (JsMap.get id (sessions s)). }
  split; [|split; [|split]].
  - unfold getHistory. simpl. rewrite Hset, JsMap_get_app_fresh, Hnone.
    now rewrite String.eqb_refl.
  - simpl. rewrite Hset. unfold JsMap.size. rewrite length_app. simpl. lia.
  - intros k d Hk. simpl. rewrite Hset, JsMap_get_app_fresh. now rewrite Hk.
  - intros s2 Hdel. apply deleteSession_ok_inv in Hdel.
    destruct Hdel as (_ & w & ->). simpl.
    rewrite Hset, (JsMap_delete_app_fresh _ _ _ _ Hfresh).
    split; [reflexivity|]. split; [|split].
    + unfold getHistory. simpl. now rewrite Hnone.
    + unfold deleteSession. simpl. now rewrite Hnone.
    + intros m. unfold sendMessage. simpl. now rewrite Hfresh.
Qed.

(** X3.  While no call of [initialize] has been made, nothing is served:
    every [createSession] throws the not-initialized error, the store and
    the queue stay empty, and every [sendMessage] throws the not-found
    error. *)
Theorem nothing_before_initialize :
  forall (role : option string) (w : W) (events : list Event),
    forallb (fun e => negb (isInitialize e)) events = true ->
    let s := run events (constructor role w) in
    isInitialized s = false /\
    sessions s = [] /\ processingQueue s = [] /\ lanes s = [] /\ trace s = [] /\
    (forall o, createSession o s = (Err notInitializedError, s)) /\
    (forall sid m, sendMessage sid m s = (Err (notFoundError sid), s)).
Proof.
  intros role w events Hall.
  assert (Hgen : forall s0 : @State W,
            isInitialized s0 = false -> sessions s0 = [] ->
            processingQueue s0 = [] -> lanes s0 = [] -> trace s0 = [] ->
            isInitialized (run events s0) = false /\
            sessions (run events s0) = [] /\
            processingQueue (run events s0) = [] /\
            lanes (run events s0) = [] /\ trace (run events s0) = []).
  { induction events as [|e events IH]; intros s0 Hi Hs Hq Hl Ht; simpl.
    - now repeat split.
    - simpl in Hall. apply andb_true_iff in Hall. destruct Hall as (He & Hall).
      assert (Hstep : isInitialized (exec e s0) = false /\
                      sessions (exec e s0) = [] /\
                      processingQueue (exec e s0) = [] /\
                      lanes (exec e s0) = [] /\ trace (exec e s0) = []).
      { destruct e as [path|o|sid msg|sid v|sid|v|age|i|i]; simpl in *.
        - discriminate.
        - unfold createSession. rewrite Hi. simpl. now repeat split.
        - unfold sendMessage, JsMap.has. rewrite Hs. simpl. now repeat split.
        - unfold postMessage, sendMessage, JsMap.has. rewrite Hs. simpl.
          destruct (negb (truthy v) || negb (typeof_string v)); simpl;
            now repeat split.
        - unfold deleteSession. rewrite Hs. simpl. now repeat split.
        - unfold updateSystemRole.
          destruct (negb (truthy v) || negb (typeof_string v)); simpl;
            now repeat split.
        - unfold cleanupInactiveSessions, sessionsToDelete.
          destruct (newDate (world s0)) as [now w']. rewrite Hs. simpl.
          now repeat split.
        - unfold promptSettles. rewrite Hl. destruct i; simpl; now repeat split.
        - unfold resume. rewrite Hl. destruct i; simpl; now repeat split. }
      destruct Hstep as (H1 & H2 & H3 & H4 & H5). now apply IH. }
  destruct (Hgen (constructor role w)) as (H1 & H2 & H3 & H4 & H5);
    try reflexivity.
  cbv zeta. repeat split; try assumption.
  - intros o. unfold createSession. now rewrite H1.
  - intros sid m. unfold sendMessage, JsMap.has. now rewrite H2.
Qed.

End Turns.

(** ** What every step does to the store *)

Section StoreAlong.

Context {W : Type} {RT : Runtime W}.

Implicit Types s : @State W.

Lemma grownFrom_refl (d : SessionData) : grownFrom d d.
Proof.
  unfold grownFrom. repeat split. exists []. now rewrite app_nil_r.
Qed.

Lemma grownFrom_trans (a b c : SessionData) :
  grownFrom a b -> grownFrom b c -> grownFrom a c.
Proof.
  intros (Ho & (m1 & Hh) & Hc & Hx & Hs) (Ho' & (m2 & Hh') & Hc' & Hx' & Hs').
  unfold grownFrom. repeat split; try congruence.
  exists (m1 ++ m2)%list. now rewrite Hh', Hh, app_assoc.
Qed.

Lemma grownFrom_pushHistory (entry : HistoryEntry) (d : SessionData) :
  grownFrom d (pushHistory entry d).
Proof. unfold grownFrom. simpl. repeat split. now exists [entry]. Qed.

Lemma grownFrom_setLastActivity (t : Z) (d : SessionData) :
  grownFrom d (setLastActivity t d).
Proof.
  unfold grownFrom. simpl. repeat split. exists []. now rewrite app_nil_r.
Qed.

Lemma StoreStep_refl (m : JsMap.t SessionData) (n : nat) : StoreStep m n m n.
Proof.
  split; [lia|]. intros e He. left. exists e.
  split; [exact He|]. split; [reflexivity|apply grownFrom_refl].
Qed.

Lemma StoreStep_trans (m1 m2 m3 : JsMap.t SessionData) (n1 n2 n3 : nat) :
  StoreStep m1 n1 m2 n2 -> StoreStep m2 n2 m3 n3 -> StoreStep m1 n1 m3 n3.
Proof.
  intros (Hn & H12) (Hn' & H23). split; [lia|].
  intros e3 He3. destruct (H23 e3 He3) as [(e2 & He2 & Hk & Hg)|Hnew]; [|right; lia].
  destruct (H12 e2 He2) as [(e1 & He1 & Hk' & Hg')|Hnew].
  - left. exists e1. split; [exact He1|]. split; [congruence|].
    eapply grownFrom_trans; eassumption.
  - right. destruct Hg as (Ho & _). rewrite Ho. lia.
Qed.

Lemma StoreStep_subset (m m' : JsMap.t SessionData) (n : nat) :
  (forall e, In e m' -> In e m) -> StoreStep m n m' n.
Proof.
  intros Hsub. split; [lia|]. intros e He. left. exists e.
  split; [now apply Hsub|]. split; [reflexivity|apply grownFrom_refl].
Qed.

Lemma StoreStep_update (o : nat) (f : SessionData -> SessionData)
  (m : JsMap.t SessionData) (n : nat) :
  (forall d, grownFrom d (f d)) -> StoreStep m n (updateObject o f m) n.
Proof.
  intros Hf. split; [lia|]. intros e' He'. left.
  unfold updateObject in He'. apply in_map_iff in He'.
  destruct He' as (e & <- & He). exists e. split; [exact He|].
  destruct (oid (snd e) =? o); simpl;
    (split; [reflexivity|]); [apply Hf|apply grownFrom_refl].
Qed.

Lemma createSession_StoreStep s o :
  StoreStep (sessions s) (nextOid s)
    (sessions (snd (createSession o s))) (nextOid (snd (createSession o s))).
Proof.
  destruct (createSession o s) as [[r|e] s'] eqn:E.
  - apply createSession_ok_inv in E.
    destruct E as (_ & _ & Hfresh & w0 & ctx & w1 & sq & w2 & c & w3 & a & w4 & E).
    destruct E as (_ & _ & _ & _ & _ & ->). simpl.
    rewrite (JsMap_set_fresh _ _ _ _ Hfresh). split; [lia|].
    intros e' He'. apply in_app_iff in He'. destruct He' as [He'|[<-|[]]].
    + left. exists e'. split; [exact He'|].
      split; [reflexivity|apply grownFrom_refl].
    + right. simpl. lia.
  - pose proof (createSession_err_sessions s o e) as Hs. rewrite E in Hs.
    simpl in *. rewrite Hs by reflexivity.
    assert (Hn : nextOid s' = nextOid s).
    { assert (H : nextOid (snd (createSession o s)) = nextOid s
                  \/ isOk (fst (createSession o s)) = true).
      { unfold createSession. split_matches; simpl; auto. }
      rewrite E in H. simpl in H. destruct H; [assumption|discriminate]. }
    rewrite Hn. apply StoreStep_refl.
Qed.

Lemma deleteSession_StoreStep s id :
  StoreStep (sessions s) (nextOid s)
    (sessions (snd (deleteSession id s))) (nextOid (snd (deleteSession id s))).
Proof.
  unfold deleteSession. split_matches; simpl; try apply StoreStep_refl.
  apply StoreStep_subset. intros e He. unfold JsMap.delete in He.
  now apply filter_In in He.
Qed.

Lemma cleanupLoop_StoreStep ids : forall s,
  StoreStep (sessions s) (nextOid s)
    (sessions (snd (cleanupLoop ids s))) (nextOid (snd (cleanupLoop ids s))).
Proof.
  induction ids as [|id ids IH]; intros s; simpl; [apply StoreStep_refl|].
  pose proof (deleteSession_StoreStep s id) as H1.
  destruct (deleteSession id s) as [r s1]. simpl in H1.
  specialize (IH s1). destruct (cleanupLoop ids s1) as [rs s2]. simpl in *.
  eapply StoreStep_trans; eassumption.
Qed.

Lemma nextRequest_StoreStep s :
  StoreStep (sessions s) (nextOid s)
    (sessions (fst (nextRequest s))) (nextOid (fst (nextRequest s))).
Proof.
  unfold nextRequest, processMessage_begin.
  destruct (processingQueue s) as [|r rest]; simpl; [apply StoreStep_refl|].
  destruct (JsMap.get (Request.sessionId r) (sessions s)) as [d|]; simpl;
    [|apply StoreStep_refl].
  destruct (newDate (world s)) as [now w]. simpl.
  apply StoreStep_update. intros x. apply grownFrom_pushHistory.
Qed.

Lemma processMessage_end_StoreStep s o answer :
  StoreStep (sessions s) (nextOid s)
    (sessions (snd (processMessage_end o answer s)))
    (nextOid (snd (processMessage_end o answer s))).
Proof.
  unfold processMessage_end. destruct answer as [raw|e]; [|apply StoreStep_refl].
  destruct (newDate (world s)) as [now w]. destruct (newDate w) as [t w'].
  simpl. eapply StoreStep_trans.
  - apply StoreStep_update. intros x. apply grownFrom_pushHistory.
  - apply StoreStep_update. intros x. apply grownFrom_setLastActivity.
Qed.

Lemma sendMessage_StoreStep s sid msg :
  StoreStep (sessions s) (nextOid s)
    (sessions (snd (sendMessage sid msg s))) (nextOid (snd (sendMessage sid msg s))).
Proof.
  unfold sendMessage. destruct (JsMap.has sid (sessions s)); simpl;
    [|apply StoreStep_refl].
  assert (Hs : sessions (enqueue sid msg s) = sessions s
               /\ nextOid (enqueue sid msg s) = nextOid s).
  { unfold enqueue. now destruct (newDate (world s)). }
  destruct Hs as (Hs & Hn). rewrite <- Hs, <- Hn.
  set (s1 := enqueue sid msg s). unfold _processQueue.
  destruct (currentlyProcessing s1 || (length (processingQueue s1) =? 0));
    [apply StoreStep_refl|].
  pose proof (nextRequest_StoreStep (with_currentlyProcessing true s1)) as H.
  destruct (nextRequest (with_currentlyProcessing true s1)) as [s2 [lane|]];
    exact H.
Qed.

(** Whatever happens, an entry of the store is an earlier entry grown, or
    a new object. *)
Lemma exec_StoreStep (e : Event) s :
  StoreStep (sessions s) (nextOid s) (sessions (exec e s)) (nextOid (exec e s)).
Proof.
  destruct e as [path|o|sid msg|sid v|sid|v|age|i|i]; simpl.
  - unfold initialize. split_matches; apply StoreStep_refl.
  - apply createSession_StoreStep.
  - apply sendMessage_StoreStep.
  - destruct (postMessage_state s sid v) as [->| ->];
      [apply StoreStep_refl|apply sendMessage_StoreStep].
  - apply deleteSession_StoreStep.
  - unfold updateSystemRole. split_matches; apply StoreStep_refl.
  - unfold cleanupInactiveSessions. destruct (newDate (world s)) as [now w].
    simpl. apply (cleanupLoop_StoreStep _ (with_world w s)).
  - unfold promptSettles.
    destruct (nth_error (lanes s) i) as [[r o chat text|r out]|];
      try apply StoreStep_refl.
    destruct (prompt chat text (world s)) as [answer w].
    pose proof (processMessage_end_StoreStep (with_world w s) o answer) as H.
    destruct (processMessage_end o answer (with_world w s)) as [outcome s1].
    exact H.
  - unfold resume.
    destruct (nth_error (lanes s) i) as [[r o chat text|r out]|];
      try apply StoreStep_refl.
    set (ev := match out with
               | Ok response => Resolved (Request.promise r) response
               | Err e => Rejected (Request.promise r) e
               end).
    pose proof (nextRequest_StoreStep (emit ev s)) as H.
    destruct (nextRequest (emit ev s)) as [s1 [lane|]]; exact H.
Qed.

Lemma run_StoreStep (events : list Event) : forall s,
  StoreStep (sessions s) (nextOid s)
    (sessions (run events s)) (nextOid (run events s)).
Proof.
  induction events as [|e events IH]; intros s; simpl; [apply StoreStep_refl|].
  eapply StoreStep_trans; [apply exec_StoreStep|apply IH].
Qed.

Lemma reachable_OidInv (role : option string) (w : W) (events : list Event) :
  OidInv (run events (constructor role w)).
Proof.
  destruct (run_StoreStep events (constructor role w)) as (_ & H).
  intros e He. destruct (H e He) as [(e0 & [] & _)|Hnew]. lia.
Qed.

(** X4.  Along any run, an object that stays in the store keeps its
    history: whatever the store holds later for the same object has the
    earlier history in front, and the same [createdAt] and context.  No
    operation removes or rewrites a history entry of a live session. *)
Theorem history_only_grows :
  forall (role : option string) (w : W) (before after : list Event)
         (id : string) (d d' : SessionData),
    let s := run before (constructor role w) in
    JsMap.get id (sessions s) = Some d ->
    JsMap.get id (sessions (run after s)) = Some d' ->
    oid d' = oid d ->
    (exists more, history d' = (history d ++ more)%list) /\
    createdAt d' = createdAt d /\ context d' = context d.
Proof.
  intros role w before after id d d' s Hd Hd' Ho.
  pose proof (reachable_OidInv role w before) as Hinv. fold s in Hinv.
  pose proof (reachable_StoreInv role w before) as Hnd. fold s in Hnd.
  destruct (run_StoreStep after s) as (_ & H).
  apply JsMap_get_In in Hd'.
  destruct (H _ Hd') as [([k d0] & He & Hk & Hg)|Hnew].
  - simpl in *. subst k.
    apply (JsMap_get_in _ id d0 _ Hnd) in He.
    rewrite Hd in He. inversion He; subst d0.
    destruct Hg as (_ & Hmore & Hc & Hx & _). now repeat split.
  - simpl in Hnew. apply JsMap_get_In in Hd.
    specialize (Hinv _ Hd). simpl in Hinv. lia.
Qed.

End StoreAlong.

(** ** The ceiling and the status *)

Section Ceiling.

Context {W : Type} {RT : Runtime W}.

Implicit Types s : @State W.

Lemma size_keys (m : JsMap.t SessionData) : JsMap.size m = length (JsMap.keys m).
Proof. unfold JsMap.size, JsMap.keys. now rewrite length_map. Qed.

Lemma deleteSession_size s id :
  JsMap.size (sessions (snd (deleteSession id s))) <= JsMap.size (sessions s) /\
  maxConcurrentSessions (snd (deleteSession id s)) = maxConcurrentSessions s.
Proof.
  unfold deleteSession. split_matches; simpl; split; try reflexivity.
  unfold JsMap.size, JsMap.delete. apply filter_length_le.
Qed.

Lemma cleanupLoop_size ids : forall s,
  JsMap.size (sessions (snd (cleanupLoop ids s))) <= JsMap.size (sessions s) /\
  maxConcurrentSessions (snd (cleanupLoop ids s)) = maxConcurrentSessions s.
Proof.
  induction ids as [|id ids IH]; intros s; simpl; [split; [lia|reflexivity]|].
  pose proof (deleteSession_size s id) as (H1 & H2).
  destruct (deleteSession id s) as [r s1]. simpl in *.
  specialize (IH s1). destruct (cleanupLoop ids s1) as [rs s2]. simpl in *.
  destruct IH as (H3 & H4). split; [lia|congruence].
Qed.

Lemma exec_ceiling (e : Event) s :
  JsMap.size (sessions s) <= maxConcurrentSessions s ->
  JsMap.size (sessions (exec e s)) <= maxConcurrentSessions (exec e s) /\
  maxConcurrentSessions (exec e s) = maxConcurrentSessions s.
Proof.
  intros Hle.
  destruct e as [path|o|sid msg|sid v|sid|v|age|i|i]; simpl.
  - unfold initialize. split_matches; simpl; now split.
  - pose proof (createSession_size s o) as Hsz.
    pose proof (createSession_frame s o) as (_ & Hm & _).
    destruct (createSession o s) as [[r|e] s'] eqn:E; simpl in *.
    + apply createSession_ok_inv in E. split; [lia|exact Hm].
    + split; [lia|exact Hm].
  - assert (Hm : maxConcurrentSessions (snd (sendMessage sid msg s)) =
                 maxConcurrentSessions s).
    { unfold sendMessage. destruct (JsMap.has sid (sessions s)); [|reflexivity].
      simpl. destruct (enqueue_fields s sid msg)
        as (now & w & _ & _ & _ & _ & _ & _ & _ & _ & _ & Hm & _).
      rewrite <- Hm. unfold _processQueue.
      destruct (currentlyProcessing (enqueue sid msg s)
                || (length (processingQueue (enqueue sid msg s)) =? 0));
        [reflexivity|].
      pose proof (nextRequest_spec
                    (with_currentlyProcessing true (enqueue sid msg s))) as Hs.
      destruct (processingQueue
                  (with_currentlyProcessing true (enqueue sid msg s))).
      - now rewrite Hs.
      - destruct Hs as (s2 & lane & E & _ & _ & _ & _ & _ & _ & Hm2 & _).
        now rewrite E. }
    rewrite Hm, size_keys, sendMessage_keys, <- size_keys. now split.
  - destruct (postMessage_state s sid v) as [->| ->]; [now split|].
    assert (Hm : maxConcurrentSessions (snd (sendMessage sid (asString v) s)) =
                 maxConcurrentSessions s).
    { unfold sendMessage. destruct (JsMap.has sid (sessions s)); [|reflexivity].
      simpl. destruct (enqueue_fields s sid (asString v))
        as (now & w & _ & _ & _ & _ & _ & _ & _ & _ & _ & Hm & _).
      rewrite <- Hm. unfold _processQueue.
      destruct (currentlyProcessing (enqueue sid (asString v) s)
                || (length (processingQueue (enqueue sid (asString v) s)) =? 0));
        [reflexivity|].
      pose proof (nextRequest_spec
                    (with_currentlyProcessing true (enqueue sid (asString v) s)))
        as Hs.
      destruct (processingQueue
                  (with_currentlyProcessing true (enqueue sid (asString v) s))).
      - now rewrite Hs.
      - destruct Hs as (s2 & lane & E & _ & _ & _ & _ & _ & _ & Hm2 & _).
        now rewrite E. }
    rewrite Hm, size_keys, sendMessage_keys, <- size_keys. now split.
  - pose proof (deleteSession_size s sid) as (H1 & H2). split; [lia|exact H2].
  - unfold updateSystemRole. split_matches; simpl; now split.
  - unfold cleanupInactiveSessions. destruct (newDate (world s)) as [now w].
    simpl. pose proof (cleanupLoop_size
                         (sessionsToDelete now
                            match age with Some m => m | None => 60%Q end
                            (sessions s)) (with_world w s)) as (H1 & H2).
    simpl in *. split; [lia|exact H2].
  - unfold promptSettles.
    destruct (nth_error (lanes s) i) as [[r o chat text|r out]|];
      try (now split).
    destruct (prompt chat text (world s)) as [answer w].
    pose proof (processMessage_end_frame (with_world w s) o answer) as Hf.
    destruct (processMessage_end o answer (with_world w s)) as [outcome s1].
    simpl in *. destruct Hf as (_ & Hm & _ & _ & _ & _ & _ & _ & Hk).
    rewrite size_keys, Hk, <- size_keys, Hm. now split.
  - unfold resume.
    destruct (nth_error (lanes s) i) as [[r o chat text|r out]|];
      try (now split).
    set (ev := match out with
               | Ok response => Resolved (Request.promise r) response
               | Err e => Rejected (Request.promise r) e
               end).
    pose proof (nextRequest_keys (emit ev s)) as Hk.
    pose proof (nextRequest_spec (emit ev s)) as Hs.
    assert (Hm : maxConcurrentSessions (fst (nextRequest (emit ev s))) =
                 maxConcurrentSessions s).
    { destruct (processingQueue (emit ev s)).
      - now rewrite Hs.
      - destruct Hs as (s2 & lane & E & _ & _ & _ & _ & _ & _ & Hm2 & _).
        now rewrite E. }
    destruct (nextRequest (emit ev s)) as [s1 [lane|]]; simpl in *;
      rewrite size_keys, Hk, <- size_keys, Hm; now split.
Qed.

(** X5.  As long as every call runs to its end before the next event, the
    store never holds more sessions than [maxConcurrentSessions], which
    stays 10, whatever the order of the calls, the engine settlements and
    the resumptions of the loop. *)
Theorem ceiling_holds_for_calls_in_sequence :
  forall (role : option string) (w : W) (events : list Event),
    let s := run events (constructor role w) in
    JsMap.size (sessions s) <= maxConcurrentSessions s /\
    maxConcurrentSessions s = 10.
Proof.
  intros role w events.
  assert (H : forall s0 : @State W,
            JsMap.size (sessions s0) <= maxConcurrentSessions s0 ->
            JsMap.size (sessions (run events s0)) <=
              maxConcurrentSessions (run events s0) /\
            maxConcurrentSessions (run events s0) = maxConcurrentSessions s0).
  { induction events as [|e events IH]; intros s0 Hle; simpl; [now split|].
    destruct (exec_ceiling e s0 Hle) as (H1 & H2).
    destruct (IH _ H1) as (H3 & H4). split; [exact H3|congruence]. }
  apply H. simpl. lia.
Qed.

(** X6.  What [GET /status] answers, in any state a run reaches: the list
    under [activeSessions] (it takes the place of the number
    [getQueueStatus] gives under that name, whose value is its length)
    names the live sessions in the order of their creation, each id once,
    with [messageCount] the length of what [getHistory] returns for it;
    and when [isProcessing] is false, [queueLength] is 0. *)
Theorem status_is_consistent :
  forall (role : option string) (w : W) (events : list Event),
    let s := run events (constructor role w) in
    status (getStatus s) = 200 /\
    body (getStatus s) =
      StatusOf (queueLength (getQueueStatus s)) (isProcessing (getQueueStatus s))
        (getActiveSessions s) (maxSessions (getQueueStatus s)) /\
    length (getActiveSessions s) = activeSessions (getQueueStatus s) /\
    map SessionInfo.id (getActiveSessions s) = JsMap.keys (sessions s) /\
    NoDup (map SessionInfo.id (getActiveSessions s)) /\
    (forall info, In info (getActiveSessions s) ->
       exists h, getHistory (SessionInfo.id info) s = Ok h /\
                 length h = SessionInfo.messageCount info) /\
    (isProcessing (getQueueStatus s) = false ->
     queueLength (getQueueStatus s) = 0).
Proof.
  intros role w events s.
  pose proof (reachable_StoreInv role w events) as Hnd. fold s in Hnd.
  assert (Hinv : QueueInv s) by apply run_QueueInv, initial_QueueInv.
  assert (Hids : map SessionInfo.id (getActiveSessions s) = JsMap.keys (sessions s)).
  { unfold getActiveSessions, JsMap.keys. rewrite map_map. reflexivity. }
  split; [reflexivity|]. split; [reflexivity|]. split.
  { unfold getActiveSessions. simpl. now rewrite length_map. }
  split; [exact Hids|]. split; [now rewrite Hids|]. split.
  - intros info Hin. unfold getActiveSessions in Hin. apply in_map_iff in Hin.
    destruct Hin as ([k d] & <- & Hin). simpl.
    apply (JsMap_get_in _ k d _ Hnd) in Hin.
    exists (history d). unfold getHistory. now rewrite Hin.
  - simpl. intros Hidle. destruct Hinv as (_ & H).
    destruct (lanes s) as [|l [|l' ls]]; [| |destruct l; contradiction].
    + destruct H as (_ & -> & _). reflexivity.
    + assert (Hcp : currentlyProcessing s = true) by (destruct l; tauto).
      congruence.
Qed.

End Ceiling.

(** ** Calls of [createSession] that overlap *)

Section Overlap.

Context {W : Type} {RT : Runtime W}.

Implicit Types s : @State W.

(** The two parts, one after the other, are the call run to its end. *)
Lemma createSession_in_two_steps s (o : option string) :
  createSession o s =
  match createSession_begin o s with
  | (Ok id, s1) => createSession_resume id s1
  | (Err e, s1) => (Err e, s1)
  end.
Proof.
  unfold createSession, createSession_begin, createSession_resume.
  destruct (negb (isInitialized s)); [reflexivity|].
  destruct (maxConcurrentSessions s <=? JsMap.size (sessions s)); [reflexivity|].
  destruct (chooseId o (world s)) as [id w0].
  destruct (JsMap.has id (sessions s)); reflexivity.
Qed.

Lemma createSession_begin_supplied s (a : string) :
  isInitialized s = true ->
  JsMap.size (sessions s) < maxConcurrentSessions s ->
  a <> "" ->
  JsMap.has a (sessions s) = false ->
  createSession_begin (Some a) s = (Ok a, with_world (world s) s).
Proof.
  intros Hi Hlt Ha Hfresh. unfold createSession_begin, chooseId.
  rewrite Hi. simpl. apply Nat.leb_gt in Hlt. rewrite Hlt.
  apply String.eqb_neq in Ha. now rewrite Ha, Hfresh.
Qed.

Lemma createSession_resume_ok s (id : string) :
  (forall w, isOk (fst (createContext w)) = true) ->
  (forall c w, isOk (fst (getSequence c w)) = true) ->
  exists data s',
    createSession_resume id s = (Ok id, s') /\
    sessions s' = JsMap.set id data (sessions s) /\
    oid data = nextOid s /\ history data = [] /\
    nextOid s' = S (nextOid s) /\
    maxConcurrentSessions s' = maxConcurrentSessions s /\
    isInitialized s' = isInitialized s.
Proof.
  intros Hctx Hseq. unfold createSession_resume.
  specialize (Hctx (world s)).
  destruct (createContext (world s)) as [[ctx|e] w1]; [|discriminate].
  specialize (Hseq ctx w1).
  destruct (getSequence ctx w1) as [[sq|e] w2]; [|discriminate].
  destruct (newDate w2) as [c w3]. destruct (newDate w3) as [a w4].
  eexists _, _. split; [reflexivity|]. simpl. now repeat split.
Qed.

Lemma JsMap_set_replaces_last V (k : string) (v v' : V) (m : JsMap.t V) :
  JsMap.has k m = false ->
  JsMap.set k v' (m ++ [(k, v)])%list = (m ++ [(k, v')])%list.
Proof.
  unfold JsMap.has. induction m as [|[k0 v0] m IH]; simpl.
  - now rewrite String.eqb_refl.
  - destruct (String.eqb k k0); [discriminate|]. intros H. now rewrite IH.
Qed.

Lemma JsMap_has_app_other V (k k' : string) (v : V) (m : JsMap.t V) :
  k' <> k -> JsMap.has k' (m ++ [(k, v)])%list = JsMap.has k' m.
Proof.
  intros Hne. unfold JsMap.has. rewrite JsMap_get_app_fresh.
  destruct (JsMap.get k' m); [reflexivity|].
  apply String.eqb_neq in Hne. now rewrite Hne.
Qed.

(** X7.  Two calls of [createSession] with different new ids that both
    pass the checks before either has stored its session both succeed; if
    one place was left, the store then holds one session more than
    [maxConcurrentSessions].  Run one after the other, the second call
    gets the capacity error. *)
Theorem overlapping_creates_exceed_ceiling :
  forall s (a b : string),
    isInitialized s = true ->
    S (JsMap.size (sessions s)) = maxConcurrentSessions s ->
    a <> "" -> b <> "" -> a <> b ->
    JsMap.has a (sessions s) = false ->
    JsMap.has b (sessions s) = false ->
    (forall w, isOk (fst (createContext w)) = true) ->
    (forall c w, isOk (fst (getSequence c w)) = true) ->
    let s1 := snd (createSession_begin (Some a) s) in
    let s2 := snd (createSession_begin (Some b) s1) in
    let s3 := snd (createSession_resume a s2) in
    let s4 := snd (createSession_resume b s3) in
    fst (createSession_begin (Some a) s) = Ok a /\
    fst (createSession_begin (Some b) s1) = Ok b /\
    fst (createSession_resume a s2) = Ok a /\
    fst (createSession_resume b s3) = Ok b /\
    JsMap.has a (sessions s4) = true /\ JsMap.has b (sessions s4) = true /\
    JsMap.size (sessions s4) = S (maxConcurrentSessions s4) /\
    fst (createSession (Some a) s) = Ok a /\
    fst (createSession (Some b) (snd (createSession (Some a) s))) =
      Err (capacityError (maxConcurrentSessions s)).
Proof.
  intros s a b Hi Hsz Ha Hb Hab Hfa Hfb Hctx Hseq.
  assert (Hlt : JsMap.size (sessions s) < maxConcurrentSessions s) by lia.
  pose proof (createSession_begin_supplied s a Hi Hlt Ha Hfa) as E1.
  rewrite E1. cbn [fst snd].
  set (s1 := with_world (world s) s).
  pose proof (createSession_begin_supplied s1 b Hi Hlt Hb Hfb) as E2.
  rewrite E2. cbn [fst snd].
  set (s2 := with_world (world s1) s1).
  destruct (createSession_resume_ok s2 a Hctx Hseq)
    as (d1 & s3 & E3 & Hs3 & _ & _ & _ & Hm3 & Hi3).
  rewrite E3. cbn [fst snd].
  destruct (createSession_resume_ok s3 b Hctx Hseq)
    as (d2 & s4 & E4 & Hs4 & _ & _ & _ & Hm4 & _).
  rewrite E4. cbn [fst snd].
  assert (Hs3' : sessions s3 = (sessions s ++ [(a, d1)])%list).
  { rewrite Hs3. simpl. now apply JsMap_set_fresh. }
  assert (Hfb3 : JsMap.has b (sessions s3) = false).
  { rewrite Hs3', JsMap_has_app_other; [exact Hfb|congruence]. }
  assert (Hs4' : sessions s4 = (sessions s ++ [(a, d1)] ++ [(b, d2)])%list).
  { rewrite Hs4, (JsMap_set_fresh _ _ _ _ Hfb3), Hs3', <- app_assoc. reflexivity. }
  split; [reflexivity|]. split; [reflexivity|]. split; [reflexivity|].
  split; [reflexivity|]. split; [|split; [|split; [|split]]].
  - rewrite Hs4', app_assoc, JsMap_has_app_other by congruence.
    unfold JsMap.has. rewrite JsMap_get_app_fresh.
    unfold JsMap.has in Hfa. destruct (JsMap.get a (sessions s)); [discriminate|].
    now rewrite String.eqb_refl.
  - rewrite Hs4', app_assoc. unfold JsMap.has. rewrite JsMap_get_app_fresh.
    destruct (JsMap.get b (sessions s ++ [(a, d1)])%list); [reflexivity|].
    now rewrite String.eqb_refl.
  - rewrite Hs4', Hm4, Hm3. unfold JsMap.size. rewrite !length_app. simpl.
    unfold JsMap.size in Hsz. lia.
  - rewrite createSession_in_two_steps, E1. fold s1.
    destruct (createSession_resume_ok s1 a Hctx Hseq) as (d & s' & E & _).
    now rewrite E.
  - rewrite (createSession_in_two_steps s (Some a)), E1. fold s1.
    destruct (createSession_resume_ok s1 a Hctx Hseq)
      as (d & s' & E & Hs' & _ & _ & _ & Hm' & Hi').
    rewrite E. cbn [snd].
    change (maxConcurrentSessions s1) with (maxConcurrentSessions s) in Hm'.
    change (isInitialized s1) with (isInitialized s) in Hi'.
    change (sessions s1) with (sessions s) in Hs'.
    rewrite <- Hm'. rewrite createSession_at_ceiling; [reflexivity| |].
    + rewrite Hi'. exact Hi.
    + rewrite Hm', Hs'. rewrite (JsMap_set_fresh _ _ _ _ Hfa).
      unfold JsMap.size. rewrite length_app. simpl.
      unfold JsMap.size in Hsz. lia.
Qed.

(** X8.  Two calls of [createSession] with the same new id that both pass
    the checks before either has stored its session both succeed and both
    return that id.  The store gains one entry: the session stored by the
    call that finished first is replaced by the other's, and nothing
    releases its context.  Run one after the other, the second call gets
    the duplicate-id error. *)
Theorem overlapping_creates_same_id :
  forall s (a : string),
    isInitialized s = true ->
    JsMap.size (sessions s) < maxConcurrentSessions s ->
    a <> "" ->
    JsMap.has a (sessions s) = false ->
    (forall w, isOk (fst (createContext w)) = true) ->
    (forall c w, isOk (fst (getSequence c w)) = true) ->
    let s1 := snd (createSession_begin (Some a) s) in
    let s2 := snd (createSession_begin (Some a) s1) in
    let s3 := snd (createSession_resume a s2) in
    let s4 := snd (createSession_resume a s3) in
    fst (createSession_begin (Some a) s) = Ok a /\
    fst (createSession_begin (Some a) s1) = Ok a /\
    fst (createSession_resume a s2) = Ok a /\
    fst (createSession_resume a s3) = Ok a /\
    (exists d1 d2,
       sessions s3 = (sessions s ++ [(a, d1)])%list /\
       sessions s4 = (sessions s ++ [(a, d2)])%list /\
       oid d1 = nextOid s /\ oid d2 = S (nextOid s)) /\
    fst (createSession (Some a) s) = Ok a /\
    (S (JsMap.size (sessions s)) < maxConcurrentSessions s ->
     fst (createSession (Some a) (snd (createSession (Some a) s))) =
       Err (duplicateError a)).
Proof.
  intros s a Hi Hlt Ha Hfa Hctx Hseq.
  pose proof (createSession_begin_supplied s a Hi Hlt Ha Hfa) as E1.
  rewrite E1. cbn [fst snd].
  set (s1 := with_world (world s) s).
  pose proof (createSession_begin_supplied s1 a Hi Hlt Ha Hfa) as E2.
  rewrite E2. cbn [fst snd].
  set (s2 := with_world (world s1) s1).
  destruct (createSession_resume_ok s2 a Hctx Hseq)
    as (d1 & s3 & E3 & Hs3 & Ho1 & _ & Hn3 & _).
  rewrite E3. cbn [fst snd].
  destruct (createSession_resume_ok s3 a Hctx Hseq)
    as (d2 & s4 & E4 & Hs4 & Ho2 & _).
  rewrite E4. cbn [fst snd].
  assert (Hs3' : sessions s3 = (sessions s ++ [(a, d1)])%list).
  { rewrite Hs3. simpl. now apply JsMap_set_fresh. }
  split; [reflexivity|]. split; [reflexivity|]. split; [reflexivity|].
  split; [reflexivity|]. split.
  - exists d1, d2. split; [exact Hs3'|]. split.
    + rewrite Hs4, Hs3'. now apply JsMap_set_replaces_last.
    + split; [exact Ho1|]. rewrite Ho2, Hn3. reflexivity.
  - rewrite (createSession_in_two_steps s (Some a)), E1. fold s1.
    destruct (createSession_resume_ok s1 a Hctx Hseq)
      as (d & s' & E & Hs' & _ & _ & _ & Hm' & Hi').
    rewrite E. cbn [fst snd]. split; [reflexivity|]. intros Hroom.
    change (maxConcurrentSessions s1) with (maxConcurrentSessions s) in Hm'.
    change (sessions s1) with (sessions s) in Hs'.
    assert (Hsz' : JsMap.size (sessions s') = S (JsMap.size (sessions s))).
    { rewrite Hs'. rewrite (JsMap_set_fresh _ _ _ _ Hfa).
      unfold JsMap.size. rewrite length_app. simpl. lia. }
    assert (Hlive : JsMap.has a (sessions s') = true).
    { rewrite Hs'. rewrite (JsMap_set_fresh _ _ _ _ Hfa).
      unfold JsMap.has. rewrite JsMap_get_app_fresh.
      unfold JsMap.has in Hfa. destruct (JsMap.get a (sessions s)); [discriminate|].
      now rewrite String.eqb_refl. }
    unfold createSession, chooseId. rewrite Hi'.
    change (isInitialized s1) with (isInitialized s). rewrite Hi. simpl.
    assert (Hcap : (maxConcurrentSessions s' <=? JsMap.size (sessions s')) = false).
    { apply Nat.leb_gt. rewrite Hm', Hsz'. simpl. lia. }
    rewrite Hcap. apply String.eqb_neq in Ha. rewrite Ha, Hlive. reflexivity.
Qed.

End Overlap.

(** ** Shutdown *)

Section Closing.

Context {W : Type} {RT : Runtime W} {MH : ModelHandle W}.

Implicit Types s : @State W.

Lemma JsMap_get_delete_some V (k id : string) (v : V) (m : JsMap.t V) :
  JsMap.get k (JsMap.delete id m) = Some v -> JsMap.get k m = Some v.
Proof.
  destruct (string_dec k id) as [->|Hne].
  - now rewrite JsMap_get_delete_same.
  - now rewrite JsMap_get_delete_other.
Qed.

Lemma cleanupLoop_keeps_entries ids : forall s (k : string) (d : SessionData),
  JsMap.get k (sessions (snd (cleanupLoop ids s))) = Some d ->
  JsMap.get k (sessions s) = Some d.
Proof.
  induction ids as [|id ids IH]; intros s k d; simpl; [trivial|].
  assert (H1 : forall v, JsMap.get k (sessions (snd (deleteSession id s))) = Some v ->
                         JsMap.get k (sessions s) = Some v).
  { intros v. unfold deleteSession. split_matches; simpl; trivial.
    apply JsMap_get_delete_some. }
  destruct (deleteSession id s) as [r s1]. simpl in H1.
  specialize (IH s1 k d). destruct (cleanupLoop ids s1) as [rs s2]. simpl in *.
  intros H. apply H1, IH, H.
Qed.

Lemma cleanupLoop_releasable ids : forall s (k : string),
  (forall c w, fst (dispose c w) = Ok tt) ->
  In k ids ->
  JsMap.has k (sessions (snd (cleanupLoop ids s))) = false.
Proof.
  induction ids as [|id ids IH]; intros s k Hok Hin; simpl; [destruct Hin|].
  assert (H1 : JsMap.has id (sessions (snd (deleteSession id s))) = false).
  { unfold deleteSession, JsMap.has.
    destruct (JsMap.get id (sessions s)) as [d|] eqn:Hget; simpl.
    - destruct (context d) as [ctx|].
      + specialize (Hok ctx (world s)).
        destruct (dispose ctx (world s)) as [[u|e] w]; simpl in *;
          [now rewrite JsMap_get_delete_same|discriminate].
      + simpl. now rewrite JsMap_get_delete_same.
    - now rewrite Hget. }
  pose proof (cleanupLoop_keeps_entries ids (snd (deleteSession id s)) k) as Hkeep.
  specialize (IH (snd (deleteSession id s)) k Hok).
  destruct (deleteSession id s) as [r s1]. simpl in *.
  destruct (cleanupLoop ids s1) as [rs s2]. simpl in *.
  destruct (in_dec string_dec k ids) as [Hk|Hk]; [now apply IH|].
  destruct Hin as [->|Hin]; [|contradiction].
  unfold JsMap.has in *.
  destruct (JsMap.get k (sessions s2)) as [d|] eqn:E; [|reflexivity].
  rewrite (Hkeep d eq_refl) in H1. discriminate.
Qed.

Lemma cleanup_fields s :
  processingQueue (cleanup s) = [] /\
  isInitialized (cleanup s) = false /\
  lanes (cleanup s) = lanes s /\
  currentlyProcessing (cleanup s) = currentlyProcessing s /\
  nextPromise (cleanup s) = nextPromise s /\
  trace (cleanup s) = trace s /\
  systemRole (cleanup s) = systemRole s /\
  sessions (cleanup s) =
    sessions (snd (cleanupLoop (JsMap.keys (sessions s))
                     (with_processingQueue [] s))).
Proof.
  unfold cleanup. simpl.
  destruct (cleanupLoop_frame (JsMap.keys (sessions s)) (with_processingQueue [] s))
    as ((L & C & Q & N & T) & R).
  simpl in *. now repeat split.
Qed.

(** X9.  [cleanup()] empties the queue, marks the manager uninitialized, so
    that every later [createSession] throws the not-initialized error, and
    calls [deleteSession] on every session of the store, going on after a
    failure.  A session leaves the store exactly when its deletion
    succeeds, one that stays is unchanged, and when no release fails the
    store is empty.  The activation of the loop, the flag and the role
    are left as they are. *)
Theorem cleanup_leaves :
  forall s,
    StoreInv s ->
    let outcomes :=
      fst (cleanupLoop (JsMap.keys (sessions s)) (with_processingQueue [] s)) in
    processingQueue (cleanup s) = [] /\
    isInitialized (cleanup s) = false /\
    (forall o, createSession o (cleanup s) = (Err notInitializedError, cleanup s)) /\
    lanes (cleanup s) = lanes s /\
    currentlyProcessing (cleanup s) = currentlyProcessing s /\
    systemRole (cleanup s) = systemRole s /\
    (forall k d, JsMap.get k (sessions (cleanup s)) = Some d ->
                 JsMap.get k (sessions s) = Some d) /\
    (forall i id, nth_error (JsMap.keys (sessions s)) i = Some id ->
       exists out, nth_error outcomes i = Some out /\
                   JsMap.has id (sessions (cleanup s)) = negb (isOk out)) /\
    ((forall c w, fst (dispose c w) = Ok tt) -> sessions (cleanup s) = []).
Proof.
  intros s Hinv outcomes.
  destruct (cleanup_fields s) as (Hq & Hi & Hl & Hc & _ & _ & Hr & Hs).
  split; [exact Hq|]. split; [exact Hi|]. split.
  { intros o. unfold createSession. now rewrite Hi. }
  split; [exact Hl|]. split; [exact Hc|]. split; [exact Hr|]. split.
  { intros k d. rewrite Hs. intros H.
    exact (cleanupLoop_keeps_entries _ (with_processingQueue [] s) k d H). }
  split.
  { assert (Hlive : forall id, In id (JsMap.keys (sessions s)) ->
              JsMap.has id (sessions (with_processingQueue [] s)) = true)
      by (intros id Hin; now apply JsMap_has_keys).
    destruct (cleanupLoop_spec (JsMap.keys (sessions s))
                (with_processingQueue [] s) Hinv Hlive Hinv)
      as (_ & _ & H & _).
    intros i id Hnth. rewrite Hs. now apply H. }
  intros Hok. rewrite Hs.
  destruct (sessions (snd (cleanupLoop (JsMap.keys (sessions s))
                             (with_processingQueue [] s))))
    as [|[k d] rest] eqn:E; [reflexivity|].
  exfalso.
  assert (Hget : JsMap.get k (sessions (snd (cleanupLoop (JsMap.keys (sessions s))
                                              (with_processingQueue [] s)))) = Some d)
    by (rewrite E; simpl; now rewrite String.eqb_refl).
  pose proof (cleanupLoop_keeps_entries _ _ _ _ Hget) as Hold. simpl in Hold.
  assert (Hin : In k (JsMap.keys (sessions s))).
  { apply JsMap_has_keys. unfold JsMap.has. now rewrite Hold. }
  pose proof (cleanupLoop_releasable _ (with_processingQueue [] s) k Hok Hin) as Hgone.
  unfold JsMap.has in Hgone. rewrite Hget in Hgone. discriminate.
Qed.

End Closing.

(** ** Requests that are dropped *)

Section Dropped.

Context {W : Type} {RT : Runtime W}.

Implicit Types s : @State W.

Lemma settled_app (t t' : list QueueEvent) :
  settled (t ++ t') = (settled t ++ settled t')%list.
Proof. unfold settled. now rewrite flat_map_app. Qed.

Lemma inProgress_replaceAt (i : nat) (b : Lane) (l : list Lane) (q : nat) :
  In q (inProgress (replaceAt i b l)) ->
  In q (inProgress [b]) \/ In q (inProgress l).
Proof.
  revert i. induction l as [|a l IH]; intros i; destruct i as [|i]; simpl;
    try tauto.
  intros [H|H]; [tauto|]. specialize (IH i H). simpl in IH. tauto.
Qed.

Lemma inProgress_removeAt (i : nat) (l : list Lane) (q : nat) :
  In q (inProgress (removeAt i l)) -> In q (inProgress l).
Proof.
  revert i. induction l as [|a l IH]; intros i; destruct i as [|i]; simpl;
    try tauto.
  intros [H|H]; [tauto|]. specialize (IH i H). tauto.
Qed.

Lemma inProgress_nth (i : nat) (a : Lane) (l : list Lane) :
  nth_error l i = Some a -> forall q, In q (inProgress [a]) -> In q (inProgress l).
Proof.
  intros Hnth q [<-|[]]. apply nth_error_In in Hnth.
  unfold inProgress. apply in_map_iff. now exists a.
Qed.

(** The request the loop takes is the head of the queue. *)
Lemma nextRequest_moves_head s :
  (inProgress (match snd (nextRequest s) with Some lane => [lane] | None => [] end)
   ++ queued (fst (nextRequest s)))%list = queued s /\
  settled (trace (fst (nextRequest s))) = settled (trace s) /\
  nextPromise (fst (nextRequest s)) = nextPromise s /\
  lanes (fst (nextRequest s)) = lanes s.
Proof.
  pose proof (nextRequest_spec s) as Hspec. unfold queued.
  destruct (processingQueue s) as [|r rest] eqn:Hq.
  - rewrite Hspec. simpl. now rewrite Hq.
  - destruct Hspec as (s2 & lane & E & Hq2 & _ & Hn & Hl & _ & _ & _ & _ & Hcase).
    rewrite E. simpl. rewrite Hq2.
    destruct Hcase as [(_ & -> & Htr & _)|(d & _ & -> & Htr & _)];
      rewrite Htr, settled_app; simpl; rewrite app_nil_r; now repeat split.
Qed.

Lemma inProgress_app (l l' : list Lane) :
  inProgress (l ++ l') = (inProgress l ++ inProgress l')%list.
Proof. apply map_app. Qed.

(** [_processQueue] moves requests, it neither adds nor settles one. *)
Lemma processQueue_outstanding s (q : nat) :
  (In q (outstanding (_processQueue s)) -> In q (outstanding s)) /\
  settled (trace (_processQueue s)) = settled (trace s) /\
  nextPromise (_processQueue s) = nextPromise s.
Proof.
  unfold _processQueue.
  destruct (currentlyProcessing s || (length (processingQueue s) =? 0));
    [now repeat split|].
  pose proof (nextRequest_moves_head (with_currentlyProcessing true s))
    as (Hmove & Hset & Hnext & Hlanes).
  change (queued (with_currentlyProcessing true s)) with (queued s) in Hmove.
  destruct (nextRequest (with_currentlyProcessing true s)) as [s2 [lane|]];
    cbn [fst snd] in *; cbv iota in Hmove.
  - split; [|split; [exact Hset|exact Hnext]].
    change (outstanding (with_lanes (lanes s2 ++ [lane]) s2))
      with (inProgress (lanes s2 ++ [lane]) ++ queued s2)%list.
    unfold outstanding.
    rewrite inProgress_app, Hlanes, <- Hmove, !in_app_iff. tauto.
  - split; [|split; [exact Hset|exact Hnext]].
    unfold outstanding. rewrite Hlanes, <- Hmove. auto.
Qed.

(** A promise that settles was outstanding; a request that becomes
    outstanding is the one just pushed. *)
Lemma exec_outstanding (e : Event) s (q : nat) :
  (In q (outstanding (exec e s)) -> In q (outstanding s) \/ q = nextPromise s) /\
  (In q (settled (trace (exec e s))) ->
   In q (settled (trace s)) \/ In q (outstanding s)) /\
  nextPromise s <= nextPromise (exec e s).
Proof.
  assert (Hquiet : forall s', QueueFrame s s' ->
            (In q (outstanding s') -> In q (outstanding s) \/ q = nextPromise s) /\
            (In q (settled (trace s')) ->
             In q (settled (trace s)) \/ In q (outstanding s)) /\
            nextPromise s <= nextPromise s').
  { intros s' (L & C & Q & N & T). unfold outstanding, queued.
    rewrite L, Q, N, T. repeat split; auto. }
  assert (Hsend : forall sid msg,
            (In q (outstanding (snd (sendMessage sid msg s))) ->
             In q (outstanding s) \/ q = nextPromise s) /\
            (In q (settled (trace (snd (sendMessage sid msg s)))) ->
             In q (settled (trace s)) \/ In q (outstanding s)) /\
            nextPromise s <= nextPromise (snd (sendMessage sid msg s))).
  { intros sid msg. unfold sendMessage.
    destruct (JsMap.has sid (sessions s)); cbn [negb fst snd]; [|repeat split; auto].
    destruct (enqueue_fields s sid msg)
      as (now & w & _ & Hq & Htr & Hn & Hl & _).
    destruct (processQueue_outstanding (enqueue sid msg s) q) as (Ho & Hs & Hp).
    rewrite Hs, Hp, Hn, Htr, settled_app. cbn [settled flat_map].
    rewrite app_nil_r. split; [|split; [auto|lia]].
    intros H. apply Ho in H. revert H. unfold outstanding, queued.
    rewrite Hl, Hq, map_app, !in_app_iff. cbn [map In Request.promise].
    intros [H|[H|[H|[]]]]; auto. }
  pose proof (quiet_calls_frame e s) as Hq.
  destruct e as [path|o|sid msg|sid v|sid|v|age|i|i];
    try (apply Hquiet; exact Hq).
  - apply Hsend.
  - cbn [exec]. destruct (postMessage_state s sid v) as [->| ->];
      [repeat split; auto|apply Hsend].
  - cbn [exec]. unfold promptSettles.
    destruct (nth_error (lanes s) i) as [[r o chat text|r out]|] eqn:Hnth;
      [|repeat split; auto..].
    destruct (prompt chat text (world s)) as [answer w].
    pose proof (processMessage_end_frame (with_world w s) o answer) as Hf.
    destruct (processMessage_end o answer (with_world w s)) as [outcome s1].
    cbn [fst snd] in Hf. destruct Hf as (_ & _ & _ & Hq' & _ & Hn & Hl & Htr & _).
    change (processingQueue (with_world w s)) with (processingQueue s) in Hq'.
    change (nextPromise (with_world w s)) with (nextPromise s) in Hn.
    change (lanes (with_world w s)) with (lanes s) in Hl.
    change (trace (with_world w s)) with (trace s) in Htr.
    set (s' := with_lanes (replaceAt i (AwaitMessage r outcome) (lanes s1)) s1).
    change (trace s') with (trace s1). change (nextPromise s') with (nextPromise s1).
    change (outstanding s')
      with (inProgress (replaceAt i (AwaitMessage r outcome) (lanes s1)) ++
            map Request.promise (processingQueue s1))%list.
    rewrite Hl, Hq', Hn, Htr.
    split; [|split; [auto|lia]].
    unfold outstanding, queued. rewrite !in_app_iff. intros [H|H]; [|auto].
    left. left. destruct (inProgress_replaceAt _ _ _ _ H) as [H'|H']; [|exact H'].
    apply (inProgress_nth _ _ _ Hnth). exact H'.
  - cbn [exec]. unfold resume.
    destruct (nth_error (lanes s) i) as [[r o chat text|r out]|] eqn:Hnth;
      [repeat split; auto| |repeat split; auto].
    set (ev := match out with
               | Ok response => Resolved (Request.promise r) response
               | Err e => Rejected (Request.promise r) e
               end).
    pose proof (nextRequest_moves_head (emit ev s)) as (Hmove & Hset & Hnext & Hlanes).
    assert (Hev : settled (trace (emit ev s)) =
                  (settled (trace s) ++ [Request.promise r])%list).
    { change (trace (emit ev s)) with (trace s ++ [ev])%list.
      rewrite settled_app. subst ev. now destruct out. }
    assert (Hr : In (Request.promise r) (outstanding s)).
    { unfold outstanding. apply in_app_iff. left.
      apply (inProgress_nth _ _ _ Hnth). now left. }
    change (queued (emit ev s)) with (queued s) in Hmove.
    change (lanes (emit ev s)) with (lanes s) in Hlanes.
    change (nextPromise (emit ev s)) with (nextPromise s) in Hnext.
    rewrite Hev in Hset.
    destruct (nextRequest (emit ev s)) as [s1 [lane|]];
      cbn [fst snd] in *; cbv iota in Hmove.
    + change (trace (with_lanes (replaceAt i lane (lanes s1)) s1)) with (trace s1).
      change (nextPromise (with_lanes (replaceAt i lane (lanes s1)) s1))
        with (nextPromise s1).
      change (outstanding (with_lanes (replaceAt i lane (lanes s1)) s1))
        with (inProgress (replaceAt i lane (lanes s1)) ++ queued s1)%list.
      rewrite Hset, Hnext, Hlanes.
      split; [|split; [|lia]].
      * unfold outstanding. rewrite <- Hmove, !in_app_iff. intros [H|H]; [|tauto].
        destruct (inProgress_replaceAt _ _ _ _ H) as [H'|H']; tauto.
      * rewrite in_app_iff. intros [H|[<-|[]]]; auto.
    + change (trace (with_lanes (removeAt i (lanes s1)) s1)) with (trace s1).
      change (nextPromise (with_lanes (removeAt i (lanes s1)) s1))
        with (nextPromise s1).
      change (outstanding (with_lanes (removeAt i (lanes s1)) s1))
        with (inProgress (removeAt i (lanes s1)) ++ queued s1)%list.
      rewrite Hset, Hnext, Hlanes.
      split; [|split; [|lia]].
      * unfold outstanding. rewrite <- Hmove, !in_app_iff. intros [H|H]; [|tauto].
        apply inProgress_removeAt in H. tauto.
      * rewrite in_app_iff. intros [H|[<-|[]]]; auto.
Qed.

Lemma run_never_settles (events : list Event) : forall s (p : nat),
  p < nextPromise s ->
  ~ In p (outstanding s) ->
  ~ In p (settled (trace s)) ->
  ~ In p (settled (trace (run events s))).
Proof.
  induction events as [|e events IH]; intros s p Hlt Hout Hset; [exact Hset|].
  simpl. destruct (exec_outstanding e s p) as (H1 & H2 & H3).
  apply IH.
  - lia.
  - intros H. destruct (H1 H) as [H'|H']; [contradiction|lia].
  - intros H. destruct (H2 H) as [H'|H']; contradiction.
Qed.

Lemma queued_not_settled s (p : nat) :
  QueueInv s -> In p (queued s) ->
  p < nextPromise s /\ ~ In p (inProgress (lanes s)) /\ ~ In p (settled (trace s)).
Proof.
  intros (_ & H) Hin. pose proof (serve_settled (trace s)) as Hs.
  destruct (lanes s) as [|l [|l' ls]]; [| |destruct l; contradiction].
  - destruct H as (_ & Hq & _). unfold queued in Hin. rewrite Hq in Hin.
    destruct Hin.
  - assert (Hgen : forall r,
              queued s = seq (S r) (nextPromise s - S r) ->
              settled (trace s) = seq 0 r ->
              p < nextPromise s /\ ~ In p [r] /\ ~ In p (settled (trace s))).
    { intros r Hq Hset. rewrite Hq in Hin. apply in_seq in Hin.
      rewrite Hset. repeat split; [lia| |].
      - intros [H'|[]]. lia.
      - intros H'. apply in_seq in H'. lia. }
    destruct l as [r o chat text|r out]; simpl.
    + destruct H as (_ & Hserve & Hq & _). rewrite Hserve in Hs. now apply Hgen.
    + destruct H as (_ & [Hserve|(Hserve & _)] & Hq & _); rewrite Hserve in Hs;
        now apply Hgen.
Qed.

End Dropped.

Section DroppedAtShutdown.

Context {W : Type} {RT : Runtime W} {MH : ModelHandle W}.

(** X10.  [cleanup()] drops the requests that are in the queue without
    settling them: whatever happens afterwards, the promise of a request
    that was queued when [cleanup()] ran is never resolved and never
    rejected. *)
Theorem cleanup_drops_queued_requests :
  forall (role : option string) (w : W) (before after : list Event) (p : nat),
    let s := run before (constructor role w) in
    In p (queued s) ->
    queued (cleanup s) = [] /\
    ~ In p (settled (trace s)) /\
    ~ In p (settled (trace (run after (cleanup s)))).
Proof.
  intros role w before after p s Hin.
  assert (Hinv : QueueInv s) by apply run_QueueInv, initial_QueueInv.
  destruct (queued_not_settled s p Hinv Hin) as (Hlt & Hnot & Hset).
  destruct (cleanup_fields s) as (Hq & _ & Hl & _ & Hn & Ht & _).
  split; [unfold queued; now rewrite Hq|]. split; [exact Hset|].
  apply run_never_settles.
  - now rewrite Hn.
  - unfold outstanding, queued. rewrite Hl, Hq. simpl. now rewrite app_nil_r.
  - now rewrite Ht.
Qed.

End DroppedAtShutdown.

(** ** What the routes answer *)

Section Routes.

Context {W : Type} {RT : Runtime W}.

Implicit Types s : @State W.

Lemma includes_app_right (needle pre rest : string) :
  includes needle rest = true -> includes needle (pre ++ rest) = true.
Proof.
  intros H. induction pre as [|c pre IH]; [exact H|].
  change (String c pre ++ rest)%string with (String c (pre ++ rest)).
  cbn [includes]. rewrite IH. now destruct (String.prefix needle _).
Qed.

Lemma notFoundError_status (sessionId : string) :
  errorStatus (notFoundError sessionId) = 404.
Proof.
  unfold errorStatus, notFoundError.
  rewrite (includes_app_right "not found" "Session " _); [reflexivity|].
  now apply includes_app_right.
Qed.

(** X11.  A session id that is not in the store gets 404 with the error
    [Session <id> not found] from the history route, the delete route and
    the message route (whatever non-empty message is sent), and none of
    them changes the state. *)
Theorem unknown_session_is_404 :
  forall s (sessionId message : string),
    JsMap.has sessionId (sessions s) = false ->
    message <> ""%string ->
    let answer := {| status := 404; body := Failed (notFoundError sessionId) |} in
    getSessionHistory sessionId s = answer /\
    deleteSessionRoute sessionId s = (answer, s) /\
    postMessage sessionId (JsString message) s =
      (Responded 404 (notFoundError sessionId), s).
Proof.
  intros s sid msg Hhas Hmsg answer. unfold JsMap.has in Hhas.
  destruct (JsMap.get sid (sessions s)) as [d|] eqn:Hget; [discriminate|].
  split; [|split].
  - unfold getSessionHistory, getHistory. rewrite Hget.
    now rewrite notFoundError_status.
  - unfold deleteSessionRoute, deleteSession. rewrite Hget.
    now rewrite notFoundError_status.
  - unfold postMessage, sendMessage, JsMap.has. rewrite Hget.
    cbn [truthy typeof_string negb orb asString].
    destruct (String.eqb msg "") eqn:E; [apply String.eqb_eq in E; contradiction|].
    cbn [negb orb]. now rewrite notFoundError_status.
Qed.

(** X12.  The status of a failure is read off the error text.  When the
    release of a live session's context throws [e], the delete route
    answers [Failed to delete session: <e>] with 404 if [e] contains
    [not found] and with 500 otherwise, and the session stays in the
    store; when the engine fails with [e] on a message, the message route
    answers [Failed to process message: <e>] with 404 or 500 by the same
    test. *)
Theorem failure_status_follows_error_text :
  forall s (sessionId e : string) (d : SessionData) (ctx : Context) (w : W),
    JsMap.get sessionId (sessions s) = Some d ->
    context d = Some ctx ->
    dispose ctx (world s) = (Err e, w) ->
    let code := if includes "not found" e then 404 else 500 in
    deleteSessionRoute sessionId s =
      ({| status := code; body := Failed ("Failed to delete session: " ++ e) |},
       with_world w s) /\
    JsMap.get sessionId (sessions (snd (deleteSessionRoute sessionId s))) = Some d /\
    (forall o s', 
       fst (processMessage_end o (Err e) s') = Err ("Failed to process message: " ++ e) /\
       messageReply sessionId (fst (processMessage_end o (Err e) s')) s' =
         ({| status := code; body := Failed ("Failed to process message: " ++ e) |},
          s')).
Proof.
  intros s sid e d ctx w Hget Hctx Hdis code.
  assert (Hdel : errorStatus ("Failed to delete session: " ++ e) = code)
    by reflexivity.
  assert (Hmsg : errorStatus ("Failed to process message: " ++ e) = code)
    by reflexivity.
  assert (E : deleteSessionRoute sid s =
              ({| status := code; body := Failed ("Failed to delete session: " ++ e) |},
               with_world w s)).
  { unfold deleteSessionRoute, deleteSession. rewrite Hget, Hctx, Hdis.
    now rewrite Hdel. }
  split; [exact E|]. split; [now rewrite E|].
  intros o s'. split; [reflexivity|].
  cbn [processMessage_end fst]. unfold messageReply. now rewrite Hmsg.
Qed.

(** X13.  [PUT /system-role] and [GET /system-role].  A value that is a
    non-empty string is stored and answered with 200, and the next GET
    returns it; any other value is answered with 400 and the state is
    unchanged.  The route never answers 500: the check of
    [updateSystemRole] cannot fail behind the check of the route. *)
Theorem system_role_routes :
  forall s (v : JsValue),
    let (response, s1) := putSystemRole v s in
    status response <> 500 /\
    match v with
    | JsString (String c rest) =>
        response = {| status := 200;
                      body := RoleSet "System role updated successfully"
                                (String c rest) |} /\
        getSystemRoleRoute s1 = {| status := 200; body := RoleIs (String c rest) |} /\
        s1 = with_systemRole (String c rest) s
    | _ =>
        response = {| status := 400; body := Failed systemRoleError |} /\
        s1 = s /\
        getSystemRoleRoute s1 = getSystemRoleRoute s
    end.
Proof.
  intros s v. unfold putSystemRole, updateSystemRole.
  destruct v as [| |b|n|x|]; cbn [truthy typeof_string negb orb];
    try rewrite Bool.orb_true_r; try (split; [discriminate|now repeat split]).
  destruct x as [|c rest]; cbn; (split; [discriminate|now repeat split]).
Qed.


End Routes.

(** ** A request in flight when its session is deleted *)

Section InFlight.

Context {W : Type} {RT : Runtime W}.

Implicit Types s : @State W.

(** X15.  Deleting a session does not cancel the request of that session
    the engine is working on.  When the engine answers, the caller's
    promise is resolved with the trimmed answer although the session is
    gone: the store has no entry for it, before and after, so the exchange
    is in no history. *)
Theorem in_flight_request_outlives_session :
  forall s s1 (r : Request.t) (o : nat) (chat : ChatSession) (text raw : string)
         (w : W),
    lanes s = [AwaitPrompt r o chat text] ->
    deleteSession (Request.sessionId r) s = (Ok tt, s1) ->
    prompt chat text (world s1) = (Ok raw, w) ->
    let s2 := exec (PromptSettles 0) s1 in
    lanes s2 = [AwaitMessage r (Ok (trim raw))] /\
    JsMap.keys (sessions s2) = JsMap.keys (sessions s1) /\
    JsMap.has (Request.sessionId r) (sessions s2) = false /\
    getHistory (Request.sessionId r) s2 = Err (notFoundError (Request.sessionId r)) /\
    exists tail,
      trace (exec (Resume 0) s2) =
        (trace s ++ Resolved (Request.promise r) (trim raw) :: tail)%list.
Proof.
  intros s s1 r o chat text raw w Hl Hdel Hprompt s2.
  pose proof (deleteSession_frame s (Request.sessionId r))
    as (_ & _ & _ & _ & _ & _ & Hl1 & Ht1).
  destruct (deleteSession_ok_inv s _ s1 Hdel) as (_ & w1 & Hs1).
  rewrite Hdel in Hl1, Ht1. cbn [snd] in Hl1, Ht1. rewrite Hl in Hl1.
  assert (Hs2 : s2 = with_lanes [AwaitMessage r (Ok (trim raw))]
                       (snd (processMessage_end o (Ok raw) (with_world w s1)))).
  { subst s2. cbn [exec]. rewrite (promptSettles_single s1 r o chat text Hl1).
    rewrite Hprompt. cbn [fst snd]. f_equal. f_equal.
    unfold processMessage_end.
    destruct (newDate (world (with_world w s1))) as [now w'].
    now destruct (newDate w') as [active w'']. }
  pose proof (processMessage_end_frame (with_world w s1) o (Ok raw))
    as (_ & _ & _ & _ & _ & _ & _ & Ht2 & Hk).
  cbn zeta in Ht2, Hk.
  assert (Hkeys : JsMap.keys (sessions s2) = JsMap.keys (sessions s1))
    by (rewrite Hs2; exact Hk).
  assert (Hgone : JsMap.has (Request.sessionId r) (sessions s2) = false).
  { destruct (JsMap.has (Request.sessionId r) (sessions s2)) eqn:E;
      [|reflexivity].
    apply JsMap_has_keys in E. rewrite Hkeys in E.
    apply JsMap_has_keys in E. rewrite Hs1 in E.
    cbn [sessions with_sessions] in E.
    now rewrite JsMap_has_delete_same in E. }
  split; [now rewrite Hs2|]. split; [exact Hkeys|]. split; [exact Hgone|].
  split.
  - unfold getHistory. unfold JsMap.has in Hgone.
    now destruct (JsMap.get (Request.sessionId r) (sessions s2)).
  - assert (Hl2 : lanes s2 = [AwaitMessage r (Ok (trim raw))])
      by now rewrite Hs2.
    destruct (resume_trace s2 r _ Hl2) as (tail & Htr).
    exists tail. cbn [exec]. rewrite Htr. f_equal.
    rewrite Hs2. change (trace (with_lanes ?l ?x)) with (trace x).
    rewrite Ht2. exact Ht1.
Qed.

End InFlight.

(** ** Two deletions of one session that overlap *)

Section OverlapDelete.

Context {W : Type} {RT : Runtime W}.

Implicit Types s : @State W.

Lemma deleteSession_in_two_steps s (sessionId : string) :
  deleteSession sessionId s =
    match deleteSession_begin sessionId s with
    | (Returned r, _, s1) => (r, s1)
    | (Suspended, Some sessionData, s1) =>
        deleteSession_resume sessionId sessionData s1
    | (Suspended, None, s1) => (Ok tt, s1)
    end.
Proof.
  unfold deleteSession, deleteSession_begin, deleteSession_resume.
  destruct (JsMap.get sessionId (sessions s)) as [d|]; [|reflexivity].
  destruct (context d) as [ctx|] eqn:Hctx; [|reflexivity].
  cbn beta iota. rewrite Hctx.
  now destruct (dispose ctx (world s)) as [[[]|e] w].
Qed.

(** X16.  Two deletions of one session that are both past the lookup
    before either has let go of the context both release the context, so
    it is released twice, and both succeed when the engine lets them;
    one after the other, the second fails with the not-found error and
    releases nothing. *)
Theorem overlapping_deletes_release_twice :
  forall s (sessionId : string) (d : SessionData) (ctx : Context) (w1 w2 : W),
    JsMap.get sessionId (sessions s) = Some d ->
    context d = Some ctx ->
    dispose ctx (world s) = (Ok tt, w1) ->
    dispose ctx w1 = (Ok tt, w2) ->
    deleteSession_begin sessionId s = (Suspended, Some d, s) /\
    let first := deleteSession_resume sessionId d s in
    let second := deleteSession_resume sessionId d (snd first) in
    fst first = Ok tt /\ world (snd first) = w1 /\
    fst second = Ok tt /\ world (snd second) = w2 /\
    JsMap.has sessionId (sessions (snd second)) = false /\
    deleteSession sessionId s = first /\
    deleteSession sessionId (snd first) =
      (Err (notFoundError sessionId), snd first).
Proof.
  intros s sid d ctx w1 w2 Hget Hctx Hd1 Hd2.
  split; [unfold deleteSession_begin; now rewrite Hget, Hctx|].
  assert (E1 : deleteSession_resume sid d s =
               (Ok tt, with_sessions (JsMap.delete sid (sessions s)) (with_world w1 s))).
  { unfold deleteSession_resume. now rewrite Hctx, Hd1. }
  cbn zeta. rewrite E1. cbn [fst snd].
  assert (E2 : deleteSession_resume sid d
                 (with_sessions (JsMap.delete sid (sessions s)) (with_world w1 s)) =
               (Ok tt, with_sessions
                         (JsMap.delete sid (JsMap.delete sid (sessions s)))
                         (with_world w2 s))).
  { unfold deleteSession_resume. rewrite Hctx.
    change (world (with_sessions _ (with_world w1 s))) with w1. now rewrite Hd2. }
  rewrite E2. cbn [fst snd].
  repeat split.
  - cbn [sessions with_sessions]. apply JsMap_has_delete_same.
  - unfold deleteSession. now rewrite Hget, Hctx, Hd1.
  - unfold deleteSession. cbn [sessions with_sessions].
    now rewrite JsMap_get_delete_same.
Qed.

End OverlapDelete.

(** ** What a session keeps and what counts as activity *)

Section Kept.

Context {W : Type} {RT : Runtime W}.

Implicit Types s : @State W.

(** X17.  The system prompt of a session is the role that was in force
    when the session was created: as long as the object is in the store it
    keeps that prompt, whatever [updateSystemRole] has done since. *)
Theorem system_prompt_is_fixed_at_creation :
  forall (role : option string) (w : W) (before after : list Event)
         (o : option string) (id : string) s1 (d' : SessionData),
    let s := run before (constructor role w) in
    createSession o s = (Ok id, s1) ->
    JsMap.get id (sessions (run after s1)) = Some d' ->
    oid d' = nextOid s ->
    systemPrompt (session d') = systemRole s.
Proof.
  intros role w before after o id s1 d' s Hcreate Hget Hoid.
  pose proof (reachable_OidInv role w before) as Hinv. fold s in Hinv.
  apply createSession_ok_inv in Hcreate.
  destruct Hcreate as (_ & _ & Hfresh & w0 & ctx & w1 & sq & w2 & c & w3 & a & w4 & H).
  destruct H as (_ & _ & _ & _ & _ & ->).
  destruct (run_StoreStep after
              (with_nextOid (S (nextOid s))
                 (with_sessions
                    (JsMap.set id
                       {| oid := nextOid s;
                          session := {| contextSequence := sq;
                                        systemPrompt := systemRole s |};
                          context := Some ctx; history := []; createdAt := c;
                          lastActivity := a; systemRoleSet := true |}
                       (sessions s))
                    (with_world w4 s)))) as (_ & Hstep).
  apply JsMap_get_In in Hget.
  destruct (Hstep _ Hget) as [(e & He & _ & Hg)|Hnew].
  - cbn [sessions with_nextOid with_sessions] in He.
    rewrite (JsMap_set_fresh _ _ _ _ Hfresh) in He.
    destruct Hg as (Ho & _ & _ & _ & Hs). cbn [snd] in Ho, Hs.
    apply in_app_iff in He. destruct He as [He|[<-|[]]].
    + specialize (Hinv _ He). lia.
    + now rewrite Hs.
  - cbn [snd nextOid with_nextOid] in Hnew. lia.
Qed.





End Kept.

(** ** How [ChatUI] renders a message *)

Section Rendering.

Import ChatUI.

Local Open Scope list_scope.

Implicit Types s g x y b p t : jsString.

Lemma startsWith_nil s : startsWith [] s = true.
Proof. now destruct s. Qed.

Lemma startsWith_spec p : forall s,
  startsWith p s = true <-> exists r, s = p ++ r.
Proof.
  induction p as [|a p IH]; intros s.
  - rewrite startsWith_nil. split; [now exists s|reflexivity].
  - destruct s as [|c s]; simpl.
    + split; [discriminate|]. intros (r & H). discriminate H.
    + rewrite andb_true_iff, N.eqb_eq, IH. split.
      * intros (-> & r & ->). now exists r.
      * intros (r & H). inversion H. split; [reflexivity|now exists r].
Qed.

Lemma startsWith_skipn p s :
  startsWith p s = true -> s = p ++ skipn (length p) s.
Proof.
  intros H. apply startsWith_spec in H. destruct H as (r & ->).
  now rewrite skipn_app, skipn_all, Nat.sub_diag.
Qed.

Lemma startsWith_app p s y :
  startsWith p s = true -> startsWith p (s ++ y) = true.
Proof.
  rewrite !startsWith_spec. intros (r & ->). exists (r ++ y).
  now rewrite app_assoc.
Qed.

(** A prefix that avoids the unit [x] begins with lies before [x]. *)
Lemma startsWith_cut b : forall g x,
  startsWith b (g ++ x) = true ->
  (forall d x', x = d :: x' -> ~ In d b) ->
  startsWith b g = true.
Proof.
  induction b as [|a b IH]; intros g x H Hx; [apply startsWith_nil|].
  destruct g as [|c g].
  - destruct x as [|d x']; [discriminate H|].
    simpl in H. apply andb_true_iff in H. destruct H as (H & _).
    apply N.eqb_eq in H. subst d. exfalso. apply (Hx a x' eq_refl). now left.
  - simpl in *. apply andb_true_iff in H. destruct H as (H1 & H2).
    rewrite H1. simpl. apply (IH g x H2).
    intros d x' E Hin. apply (Hx d x' E). now right.
Qed.

(** *** The tags *)

Lemma tags_shape t : In t tags -> exists b, t = 60%N :: b.
Proof.
  intros H. vm_compute in H.
  repeat (destruct H as [<-|H]; [eexists; reflexivity|]). destruct H.
Qed.

Lemma inert_spec (d : N) t b :
  inert d = true -> In t tags -> t = 60%N :: b -> ~ In d b.
Proof.
  unfold inert. rewrite forallb_forall. intros H Hin -> Hd.
  specialize (H _ Hin). simpl in H. apply negb_true_iff in H.
  assert (E : existsb (N.eqb d) b = true).
  { apply existsb_exists. exists d. split; [exact Hd|apply N.eqb_refl]. }
  congruence.
Qed.

Lemma own_suffix g x : onlyOwnTags (g ++ x) = true -> onlyOwnTags x = true.
Proof.
  induction g as [|c g IH]; [trivial|]. simpl. intros H.
  apply andb_true_iff in H. now apply IH.
Qed.

Lemma own_app g y :
  onlyOwnTags g = true -> onlyOwnTags y = true -> onlyOwnTags (g ++ y) = true.
Proof.
  induction g as [|c g IH]; [trivial|]. intros H Hy.
  change ((if (c =? 60)%N then existsb (fun t => startsWith t (c :: g)) tags else true)
          && onlyOwnTags g = true) in H.
  change ((if (c =? 60)%N then existsb (fun t => startsWith t ((c :: g) ++ y)) tags
           else true) && onlyOwnTags (g ++ y) = true).
  apply andb_true_iff in H. destruct H as (H1 & H2).
  apply andb_true_iff. split; [|now apply IH].
  destruct (c =? 60)%N; [|reflexivity].
  apply existsb_exists in H1. destruct H1 as (t & Hin & Ht).
  apply existsb_exists. exists t. split; [exact Hin|now apply startsWith_app].
Qed.

(** A tag that begins before a unit no tag holds ends before it. *)
Lemma own_cut g x :
  onlyOwnTags (g ++ x) = true ->
  (forall d x', x = d :: x' -> inert d = true) ->
  onlyOwnTags g = true.
Proof.
  induction g as [|c g IH]; [trivial|]. intros H Hx.
  change ((if (c =? 60)%N then existsb (fun t => startsWith t (c :: (g ++ x))) tags
           else true) && onlyOwnTags (g ++ x) = true) in H.
  change ((if (c =? 60)%N then existsb (fun t => startsWith t (c :: g)) tags else true)
          && onlyOwnTags g = true).
  apply andb_true_iff in H. destruct H as (H1 & H2).
  apply andb_true_iff. split; [|now apply IH].
  destruct (c =? 60)%N; [|reflexivity].
  apply existsb_exists in H1. destruct H1 as (t & Hin & Ht).
  apply existsb_exists. exists t. split; [exact Hin|].
  destruct (tags_shape t Hin) as (b & ->).
  simpl in *. apply andb_true_iff in Ht. destruct Ht as (-> & Ht). simpl.
  apply (startsWith_cut b g x Ht).
  intros d x' E. apply (inert_spec d _ b (Hx d x' E) Hin eq_refl).
Qed.

Lemma own_without_lt s :
  Forall (fun c => c <> 60%N) s -> onlyOwnTags s = true.
Proof.
  induction 1 as [|c s Hc _ IH]; [reflexivity|]. simpl.
  apply N.eqb_neq in Hc. now rewrite Hc.
Qed.

(** A pass that copies what begins a tag keeps the tag. *)
Lemma own_cons (F : jsString -> jsString) (c : N) rest :
  (forall t b, In t tags -> t = 60%N :: b ->
     startsWith b rest = true -> startsWith b (F rest) = true) ->
  onlyOwnTags (c :: rest) = true ->
  onlyOwnTags (F rest) = true ->
  onlyOwnTags (c :: F rest) = true.
Proof.
  intros HF H HFr.
  change ((if (c =? 60)%N then existsb (fun t => startsWith t (c :: rest)) tags
           else true) && onlyOwnTags rest = true) in H.
  change ((if (c =? 60)%N then existsb (fun t => startsWith t (c :: F rest)) tags
           else true) && onlyOwnTags (F rest) = true).
  apply andb_true_iff in H. destruct H as (H1 & _).
  apply andb_true_iff. split; [|exact HFr].
  destruct (c =? 60)%N; [|reflexivity].
  apply existsb_exists in H1. destruct H1 as (t & Hin & Ht).
  apply existsb_exists. exists t. split; [exact Hin|].
  destruct (tags_shape t Hin) as (b & ->).
  simpl in *. apply andb_true_iff in Ht. destruct Ht as (-> & Ht). simpl.
  now apply (HF _ b Hin eq_refl).
Qed.

(** *** [replaceUnit] *)

Lemma replaceUnit_none (c : N) by_ s :
  ~ In c s -> replaceUnit c by_ s = s.
Proof.
  induction s as [|a s IH]; [reflexivity|]. intros H. simpl.
  destruct (a =? c)%N eqn:E.
  - apply N.eqb_eq in E. subst a. exfalso. apply H. now left.
  - simpl. f_equal. apply IH. intros Hin. apply H. now right.
Qed.

Lemma replaceUnit_Forall (P : N -> Prop) (c : N) by_ s :
  Forall P by_ ->
  (forall a, In a s -> a <> c -> P a) ->
  Forall P (replaceUnit c by_ s).
Proof.
  intros Hby. induction s as [|a s IH]; intros H; simpl; [constructor|].
  apply Forall_app. split.
  - destruct (a =? c)%N eqn:E; [exact Hby|].
    constructor; [|constructor]. apply H; [now left|now apply N.eqb_neq].
  - apply IH. intros a' Hin. apply H. now right.
Qed.

Lemma replaceUnit_copy (c : N) by_ b : forall rest,
  startsWith b rest = true -> ~ In c b ->
  startsWith b (replaceUnit c by_ rest) = true.
Proof.
  induction b as [|a b IH]; intros rest H Hc; [apply startsWith_nil|].
  destruct rest as [|a' rest]; [discriminate H|].
  simpl in H. apply andb_true_iff in H. destruct H as (H1 & H2).
  apply N.eqb_eq in H1. subst a'.
  simpl. destruct (a =? c)%N eqn:E.
  - apply N.eqb_eq in E. subst a. exfalso. apply Hc. now left.
  - simpl. rewrite N.eqb_refl. simpl. apply IH; [exact H2|].
    intros Hin. apply Hc. now right.
Qed.

Lemma replaceUnit_own (c : N) by_ s :
  inert c = true -> onlyOwnTags by_ = true ->
  onlyOwnTags s = true -> onlyOwnTags (replaceUnit c by_ s) = true.
Proof.
  intros Hc Hby. induction s as [|a s IH]; intros H; [reflexivity|].
  assert (Hs : onlyOwnTags s = true) by (apply (own_suffix [a] s); exact H).
  change (replaceUnit c by_ (a :: s))
    with ((if (a =? c)%N then by_ else [a]) ++ replaceUnit c by_ s).
  destruct (a =? c)%N.
  - apply own_app; [exact Hby|now apply IH].
  - apply (own_cons (replaceUnit c by_)); [|exact H|now apply IH].
    intros t b Hin -> Hb. apply replaceUnit_copy; [exact Hb|].
    now apply (inert_spec c _ b Hc Hin).
Qed.

(** *** The patterns with two delimiters *)

Lemma lazyUntil_spec D : forall s g after,
  lazyUntil D s = Some (g, after) ->
  s = g ++ D ++ after /\ Forall (fun c => isLineTerminator c = false) g.
Proof.
  induction s as [|c rest IH]; intros g after; simpl.
  - destruct (startsWith D []) eqn:E; [|discriminate].
    intros H. inversion H; subst. split; [|constructor].
    simpl. rewrite (startsWith_skipn D [] E) at 1.
    now rewrite skipn_nil.
  - destruct (startsWith D (c :: rest)) eqn:E.
    + intros H. inversion H; subst. split; [|constructor].
      simpl. exact (startsWith_skipn D (c :: rest) E).
    + destruct (isLineTerminator c) eqn:Ec; [discriminate|].
      destruct (lazyUntil D rest) as [[g' after']|]; [|discriminate].
      intros H. inversion H; subst.
      destruct (IH g' after eq_refl) as (-> & Hg). split; [reflexivity|].
      now constructor.
Qed.

Lemma delimitedAt_spec D s g after :
  delimitedAt D s = Some (g, after) ->
  s = D ++ g ++ D ++ after /\ Forall (fun c => isLineTerminator c = false) g.
Proof.
  unfold delimitedAt. destruct (startsWith D s) eqn:E; [|discriminate].
  intros H. apply lazyUntil_spec in H. destruct H as (H & Hg).
  split; [|exact Hg]. rewrite (startsWith_skipn D s E) at 1. now rewrite H.
Qed.

Lemma delimitedAt_other (d : N) D' (c : N) rest :
  c <> d -> delimitedAt (d :: D') (c :: rest) = None.
Proof.
  intros H. unfold delimitedAt. simpl.
  apply not_eq_sym in H. apply N.eqb_neq in H. now rewrite H.
Qed.

Section Wrap.

Variables (d : N) (D' opening closing : jsString).

Let D := d :: D'.

Lemma wrapAll_none : forall n s,
  ~ In d s -> wrapAll n D opening closing s = s.
Proof.
  induction n as [|n IH]; intros [|c rest] H; try reflexivity.
  cbn [wrapAll]. unfold D. rewrite delimitedAt_other.
  - f_equal. apply IH. intros Hin. apply H. now right.
  - intros ->. apply H. now left.
Qed.

Lemma wrapAll_copy b : forall n rest,
  startsWith b rest = true -> ~ In d b ->
  startsWith b (wrapAll n D opening closing rest) = true.
Proof.
  induction b as [|a b IH]; intros n rest H Hd; [apply startsWith_nil|].
  destruct rest as [|a' rest]; [discriminate H|].
  destruct n as [|n]; [exact H|].
  simpl in H. apply andb_true_iff in H. destruct H as (H1 & H2).
  apply N.eqb_eq in H1. subst a'.
  cbn [wrapAll]. unfold D. rewrite delimitedAt_other.
  - simpl. rewrite N.eqb_refl. simpl. apply IH; [exact H2|].
    intros Hin. apply Hd. now right.
  - intros ->. apply Hd. now left.
Qed.

(** Whatever is left of the fuel, the length of the string is enough. *)
Lemma wrapAll_fuel : forall n m s,
  length s <= n -> length s <= m ->
  wrapAll n D opening closing s = wrapAll m D opening closing s.
Proof.
  induction n as [|n IH]; intros m s Hn Hm.
  - destruct s; [now destruct m|simpl in Hn; lia].
  - destruct s as [|c rest]; [now destruct m|].
    destruct m as [|m]; [simpl in Hm; lia|].
    cbn [wrapAll]. destruct (delimitedAt D (c :: rest)) as [[g after]|] eqn:E.
    + apply delimitedAt_spec in E. destruct E as (E & _).
      assert (Hlen : length after < length (c :: rest)).
      { rewrite E. unfold D. rewrite !length_app. simpl. lia. }
      cbn [length] in Hn, Hm, Hlen. do 3 f_equal. apply IH; lia.
    + f_equal. cbn [length] in Hn, Hm. apply IH; lia.
Qed.

Hypothesis d_inert : inert d = true.
Hypothesis opening_own : onlyOwnTags opening = true.
Hypothesis closing_own : onlyOwnTags closing = true.

Lemma wrapAll_own : forall n s,
  onlyOwnTags s = true -> onlyOwnTags (wrapAll n D opening closing s) = true.
Proof.
  induction n as [|n IH]; intros [|c rest] H; try reflexivity; try exact H.
  cbn [wrapAll]. destruct (delimitedAt D (c :: rest)) as [[g after]|] eqn:E.
  - apply delimitedAt_spec in E. destruct E as (E & _). rewrite E in H.
    apply own_suffix in H.
    assert (Hg : onlyOwnTags g = true).
    { apply (own_cut g (D ++ after) H). intros d0 x' Hx.
      unfold D in Hx. inversion Hx as [[Hd Hr]]. rewrite <- Hd. exact d_inert. }
    assert (Ha : onlyOwnTags after = true).
    { apply own_suffix in H. now apply own_suffix in H. }
    repeat apply own_app; auto.
  - apply (own_cons (wrapAll n D opening closing)); [|exact H|].
    + intros t b Hin -> Hb. apply wrapAll_copy; [exact Hb|].
      now apply (inert_spec d _ b d_inert Hin).
    + apply IH. apply (own_suffix [c] rest). exact H.
Qed.

End Wrap.

(** *** The link pattern *)

Lemma runUntil_spec (x : N) : forall s run after,
  runUntil x s = Some (run, after) -> s = run ++ x :: after /\ ~ In x run.
Proof.
  induction s as [|c rest IH]; intros run after; simpl; [discriminate|].
  destruct (c =? x)%N eqn:E.
  - intros H. inversion H; subst. apply N.eqb_eq in E. subst c.
    split; [reflexivity|intros []].
  - destruct (runUntil x rest) as [[run' after']|]; [|discriminate].
    intros H. inversion H; subst.
    destruct (IH run' after eq_refl) as (-> & Hn). split; [reflexivity|].
    apply N.eqb_neq in E. intros [Hc|Hin]; [now apply E|now apply Hn].
Qed.

Lemma runUntil_found (x : N) run after :
  ~ In x run -> runUntil x (run ++ x :: after) = Some (run, after).
Proof.
  induction run as [|c run IH]; intros H; simpl.
  - now rewrite N.eqb_refl.
  - destruct (c =? x)%N eqn:E.
    + apply N.eqb_eq in E. subst c. exfalso. apply H. now left.
    + rewrite IH; [reflexivity|]. intros Hin. apply H. now right.
Qed.

Lemma linkAt_spec s text url after :
  linkAt s = Some (text, url, after) ->
  s = 91%N :: text ++ 93%N :: 40%N :: url ++ 41%N :: after /\
  text <> [] /\ url <> [].
Proof.
  unfold linkAt. destruct s as [|c s1]; [discriminate|].
  destruct (c =? 91)%N eqn:Ec; [|discriminate].
  apply N.eqb_eq in Ec. subst c.
  destruct (runUntil 93 s1) as [[[|a text'] [|p s2]]|] eqn:E1; try discriminate.
  destruct (p =? 40)%N eqn:Ep; [|discriminate].
  apply N.eqb_eq in Ep. subst p.
  destruct (runUntil 41 s2) as [[[|u url'] after']|] eqn:E2; try discriminate.
  intros H. inversion H; subst.
  apply runUntil_spec in E1. destruct E1 as (-> & _).
  apply runUntil_spec in E2. destruct E2 as (-> & _).
  repeat split; discriminate.
Qed.

Lemma linkAt_other (c : N) rest : c <> 91%N -> linkAt (c :: rest) = None.
Proof. intros H. unfold linkAt. apply N.eqb_neq in H. now rewrite H. Qed.

Lemma linkAt_found text url after :
  text <> [] -> url <> [] -> ~ In 93%N text -> ~ In 41%N url ->
  linkAt (91%N :: text ++ 93%N :: 40%N :: url ++ 41%N :: after) =
    Some (text, url, after).
Proof.
  intros Ht Hu Hnt Hnu. unfold linkAt. rewrite N.eqb_refl.
  rewrite (runUntil_found 93 text _ Hnt).
  destruct text as [|a text]; [contradiction|].
  rewrite N.eqb_refl. rewrite (runUntil_found 41 url _ Hnu).
  now destruct url.
Qed.

Lemma linkAll_none : forall n s, ~ In 91%N s -> linkAll n s = s.
Proof.
  induction n as [|n IH]; intros [|c rest] H; try reflexivity.
  cbn [linkAll]. rewrite linkAt_other.
  - f_equal. apply IH. intros Hin. apply H. now right.
  - intros ->. apply H. now left.
Qed.

Lemma linkAll_copy b : forall n rest,
  startsWith b rest = true -> ~ In 91%N b ->
  startsWith b (linkAll n rest) = true.
Proof.
  induction b as [|a b IH]; intros n rest H Hd; [apply startsWith_nil|].
  destruct rest as [|a' rest]; [discriminate H|].
  destruct n as [|n]; [exact H|].
  simpl in H. apply andb_true_iff in H. destruct H as (H1 & H2).
  apply N.eqb_eq in H1. subst a'.
  cbn [linkAll]. rewrite linkAt_other.
  - simpl. rewrite N.eqb_refl. simpl. apply IH; [exact H2|].
    intros Hin. apply Hd. now right.
  - intros ->. apply Hd. now left.
Qed.

Lemma linkAll_fuel : forall n m s,
  length s <= n -> length s <= m -> linkAll n s = linkAll m s.
Proof.
  induction n as [|n IH]; intros m s Hn Hm.
  - destruct s; [now destruct m|simpl in Hn; lia].
  - destruct s as [|c rest]; [now destruct m|].
    destruct m as [|m]; [simpl in Hm; lia|].
    cbn [linkAll]. destruct (linkAt (c :: rest)) as [[[text url] after]|] eqn:E.
    + apply linkAt_spec in E. destruct E as (E & _).
      assert (Hlen : length after < length (c :: rest)).
      { rewrite E. simpl. rewrite !length_app. simpl. rewrite !length_app. simpl. lia. }
      cbn [length] in Hn, Hm, Hlen. f_equal. apply IH; lia.
    + f_equal. cbn [length] in Hn, Hm. apply IH; lia.
Qed.

Lemma anchor_own text url :
  onlyOwnTags text = true -> onlyOwnTags url = true ->
  onlyOwnTags (anchor text url) = true.
Proof.
  intros Ht Hu. unfold anchor. repeat apply own_app; auto.
Qed.

Lemma linkAll_own : forall n s,
  onlyOwnTags s = true -> onlyOwnTags (linkAll n s) = true.
Proof.
  induction n as [|n IH]; intros [|c rest] H; try reflexivity; try exact H.
  cbn [linkAll]. destruct (linkAt (c :: rest)) as [[[text url] after]|] eqn:E.
  - apply linkAt_spec in E. destruct E as (E & _). rewrite E in H.
    apply (own_suffix [91%N]) in H.
    assert (Ht : onlyOwnTags text = true).
    { apply (own_cut text _ H). intros d0 x' Hx. now inversion Hx. }
    apply own_suffix in H. apply (own_suffix [93%N; 40%N]) in H.
    assert (Hu : onlyOwnTags url = true).
    { apply (own_cut url _ H). intros d0 x' Hx. now inversion Hx. }
    apply own_suffix in H. apply (own_suffix [41%N]) in H.
    apply own_app; [now apply anchor_own|now apply IH].
  - apply (own_cons (linkAll n)); [|exact H|].
    + intros t b Hin -> Hb. apply linkAll_copy; [exact Hb|].
      now apply (inert_spec 91 _ b eq_refl Hin).
    + apply IH. apply (own_suffix [c] rest). exact H.
Qed.

(** *** The escapes *)

Lemma escapeHtml_escapes content :
  Forall (fun c => c <> 60%N /\ c <> 62%N) (escapeHtml content).
Proof.
  unfold escapeHtml. apply replaceUnit_Forall.
  - vm_compute. repeat constructor; discriminate.
  - intros a Hin Ha. split; [|exact Ha].
    revert a Hin Ha.
    apply (proj1 (Forall_forall (fun a => a <> 62%N -> a <> 60%N) _)).
    apply Forall_impl with (P := fun a => a <> 60%N); [tauto|].
    apply replaceUnit_Forall.
    + vm_compute. repeat constructor; discriminate.
    + tauto.
Qed.

Lemma escapeHtml_plain content :
  Forall (fun c => isHtml c = false) content -> escapeHtml content = content.
Proof.
  intros H. unfold escapeHtml.
  assert (Hn : forall c, In c [38%N; 60%N; 62%N] -> ~ In c content).
  { intros c Hc Hin. rewrite Forall_forall in H. specialize (H c Hin).
    unfold isHtml in H. simpl in Hc.
    destruct Hc as [<-|[<-|[<-|[]]]]; discriminate H. }
  rewrite (replaceUnit_none 38); [|apply Hn; simpl; tauto].
  rewrite (replaceUnit_none 60); [|apply Hn; simpl; tauto].
  apply replaceUnit_none. apply Hn. simpl. tauto.
Qed.

Lemma escapeHtml_keeps (P : N -> Prop) content :
  Forall P (units "&amp;") -> Forall P (units "&lt;") -> Forall P (units "&gt;") ->
  Forall P content -> Forall P (escapeHtml content).
Proof.
  intros Ha Hl Hg H. unfold escapeHtml.
  repeat (apply replaceUnit_Forall; [assumption|];
          intros a Hin _; revert a Hin; apply Forall_forall).
  exact H.
Qed.

(** X19.  Whatever the message, every [<] in what [_formatMessage] returns
    begins one of the tags [_formatMessage] writes itself: [<strong>],
    [</strong>], [<em>], [</em>], [<code>], [</code>], [<a href=], [</a>]
    or [<br>].  The message itself opens no tag (what it can put inside
    the tag of a link is another matter, see X21). *)
Theorem formatMessage_writes_only_its_own_tags :
  forall content : jsString, onlyOwnTags (_formatMessage content) = true.
Proof.
  intros content. unfold _formatMessage, wrap, links. cbv zeta.
  apply replaceUnit_own; [reflexivity|reflexivity|].
  apply linkAll_own.
  do 5 (apply wrapAll_own; [reflexivity|reflexivity|reflexivity|]).
  apply own_without_lt.
  apply Forall_impl with (2 := escapeHtml_escapes content). tauto.
Qed.

(** X20.  A message without [*], [_], a backquote, [[] and a line feed is
    only escaped: [&], [<] and [>] become [&amp;], [&lt;] and [&gt;], the
    result holds neither [<] nor [>], and a message that has none of the
    three either is returned as it is. *)
Theorem formatMessage_without_markdown :
  forall content : jsString,
    Forall (fun c => isMarkdown c = false) content ->
    _formatMessage content = escapeHtml content /\
    Forall (fun c => c <> 60%N /\ c <> 62%N) (_formatMessage content) /\
    (Forall (fun c => isHtml c = false) content -> _formatMessage content = content).
Proof.
  intros content H.
  assert (He : Forall (fun c => isMarkdown c = false) (escapeHtml content)).
  { apply escapeHtml_keeps; try exact H; vm_compute; repeat constructor. }
  assert (Hn : forall c, In c [42%N; 95%N; 96%N; 91%N; 10%N] ->
                         ~ In c (escapeHtml content)).
  { intros c Hc Hin. rewrite Forall_forall in He. specialize (He c Hin).
    unfold isMarkdown in He. simpl in Hc.
    destruct Hc as [<-|[<-|[<-|[<-|[<-|[]]]]]]; discriminate He. }
  assert (E : _formatMessage content = escapeHtml content).
  { unfold _formatMessage, wrap, links. cbv zeta.
    change (units "**") with (42%N :: [42%N]).
    change (units "__") with (95%N :: [95%N]).
    change (units "*") with (42%N :: []).
    change (units "_") with (95%N :: []).
    change (units "`") with (96%N :: []).
    rewrite (wrapAll_none 42 [42%N]); [|apply Hn; simpl; tauto].
    rewrite (wrapAll_none 95 [95%N]); [|apply Hn; simpl; tauto].
    rewrite (wrapAll_none 42 []); [|apply Hn; simpl; tauto].
    rewrite (wrapAll_none 95 []); [|apply Hn; simpl; tauto].
    rewrite (wrapAll_none 96 []); [|apply Hn; simpl; tauto].
    rewrite linkAll_none; [|apply Hn; simpl; tauto].
    apply replaceUnit_none. apply Hn. simpl. tauto. }
  split; [exact E|]. rewrite E. split; [apply escapeHtml_escapes|].
  apply escapeHtml_plain.
Qed.

(** *** Links *)

Lemma notin_Forall (k : N) s : Forall (fun a => a <> k) s -> ~ In k s.
Proof. rewrite Forall_forall. intros H Hin. now apply (H k Hin). Qed.

Lemma Forall_of_notin (k : N) s : ~ In k s -> Forall (fun a => a <> k) s.
Proof. rewrite Forall_forall. intros H a Hin ->. contradiction. Qed.

Lemma isPlain_neq (c : N) :
  isPlain c = true ->
  c <> 10%N /\ c <> 38%N /\ c <> 42%N /\ c <> 60%N /\ c <> 62%N /\
  c <> 91%N /\ c <> 95%N /\ c <> 96%N.
Proof.
  unfold isPlain, isMarkdown, isHtml. rewrite negb_true_iff, !orb_false_iff.
  rewrite !N.eqb_neq. tauto.
Qed.

Lemma isPlain_Forall (k : N) s :
  In k [10%N; 38%N; 42%N; 60%N; 62%N; 91%N; 95%N; 96%N] ->
  Forall (fun c => isPlain c = true) s -> Forall (fun a => a <> k) s.
Proof.
  intros Hk. apply Forall_impl. intros a Ha. apply isPlain_neq in Ha.
  simpl in Hk. intuition congruence.
Qed.

(** A list built from plain runs, runs that avoid one unit, literals and
    single units holds no [k]. *)
Ltac units_differ :=
  try apply notin_Forall;
  repeat first [ apply Forall_app; split
               | apply Forall_cons; [discriminate|]
               | apply Forall_nil ];
  try (apply Forall_of_notin; assumption);
  try (apply isPlain_Forall; [simpl; tauto|assumption]);
  try (vm_compute; repeat (apply Forall_cons; [discriminate|]); apply Forall_nil).

Section WrapSteps.

Variables (d : N) (D' opening closing : jsString).

Let D := d :: D'.

Lemma wrap_none s : ~ In d s -> wrap D opening closing s = s.
Proof. apply wrapAll_none. Qed.

Lemma wrap_other (a : N) s :
  delimitedAt D (a :: s) = None ->
  wrap D opening closing (a :: s) = a :: wrap D opening closing s.
Proof. intros H. unfold wrap. cbn [length wrapAll]. now rewrite H. Qed.

Lemma wrap_match s g after :
  delimitedAt D s = Some (g, after) ->
  wrap D opening closing s = opening ++ g ++ closing ++ wrap D opening closing after.
Proof.
  intros H. unfold wrap. destruct s as [|c rest]; [discriminate H|].
  cbn [length wrapAll]. rewrite H. do 3 f_equal.
  apply wrapAll_fuel; [|lia].
  apply delimitedAt_spec in H. destruct H as (H & _).
  apply (f_equal (@length N)) in H. unfold D in H.
  rewrite !length_app in H. simpl in H. lia.
Qed.

Lemma wrap_skip pre s :
  ~ In d pre ->
  wrap D opening closing (pre ++ s) = pre ++ wrap D opening closing s.
Proof.
  induction pre as [|a pre IH]; intros H; [reflexivity|].
  change ((a :: pre) ++ s) with (a :: (pre ++ s)).
  rewrite wrap_other.
  - simpl. f_equal. apply IH. intros Hin. apply H. now right.
  - unfold D. apply delimitedAt_other. intros ->. apply H. now left.
Qed.

End WrapSteps.

Lemma lazyUntil_found (d : N) q after :
  ~ In d q -> Forall (fun c => isLineTerminator c = false) q ->
  lazyUntil [d] (q ++ d :: after) = Some (q, after).
Proof.
  intros Hd Hq. induction Hq as [|a q Ha _ IH]; simpl.
  - now rewrite N.eqb_refl.
  - destruct (d =? a)%N eqn:E.
    + apply N.eqb_eq in E. subst a. exfalso. apply Hd. now left.
    + simpl. rewrite Ha, IH; [reflexivity|]. intros Hin. apply Hd. now right.
Qed.

Lemma delimitedAt_found (d : N) q after :
  ~ In d q -> Forall (fun c => isLineTerminator c = false) q ->
  delimitedAt [d] (d :: q ++ d :: after) = Some (q, after).
Proof.
  intros Hd Hq. unfold delimitedAt. simpl. rewrite N.eqb_refl. simpl.
  now apply lazyUntil_found.
Qed.

(** One pair of single delimiters is no match for the doubled one. *)
Lemma wrap_doubled_absent (d : N) opening closing A q B :
  ~ In d A -> ~ In d q -> q <> [] -> ~ In d B -> B <> [] ->
  wrap [d; d] opening closing (A ++ d :: q ++ d :: B) = A ++ d :: q ++ d :: B.
Proof.
  intros HA Hq Hq0 HB HB0.
  assert (Hstep : forall (a : N) x, a <> d ->
            delimitedAt [d; d] (d :: a :: x) = None).
  { intros a x Ha. unfold delimitedAt. simpl. rewrite N.eqb_refl.
    apply not_eq_sym in Ha. apply N.eqb_neq in Ha. now rewrite Ha. }
  rewrite (wrap_skip d [d]); [|exact HA]. f_equal.
  destruct q as [|q0 q]; [contradiction|].
  change ((q0 :: q) ++ d :: B) with (q0 :: (q ++ d :: B)).
  rewrite (wrap_other d [d]).
  2:{ apply Hstep. intros ->. apply Hq. now left. }
  f_equal. change (q0 :: (q ++ d :: B)) with ((q0 :: q) ++ d :: B).
  rewrite (wrap_skip d [d]); [|exact Hq]. f_equal.
  destruct B as [|b0 B]; [contradiction|].
  rewrite (wrap_other d [d]).
  2:{ apply Hstep. intros ->. apply HB. now left. }
  f_equal. apply (wrap_none d [d]). exact HB.
Qed.

Lemma links_none s : ~ In 91%N s -> links s = s.
Proof. apply linkAll_none. Qed.

Lemma links_other (a : N) s :
  linkAt (a :: s) = None -> links (a :: s) = a :: links s.
Proof. intros H. unfold links. cbn [length linkAll]. now rewrite H. Qed.

Lemma links_match s text url after :
  linkAt s = Some (text, url, after) ->
  links s = anchor text url ++ links after.
Proof.
  intros H. unfold links. destruct s as [|c rest]; [discriminate H|].
  cbn [length linkAll]. rewrite H. f_equal.
  apply linkAll_fuel; [|lia].
  apply linkAt_spec in H. destruct H as (H & _).
  apply (f_equal (@length N)) in H. simpl in H.
  rewrite !length_app in H. simpl in H. rewrite !length_app in H. simpl in H. lia.
Qed.

Lemma links_skip pre s : ~ In 91%N pre -> links (pre ++ s) = pre ++ links s.
Proof.
  induction pre as [|a pre IH]; intros H; [reflexivity|].
  change ((a :: pre) ++ s) with (a :: (pre ++ s)).
  rewrite links_other.
  - simpl. f_equal. apply IH. intros Hin. apply H. now right.
  - apply linkAt_other. intros ->. apply H. now left.
Qed.

Lemma linkSource_eq text url post :
  linkSource text url ++ post =
  91%N :: text ++ 93%N :: 40%N :: url ++ 41%N :: post.
Proof.
  unfold linkSource. change (units "[") with [91%N].
  change (units "](") with [93%N; 40%N]. change (units ")") with [41%N].
  simpl. rewrite <- app_assoc. simpl. rewrite <- app_assoc. reflexivity.
Qed.

(** X21.  A link [[text](url)] between plain text becomes an anchor whose
    [href] is the target as it was written: the units of the target are
    copied between the two quotes without any escaping, so a double quote
    in the target ends the attribute there. *)
Theorem link_target_is_copied :
  forall pre text url post : jsString,
    Forall (fun c => isPlain c = true) pre ->
    Forall (fun c => isPlain c = true) text ->
    Forall (fun c => isPlain c = true) url ->
    Forall (fun c => isPlain c = true) post ->
    text <> [] -> url <> [] ->
    ~ In 93%N text -> ~ In 41%N url ->
    _formatMessage (pre ++ linkSource text url ++ post) =
      pre ++ units "<a href=" ++ quote ++ url ++ quote ++
      units " target=" ++ quote ++ units "_blank" ++ quote ++
      units " rel=" ++ quote ++ units "noopener noreferrer" ++ quote ++
      units ">" ++ text ++ units "</a>" ++ post.
Proof.
  intros pre text url post Hpre Htext Hurl Hpost Ht0 Hu0 Ht Hu.
  rewrite linkSource_eq.
  unfold _formatMessage. cbv zeta.
  rewrite escapeHtml_plain.
  2:{ apply Forall_forall. intros c Hin. unfold isHtml.
      rewrite !orb_false_iff, !N.eqb_neq.
      repeat split; revert c Hin; apply Forall_forall; units_differ. }
  change (units "**") with (42%N :: [42%N]).
  change (units "__") with (95%N :: [95%N]).
  change (units "*") with (42%N :: []).
  change (units "_") with (95%N :: []).
  change (units "`") with (96%N :: []).
  rewrite (wrap_none 42 [42%N]) by units_differ.
  rewrite (wrap_none 95 [95%N]) by units_differ.
  rewrite (wrap_none 42 []) by units_differ.
  rewrite (wrap_none 95 []) by units_differ.
  rewrite (wrap_none 96 []) by units_differ.
  rewrite links_skip by units_differ.
  rewrite (links_match _ text url post) by now apply linkAt_found.
  rewrite links_none by units_differ.
  rewrite replaceUnit_none.
  - unfold anchor. now rewrite <- !app_assoc.
  - unfold anchor, quote. units_differ.
Qed.

(** X22.  The underscores of a link target are taken for emphasis before
    the link is looked for: in [[text](p_q_r)] the target that reaches the
    [href] is [p<em>q</em>r]. *)
Theorem link_target_with_underscores :
  forall text p q r : jsString,
    Forall (fun c => isPlain c = true) text ->
    Forall (fun c => isPlain c = true) p ->
    Forall (fun c => isPlain c = true) q ->
    Forall (fun c => isPlain c = true) r ->
    Forall (fun c => isLineTerminator c = false) q ->
    text <> [] -> q <> [] ->
    ~ In 93%N text -> ~ In 41%N p -> ~ In 41%N q -> ~ In 41%N r ->
    _formatMessage (linkSource text (p ++ units "_" ++ q ++ units "_" ++ r)) =
      anchor text (p ++ units "<em>" ++ q ++ units "</em>" ++ r).
Proof.
  intros text p q r Htext Hp Hq Hr Hline Ht0 Hq0 Ht Hp1 Hq1 Hr1.
  rewrite <- (app_nil_r (linkSource _ _)), linkSource_eq.
  change (units "_") with [95%N].
  unfold _formatMessage. cbv zeta.
  rewrite escapeHtml_plain.
  2:{ apply Forall_forall. intros c Hin. unfold isHtml.
      rewrite !orb_false_iff, !N.eqb_neq.
      repeat split; revert c Hin; apply Forall_forall; units_differ. }
  change (units "**") with (42%N :: [42%N]).
  change (units "__") with [95%N; 95%N].
  change (units "*") with (42%N :: []).
  change (units "`") with (96%N :: []).
  rewrite (wrap_none 42 [42%N]) by units_differ.
  assert (Eshape : 91%N :: text ++ 93%N :: 40%N :: (p ++ [95%N] ++ q ++ [95%N] ++ r) ++ [41%N] =
                   (91%N :: text ++ 93%N :: 40%N :: p) ++ 95%N :: q ++ 95%N :: (r ++ [41%N])).
  { simpl. rewrite <- !app_assoc. simpl. rewrite <- !app_assoc. reflexivity. }
  rewrite Eshape.
  rewrite wrap_doubled_absent; try assumption; try units_differ;
    try (intros E; apply app_eq_nil in E; destruct E as (_ & E); discriminate E).
  rewrite (wrap_none 42 []) by units_differ.
  rewrite (wrap_skip 95 []) by units_differ.
  rewrite (wrap_match 95 [] _ _ _ q (r ++ [41%N])).
  2:{ apply delimitedAt_found; [units_differ|exact Hline]. }
  rewrite (wrap_none 95 []) by units_differ.
  rewrite (wrap_none 96 []) by units_differ.
  assert (Eshape2 :
    (91%N :: text ++ 93%N :: 40%N :: p) ++ units "<em>" ++ q ++ units "</em>" ++ r ++ [41%N] =
    91%N :: text ++ 93%N :: 40%N :: (p ++ units "<em>" ++ q ++ units "</em>" ++ r) ++ 41%N :: []).
  { simpl. rewrite <- !app_assoc. simpl. rewrite <- !app_assoc. reflexivity. }
  rewrite Eshape2.
  rewrite (links_match _ text (p ++ units "<em>" ++ q ++ units "</em>" ++ r) []).
  2:{ apply linkAt_found; try assumption; try units_differ.
      intros E. apply app_eq_nil in E. destruct E as (_ & E). discriminate E. }
  change (links []) with (@nil N). rewrite app_nil_r.
  apply replaceUnit_none. unfold anchor, quote. units_differ.
Qed.

End Rendering.

(** ** The widget *)

Section Widget.

Import ChatManager.

Context {W : Type} {CL : Clock W}.

Local Open Scope list_scope.

Implicit Types m : @ChatManager.t W.

Lemma addMessageNow_fields role content m :
  let m' := addMessageNow role content m in
  requests m' = requests m /\ pending m' = pending m /\
  sessionId m' = sessionId m /\ isConnected m' = isConnected m /\
  isOpen m' = isOpen m /\ welcomeMessage m' = welcomeMessage m /\
  ChatWindow.isOpen (chatUI m') = ChatWindow.isOpen (chatUI m) /\
  ChatWindow.typing (chatUI m') = ChatWindow.typing (chatUI m) /\
  ChatWindow.messageCount (chatUI m') = S (ChatWindow.messageCount (chatUI m)) /\
  ChatWindow.messages (chatUI m') =
    ChatWindow.messages (chatUI m) ++
    [{| ChatWindow.className := role;
        ChatWindow.text := ChatUI._formatMessage content;
        ChatWindow.time := fst (newDate (world m)) |}].
Proof.
  unfold addMessageNow. destruct (newDate (world m)) as [now w].
  cbn. now repeat split.
Qed.

Lemma sendMessage_send_fields message m :
  isBlank message = false ->
  let m' := sendMessage_send message m in
  requests m' = requests m ++ [SendMessage (sessionPath m) message] /\
  pending m' = pending m ++ [AwaitSendMessage] /\
  sessionId m' = sessionId m /\ isConnected m' = isConnected m /\
  isOpen m' = isOpen m /\ welcomeMessage m' = welcomeMessage m /\
  ChatWindow.isOpen (chatUI m') = ChatWindow.isOpen (chatUI m) /\
  ChatWindow.typing (chatUI m') = true /\
  ChatWindow.messageCount (chatUI m') = S (ChatWindow.messageCount (chatUI m)) /\
  ChatWindow.messages (chatUI m') =
    ChatWindow.messages (chatUI m) ++
    [{| ChatWindow.className := ChatWindow.user;
        ChatWindow.text := ChatUI._formatMessage message;
        ChatWindow.time := fst (newDate (world m)) |}].
Proof.
  intros Hb. unfold sendMessage_send. rewrite Hb. cbv zeta.
  destruct (addMessageNow_fields ChatWindow.user message m)
    as (H1 & H2 & H3 & H4 & H5 & H6 & H7 & H8 & H9 & H10).
  set (m1 := addMessageNow ChatWindow.user message m) in *.
  unfold await, sessionPath. cbn. rewrite H1, H2, H3, H4, H5, H6, H7, H9, H10.
  now repeat split.
Qed.

Lemma forallb_removeAt {A} (f : A -> bool) (i : nat) : forall (l : list A) (a : A),
  nth_error l i = Some a -> f a = true ->
  forallb f (removeAt i l) = true -> forallb f l = true.
Proof.
  induction i as [|i IH]; intros [|x l] a Hn Ha H; try discriminate Hn.
  - simpl in *. inversion Hn; subst. now rewrite Ha.
  - simpl in *. apply andb_true_iff in H. destruct H as (Hx & H).
    rewrite Hx. simpl. now apply (IH l a).
Qed.

Lemma forallb_snoc {A} (f : A -> bool) (l : list A) (a : A) :
  forallb f (l ++ [a]) = forallb f l && f a.
Proof. rewrite forallb_app. simpl. now rewrite andb_true_r. Qed.

Lemma Consistent_addMessageNow role content m :
  Consistent m -> Consistent (addMessageNow role content m).
Proof.
  intros (H1 & H2 & H3 & H4 & H5).
  destruct (addMessageNow_fields role content m)
    as (_ & E2 & _ & E4 & E5 & _ & E7 & E8 & E9 & E10).
  cbv zeta in *. unfold Consistent.
  rewrite E2, E4, E5, E7, E8, E9, E10, length_app. simpl.
  split; [exact H1|]. split; [lia|]. split; [|now split].
  apply Forall_app. split; [exact H3|].
  constructor; [|constructor]. now exists content.
Qed.

Lemma Consistent_send message m :
  Consistent m -> Consistent (sendMessage_send message m).
Proof.
  intros H. destruct (isBlank message) eqn:Hb.
  - unfold sendMessage_send. now rewrite Hb.
  - destruct H as (H1 & H2 & H3 & H4 & H5).
    destruct (sendMessage_send_fields message m Hb)
      as (_ & E2 & _ & E4 & E5 & _ & E7 & E8 & E9 & E10).
    cbv zeta in *. unfold Consistent.
    rewrite E2, E4, E5, E7, E8, E9, E10, length_app, forallb_snoc. simpl.
    split; [exact H1|]. split; [lia|]. split.
    + apply Forall_app. split; [exact H3|].
      constructor; [|constructor]. now exists message.
    + split; [|exact H5]. rewrite andb_false_r. discriminate.
Qed.

(** A call that was not waiting for an answer to a message ends or goes
    on. *)
Lemma Consistent_finish (i : nat) (lane : Lane) m :
  nth_error (pending m) i = Some lane -> sending lane = false ->
  Consistent m -> Consistent (finish i m).
Proof.
  intros Hn Hl (H1 & H2 & H3 & H4 & H5). unfold Consistent, finish. cbn.
  repeat split; try assumption.
  intros H. apply H4.
  apply (forallb_removeAt _ i _ lane Hn); [now rewrite Hl|exact H].
Qed.

Lemma Consistent_exec (e : Event) m : Consistent m -> Consistent (exec e m).
Proof.
  intros H. destruct e as [| |message| |i outcome|i outcome|i outcome]; cbn [exec].
  - (* toggle *)
    pose proof H as (H1 & H2 & H3 & H4 & H5).
    unfold toggle, open, close. rewrite H5. cbn [negb].
    destruct (isOpen m).
    + unfold Consistent. cbn. now repeat split.
    + set (m1 := with_isOpen true _).
      assert (Hm1 : Consistent m1) by (unfold Consistent; cbn; now repeat split).
      destruct (ChatWindow.getMessageCount (chatUI m1) =? 0); [|exact Hm1].
      now apply Consistent_addMessageNow.
  - destruct H as (H1 & H2 & H3 & H4 & H5).
    unfold close, Consistent. cbn. now repeat split.
  - pose proof H as (H1 & H2 & H3 & H4 & H5).
    unfold sendMessage. rewrite H5. cbn [negb].
    destruct (hasSession m); cbn [negb]; [now apply Consistent_send|].
    unfold Consistent, await. cbn. rewrite forallb_snoc. cbn.
    rewrite andb_true_r. now repeat split.
  - pose proof H as (H1 & H2 & H3 & H4 & H5).
    unfold clearHistory, clearHistory_create.
    destruct (hasSession m); unfold Consistent, await; cbn;
      rewrite forallb_snoc; cbn; rewrite andb_true_r; now repeat split.
  - unfold sessionSettles.
    destruct (nth_error (pending m) i) as [[message| | |]|] eqn:Hn;
      try exact H; destruct outcome as [id|err]; try exact H.
    + apply Consistent_send.
      pose proof (Consistent_finish i _ m Hn eq_refl H) as (H1 & H2 & H3 & H4 & H5).
      unfold Consistent. cbn in *. now repeat split.
    + pose proof (Consistent_finish i _ m Hn eq_refl H) as (H1 & H2 & H3 & H4 & H5).
      unfold Consistent, _showConnectionError. cbn in *. now repeat split.
    + cbv zeta. apply Consistent_addMessageNow.
      pose proof (Consistent_finish i _ m Hn eq_refl H) as (H1 & H2 & H3 & H4 & H5).
      unfold Consistent. cbn in *. now repeat split.
    + now apply (Consistent_finish i AwaitNewSession).
  - unfold messageSettles.
    destruct (nth_error (pending m) i) as [[message| | |]|] eqn:Hn;
      try exact H; destruct outcome as [[response timestamp]|err];
      destruct H as (H1 & H2 & H3 & H4 & H5).
    + unfold Consistent. cbn. rewrite length_app. cbn.
      split; [exact H1|]. split; [lia|]. split; [|now split].
      apply Forall_app. split; [exact H3|].
      constructor; [|constructor]. now exists response.
    + cbv zeta. apply Consistent_addMessageNow.
      unfold Consistent. cbn. now repeat split.
  - unfold deleteSettles.
    destruct (nth_error (pending m) i) as [[message| | |]|] eqn:Hn;
      try exact H; destruct outcome as [u|err].
    + pose proof (Consistent_finish i _ m Hn eq_refl H) as (H1 & H2 & H3 & H4 & H5).
      unfold clearHistory_create, Consistent, await. cbn in *.
      rewrite forallb_snoc. cbn. rewrite andb_true_r. now repeat split.
    + now apply (Consistent_finish i AwaitDeleteSession).
Qed.

(** X23.  Between any two events of a widget that got its connection, the
    manager and its [ChatUI] agree on whether the window is open,
    [messageCount] is the number of messages in the window, the text of
    each of them is what [_formatMessage] made of a content, and the
    typing indicator is off when no call waits for the answer to a
    message. *)
Theorem widget_stays_consistent :
  forall (welcome : ChatUI.jsString) (w : W) (events : list Event),
    let m := run events (connected welcome w) in
    isOpen m = ChatWindow.isOpen (chatUI m) /\
    ChatWindow.getMessageCount (chatUI m) = length (ChatWindow.messages (chatUI m)) /\
    Forall (fun el => exists content,
              ChatWindow.text el = ChatUI._formatMessage content)
      (ChatWindow.messages (chatUI m)) /\
    (forallb (fun lane => negb (sending lane)) (pending m) = true ->
     ChatWindow.typing (chatUI m) = false).
Proof.
  intros welcome w events.
  assert (H : forall m0 : @ChatManager.t W, Consistent m0 -> Consistent (run events m0)).
  { induction events as [|e events IH]; intros m0 H0; [exact H0|].
    apply IH. now apply Consistent_exec. }
  destruct (H (connected welcome w)) as (H1 & H2 & H3 & H4 & _).
  - unfold Consistent. cbn. now repeat split.
  - now repeat split.
Qed.

(** X24.  Two messages sent before the widget has a session, the second
    before the first has its session, lead to two sessions: each call asks
    for a session of its own and sends its message to the one it gets, and
    the manager keeps the id that arrived last.  When the second message
    is sent after the first has its session, both go to that session. *)
Theorem first_messages_can_split :
  forall m (first second : ChatUI.jsString) (id1 id2 : string),
    isConnected m = true -> hasSession m = false -> pending m = [] ->
    isBlank first = false -> isBlank second = false -> id1 <> ""%string ->
    let overlapped :=
      run [MessageSend first; MessageSend second;
           SessionSettles 0 (Ok id1); SessionSettles 0 (Ok id2)] m in
    let in_turn :=
      run [MessageSend first; SessionSettles 0 (Ok id1); MessageSend second] m in
    requests overlapped =
      requests m ++ [CreateSession; CreateSession;
                     SendMessage id1 first; SendMessage id2 second] /\
    sessionId overlapped = Some id2 /\
    pending overlapped = [AwaitSendMessage; AwaitSendMessage] /\
    requests in_turn =
      requests m ++ [CreateSession; SendMessage id1 first; SendMessage id1 second] /\
    sessionId in_turn = Some id1.
Proof.
  intros m first second id1 id2 Hc Hs Hp Hf Hsd Hid.
  assert (Hstart : forall msg m0,
            isConnected m0 = true -> hasSession m0 = false ->
            sendMessage msg m0 = await CreateSession (AwaitCreateSession msg) m0).
  { intros msg m0 H1 H2. unfold sendMessage. now rewrite H1, H2. }
  cbv zeta. unfold run. cbn [fold_left exec].
  rewrite (Hstart first m Hc Hs).
  set (m1 := await CreateSession (AwaitCreateSession first) m).
  assert (Hp1 : pending m1 = [AwaitCreateSession first]) by (cbn; now rewrite Hp).
  assert (Hover :
    let m' := sessionSettles 0 (Ok id2)
                (sessionSettles 0 (Ok id1) (sendMessage second m1)) in
    requests m' =
      requests m ++ [CreateSession; CreateSession;
                     SendMessage id1 first; SendMessage id2 second] /\
    sessionId m' = Some id2 /\
    pending m' = [AwaitSendMessage; AwaitSendMessage]).
  { rewrite (Hstart second m1) by assumption.
    set (m2 := await CreateSession (AwaitCreateSession second) m1).
    unfold sessionSettles at 2.
    assert (Hp2 : pending m2 = [AwaitCreateSession first; AwaitCreateSession second])
      by (cbn; now rewrite Hp).
    rewrite Hp2. cbn [nth_error].
    set (m3 := with_sessionId (Some id1) (finish 0 m2)).
    destruct (sendMessage_send_fields first m3 Hf)
      as (R3 & P3 & _ & _). cbv zeta in R3, P3.
    set (m4 := sendMessage_send first m3) in *.
    unfold sessionSettles.
    assert (Hp4 : pending m4 = [AwaitCreateSession second; AwaitSendMessage]).
    { rewrite P3. cbn. now rewrite Hp. }
    rewrite Hp4. cbn [nth_error].
    set (m5 := with_sessionId (Some id2) (finish 0 m4)).
    destruct (sendMessage_send_fields second m5 Hsd) as (R5 & P5 & S5 & _).
    cbv zeta in R5, P5, S5. rewrite R5, P5, S5. cbn. rewrite R3, Hp4. cbn.
    rewrite <- !app_assoc. now repeat split. }
  assert (Hturn :
    let m' := sendMessage second (sessionSettles 0 (Ok id1) m1) in
    requests m' =
      requests m ++ [CreateSession; SendMessage id1 first; SendMessage id1 second] /\
    sessionId m' = Some id1).
  { unfold sessionSettles. rewrite Hp1. cbn [nth_error].
    set (m3 := with_sessionId (Some id1) (finish 0 m1)).
    destruct (sendMessage_send_fields first m3 Hf)
      as (R3 & _ & S3 & C3 & _). cbv zeta in R3, S3, C3.
    set (m4 := sendMessage_send first m3) in *.
    assert (Hs4 : hasSession m4 = true).
    { unfold hasSession. rewrite S3. cbn.
      destruct (String.eqb id1 "") eqn:E; [|reflexivity].
      apply String.eqb_eq in E. contradiction. }
    unfold sendMessage. rewrite C3.
    change (isConnected m3) with (isConnected m). rewrite Hc, Hs4. cbn [negb].
    destruct (sendMessage_send_fields second m4 Hsd) as (R5 & _ & S5 & _).
    cbv zeta in R5, S5. rewrite R5, S5, R3. unfold sessionPath. rewrite S3. cbn.
    rewrite <- !app_assoc. now split. }
  cbv zeta in Hover, Hturn.
  destruct Hover as (O1 & O2 & O3). destruct Hturn as (T1 & T2).
  now repeat split.
Qed.

(** X25.  [clearHistory] when a request fails.  If the session cannot be
    deleted, nothing changes.  If it is deleted and no new one can be
    created, nothing changes either: the window keeps its messages and the
    manager keeps the id of the session it has just deleted, to which the
    next message is sent.  If both succeed, the manager has the new id and
    the window shows the welcome message alone. *)
Theorem clearHistory_outcomes :
  forall m (old : string) (e : string),
    isConnected m = true -> sessionId m = Some old -> old <> ""%string ->
    pending m = [] ->
    let kept := run [ClearHistory; DeleteSettles 0 (Err e)] m in
    let stale := run [ClearHistory; DeleteSettles 0 (Ok tt); SessionSettles 0 (Err e)] m in
    (requests kept = requests m ++ [DeleteSession old] /\
     sessionId kept = Some old /\ chatUI kept = chatUI m /\ pending kept = []) /\
    (requests stale = requests m ++ [DeleteSession old; CreateSession] /\
     sessionId stale = Some old /\ chatUI stale = chatUI m /\ pending stale = [] /\
     forall message, isBlank message = false ->
       requests (exec (MessageSend message) stale) =
         requests stale ++ [SendMessage old message]) /\
    (forall id,
       let fresh := run [ClearHistory; DeleteSettles 0 (Ok tt);
                         SessionSettles 0 (Ok id)] m in
       sessionId fresh = Some id /\
       ChatWindow.messages (chatUI fresh) =
         [{| ChatWindow.className := ChatWindow.assistant;
             ChatWindow.text := ChatUI._formatMessage (welcomeMessage m);
             ChatWindow.time := fst (newDate (world m)) |}] /\
       ChatWindow.getMessageCount (chatUI fresh) = 1 /\ pending fresh = []).
Proof.
  intros m old e Hc Hs Hold Hp.
  assert (Hhas : hasSession m = true).
  { unfold hasSession. rewrite Hs.
    destruct (String.eqb old "") eqn:E; [|reflexivity].
    apply String.eqb_eq in E. contradiction. }
  assert (Hclear : clearHistory m = await (DeleteSession old) AwaitDeleteSession m).
  { unfold clearHistory, sessionPath. now rewrite Hhas, Hs. }
  cbv zeta. unfold run. cbn [fold_left exec]. rewrite Hclear.
  set (m1 := await (DeleteSession old) AwaitDeleteSession m).
  assert (Hp1 : pending m1 = [AwaitDeleteSession]) by (cbn; now rewrite Hp).
  assert (Hdel : deleteSettles 0 (Ok tt) m1 =
                 clearHistory_create (finish 0 m1)).
  { unfold deleteSettles. now rewrite Hp1. }
  set (m2 := clearHistory_create (finish 0 m1)) in *.
  assert (Hp2 : pending m2 = [AwaitNewSession]) by (cbn; now rewrite Hp).
  split; [|split].
  - unfold deleteSettles. rewrite Hp1. cbn. now rewrite Hp.
  - rewrite Hdel. unfold sessionSettles. rewrite Hp2. cbn [nth_error].
    assert (Hfields : requests (finish 0 m2) = requests m ++ [DeleteSession old; CreateSession] /\
                      sessionId (finish 0 m2) = Some old /\
                      chatUI (finish 0 m2) = chatUI m /\ pending (finish 0 m2) = []).
    { cbn. rewrite Hp. cbn. rewrite <- app_assoc. now repeat split. }
    destruct Hfields as (F1 & F2 & F3 & F4).
    split; [exact F1|]. split; [exact F2|]. split; [exact F3|]. split; [exact F4|].
    intros message Hb. cbn [exec]. unfold sendMessage.
    change (isConnected (finish 0 m2)) with (isConnected m). rewrite Hc.
    assert (H2 : hasSession (finish 0 m2) = true) by exact Hhas.
    rewrite H2. cbn [negb].
    destruct (sendMessage_send_fields message (finish 0 m2) Hb) as (R & _).
    cbv zeta in R. rewrite R. unfold sessionPath. now rewrite F2.
  - intros id. rewrite Hdel. unfold sessionSettles. rewrite Hp2. cbn [nth_error].
    cbv zeta.
    set (m3 := with_chatUI _ (with_sessionId (Some id) (finish 0 m2))).
    destruct (addMessageNow_fields ChatWindow.assistant (welcomeMessage m3) m3)
      as (_ & P & S & _ & _ & _ & _ & _ & C & M).
    cbv zeta in P, S, C, M. unfold ChatWindow.getMessageCount.
    rewrite P, S, C, M. cbn. rewrite Hp. now repeat split.
Qed.

End Widget.

(** ** The properties above, on scripted runs *)

Ltac feed H tac :=
  match type of H with
  | ?A -> _ => let h := fresh in assert (h : A) by tac; specialize (H h); clear h
  end.


Lemma created_then_deleted_witness :
  let created := snd (createSession (Some "s1") (Scripted.started Scripted.quiet)) in
  getHistory "s1" created = Ok [] /\
  sessions (snd (deleteSession "s1" created)) = [] /\
  fst (sendMessage "s1" "Hello" (snd (deleteSession "s1" created))) =
    Err "Session s1 not found".
Proof.
  assert (H := created_then_deleted (Scripted.started Scripted.quiet) (Some "s1")).
  vm_compute in H. specialize (H _ _ eq_refl).
  destruct H as (H1 & _ & _ & H4). specialize (H4 _ eq_refl).
  destruct H4 as (H5 & _ & _ & H6). specialize (H6 "Hello").
  split; [vm_compute; exact H1|]. split; [vm_compute; exact H5|].
  exact (f_equal fst H6).
Defined.

Lemma nothing_before_initialize_witness :
  sessions (run Staged.early (constructor None Scripted.quiet)) = [] /\
  trace (run Staged.early (constructor None Scripted.quiet)) = [] /\
  fst (createSession (Some "a") (run Staged.early (constructor None Scripted.quiet))) =
    Err notInitializedError.
Proof.
  assert (H := nothing_before_initialize None Scripted.quiet Staged.early eq_refl).
  destruct H as (_ & Hs & _ & _ & Ht & Hc & _).
  split; [exact Hs|]. split; [exact Ht|]. now rewrite Hc.
Defined.

Lemma history_only_grows_witness :
  let s := run Staged.asking (constructor None Scripted.quiet) in
  exists h more,
    getHistory "a" s = Ok h /\ h <> [] /\
    getHistory "a" (run [PromptSettles 0; Resume 0] s) = Ok (h ++ more)%list.
Proof.
  assert (H := history_only_grows None Scripted.quiet Staged.asking
                 [PromptSettles 0; Resume 0] "a").
  vm_compute in H. specialize (H _ _ eq_refl eq_refl eq_refl).
  destruct H as ((more & Hm) & _).
  vm_compute. eexists. exists more.
  split; [reflexivity|]. split; [discriminate|].
  f_equal. exact Hm.
Defined.

Lemma overlapping_creates_exceed_ceiling_witness :
  let s1 := snd (createSession_begin (Some "x") Staged.nine) in
  let s2 := snd (createSession_begin (Some "y") s1) in
  let s3 := snd (createSession_resume "x" s2) in
  let s4 := snd (createSession_resume "y" s3) in
  JsMap.size (sessions Staged.nine) = 9 /\
  maxConcurrentSessions s4 = 10 /\
  JsMap.size (sessions s4) = 11.
Proof.
  assert (H := overlapping_creates_exceed_ceiling Staged.nine "x" "y").
  feed H ltac:(vm_compute; reflexivity).
  feed H ltac:(vm_compute; reflexivity).
  feed H ltac:(discriminate). feed H ltac:(discriminate). feed H ltac:(discriminate).
  feed H ltac:(vm_compute; reflexivity).
  feed H ltac:(vm_compute; reflexivity).
  feed H ltac:(intros w; reflexivity).
  feed H ltac:(intros c w; reflexivity).
  destruct H as (_ & _ & _ & _ & _ & _ & H & _).
  split; [vm_compute; reflexivity|]. split; [vm_compute; reflexivity|].
  vm_compute in H. vm_compute. exact H.
Defined.

Lemma overlapping_creates_same_id_witness :
  let s := Scripted.started Scripted.quiet in
  let s1 := snd (createSession_begin (Some "a") s) in
  let s2 := snd (createSession_begin (Some "a") s1) in
  let s3 := snd (createSession_resume "a" s2) in
  let s4 := snd (createSession_resume "a" s3) in
  fst (createSession_resume "a" s3) = Ok "a" /\
  (exists d1 d2, sessions s3 = [("a", d1)] /\ sessions s4 = [("a", d2)] /\
                 context d1 = Some 0 /\ context d2 = Some 1) /\
  fst (createSession (Some "a") (snd (createSession (Some "a") s))) =
    Err (duplicateError "a").
Proof.
  assert (H := overlapping_creates_same_id (Scripted.started Scripted.quiet) "a").
  feed H ltac:(vm_compute; reflexivity).
  feed H ltac:(vm_compute; lia).
  feed H ltac:(discriminate).
  feed H ltac:(vm_compute; reflexivity).
  feed H ltac:(intros w; reflexivity).
  feed H ltac:(intros c w; reflexivity).
  destruct H as (_ & _ & _ & H4 & _ & _ & H7).
  feed H7 ltac:(vm_compute; lia).
  split; [vm_compute in H4; vm_compute; exact H4|].
  split; [|vm_compute in H7; vm_compute; exact H7].
  vm_compute. eexists. eexists. repeat split; reflexivity.
Defined.

Lemma closing_StoreInv : StoreInv Staged.closing.
Proof.
  unfold StoreInv. vm_compute.
  repeat (constructor; [simpl; intuition discriminate|]). constructor.
Qed.

Lemma cleanup_leaves_witness :
  JsMap.keys (sessions Staged.closing) = ["a"; "b"] /\
  length (processingQueue Staged.closing) = 2 /\
  processingQueue (cleanup Staged.closing) = [] /\
  isInitialized (cleanup Staged.closing) = false /\
  JsMap.keys (sessions (cleanup Staged.closing)) = ["a"] /\
  lanes (cleanup Staged.closing) = lanes Staged.closing.
Proof.
  assert (H := cleanup_leaves Staged.closing closing_StoreInv).
  destruct H as (H1 & H2 & _ & H4 & _).
  split; [vm_compute; reflexivity|]. split; [vm_compute; reflexivity|].
  split; [exact H1|]. split; [exact H2|]. split; [vm_compute; reflexivity|exact H4].
Defined.

Lemma cleanup_drops_queued_requests_witness :
  let s := run Staged.opening (constructor None
             {| Scripted.clock := []; Scripted.uuids := []; Scripted.contexts := 0;
                Scripted.unreleasable := [0]; Scripted.answers := [] |}) in
  queued s = [1; 2] /\
  settled (trace (run (drain 3) s)) = [0; 1; 2] /\
  settled (trace (run (drain 3) (cleanup s))) = [0] /\
  ~ In 1 (settled (trace (run (drain 3) (cleanup s)))).
Proof.
  assert (H := cleanup_drops_queued_requests None
                 {| Scripted.clock := []; Scripted.uuids := []; Scripted.contexts := 0;
                    Scripted.unreleasable := [0]; Scripted.answers := [] |}
                 Staged.opening (drain 3) 1).
  cbv zeta in H. feed H ltac:(vm_compute; now left).
  destruct H as (_ & _ & H).
  split; [vm_compute; reflexivity|]. split; [vm_compute; reflexivity|].
  split; [vm_compute; reflexivity|exact H].
Defined.

Lemma unknown_session_is_404_witness :
  getSessionHistory "nobody" (Scripted.started Scripted.quiet) =
    {| status := 404; body := Failed "Session nobody not found" |} /\
  fst (deleteSessionRoute "nobody" (Scripted.started Scripted.quiet)) =
    {| status := 404; body := Failed "Session nobody not found" |} /\
  fst (postMessage "nobody" (JsString "Hello") (Scripted.started Scripted.quiet)) =
    Responded 404 "Session nobody not found".
Proof.
  assert (H := unknown_session_is_404 (Scripted.started Scripted.quiet)
                 "nobody" "Hello").
  feed H ltac:(vm_compute; reflexivity). feed H ltac:(discriminate).
  destruct H as (H1 & H2 & H3).
  split; [exact H1|]. split; [now rewrite H2|now rewrite H3].
Defined.

Lemma failure_status_follows_error_text_witness :
  fst (deleteSessionRoute "s1" Scripted.stuck) =
    {| status := 500;
       body := Failed "Failed to delete session: context is busy" |} /\
  JsMap.has "s1" (sessions (snd (deleteSessionRoute "s1" Scripted.stuck))) = true.
Proof.
  assert (H := failure_status_follows_error_text Scripted.stuck "s1"
                 "context is busy").
  vm_compute in H. specialize (H _ _ _ eq_refl eq_refl eq_refl).
  destruct H as (H1 & _).
  split; [exact (f_equal fst H1)|vm_compute; reflexivity].
Defined.

Lemma in_flight_request_outlives_session_witness :
  let s2 := exec (PromptSettles 0) (snd (deleteSession "a" Scripted.pending)) in
  JsMap.has "a" (sessions Scripted.pending) = true /\
  JsMap.has "a" (sessions s2) = false /\
  exists tail,
    trace (exec (Resume 0) s2) =
      (trace Scripted.pending ++
       Resolved 0 (reinforcedMessage "You are a helpful assistant." "one") :: tail)%list.
Proof.
  assert (H := in_flight_request_outlives_session Scripted.pending).
  vm_compute in H. specialize (H _ _ _ _ _ _ _ eq_refl eq_refl eq_refl).
  destruct H as (_ & _ & H3 & _ & (tail & H5)).
  split; [vm_compute; reflexivity|]. split; [vm_compute; exact H3|].
  exists tail. vm_compute. exact H5.
Defined.

Lemma overlapping_deletes_release_twice_witness :
  exists d,
    JsMap.get "s1" (sessions Staged.greeting) = Some d /\
    fst (deleteSession_resume "s1" d Staged.greeting) = Ok tt /\
    fst (deleteSession_resume "s1" d
           (snd (deleteSession_resume "s1" d Staged.greeting))) = Ok tt /\
    fst (deleteSession "s1" (snd (deleteSession "s1" Staged.greeting))) =
      Err "Session s1 not found".
Proof.
  assert (H := overlapping_deletes_release_twice Staged.greeting "s1").
  vm_compute in H. specialize (H _ _ _ _ eq_refl eq_refl eq_refl eq_refl).
  destruct H as (_ & H1 & _ & H2 & _ & _ & H3 & H4).
  eexists. split; [vm_compute; reflexivity|].
  split; [vm_compute; exact H1|]. split; [vm_compute; exact H2|].
  exact (f_equal fst H4).
Defined.

Lemma system_prompt_is_fixed_at_creation_witness :
  let s1 := snd (createSession (Some "a") (Scripted.started Scripted.quiet)) in
  getSystemRole (run Staged.briefed s1) = "Be brief." /\
  exists d',
    JsMap.get "a" (sessions (run Staged.briefed s1)) = Some d' /\
    length (history d') = 2 /\
    systemPrompt (session d') = "You are a helpful assistant.".
Proof.
  assert (H := system_prompt_is_fixed_at_creation None Scripted.quiet
                 [CallInitialize "model.gguf"] Staged.briefed (Some "a")).
  vm_compute in H. specialize (H _ _ _ eq_refl eq_refl eq_refl).
  split; [vm_compute; reflexivity|].
  vm_compute. eexists. split; [reflexivity|]. split; [reflexivity|exact H].
Defined.

Lemma idle_StoreInv : StoreInv Willing.idle.
Proof.
  unfold StoreInv. vm_compute.
  repeat (constructor; [simpl; intuition discriminate|]). constructor.
Qed.


Ltac absent_unit :=
  apply notin_Forall; vm_compute;
  repeat (apply Forall_cons; [discriminate|]); apply Forall_nil.

Lemma formatMessage_without_markdown_witness :
  ChatUI._formatMessage (ChatUI.units "<img src=x onerror=alert(1)> & co") =
    ChatUI.units "&lt;img src=x onerror=alert(1)&gt; &amp; co" /\
  ChatUI._formatMessage (ChatUI.units "How are you?") = ChatUI.units "How are you?".
Proof.
  assert (H1 := formatMessage_without_markdown
                  (ChatUI.units "<img src=x onerror=alert(1)> & co")).
  feed H1 ltac:(vm_compute; repeat constructor).
  assert (H2 := formatMessage_without_markdown (ChatUI.units "How are you?")).
  feed H2 ltac:(vm_compute; repeat constructor).
  destruct H1 as (H1 & _). destruct H2 as (_ & _ & H2).
  feed H2 ltac:(vm_compute; repeat constructor).
  split; [rewrite H1; vm_compute; reflexivity|exact H2].
Defined.

Lemma link_target_is_copied_witness :
  let url := (ChatUI.units "https://a.b/c" ++ ChatUI.quote ++
              ChatUI.units " data-x=" ++ ChatUI.quote ++ ChatUI.units "1")%list in
  ChatUI._formatMessage
    (ChatUI.units "see " ++ ChatUI.linkSource (ChatUI.units "here") url ++
     ChatUI.units ".")%list =
  (ChatUI.units "see <a href=" ++ ChatUI.quote ++
   ChatUI.units "https://a.b/c" ++ ChatUI.quote ++
   ChatUI.units " data-x=" ++ ChatUI.quote ++ ChatUI.units "1" ++ ChatUI.quote ++
   ChatUI.units " target=" ++ ChatUI.quote ++ ChatUI.units "_blank" ++ ChatUI.quote ++
   ChatUI.units " rel=" ++ ChatUI.quote ++ ChatUI.units "noopener noreferrer" ++
   ChatUI.quote ++ ChatUI.units ">here</a>.")%list.
Proof.
  assert (H := link_target_is_copied (ChatUI.units "see ") (ChatUI.units "here")
                 (ChatUI.units "https://a.b/c" ++ ChatUI.quote ++
                  ChatUI.units " data-x=" ++ ChatUI.quote ++ ChatUI.units "1")%list
                 (ChatUI.units ".")).
  do 4 feed H ltac:(vm_compute; repeat constructor).
  do 2 feed H ltac:(discriminate).
  do 2 feed H ltac:(absent_unit).
  cbv zeta. rewrite H. vm_compute. reflexivity.
Defined.

Lemma link_target_with_underscores_witness :
  ChatUI._formatMessage (ChatUI.units "[doc](https://a.b/my_file_name.pdf)") =
    (ChatUI.units "<a href=" ++ ChatUI.quote ++
     ChatUI.units "https://a.b/my<em>file</em>name.pdf" ++ ChatUI.quote ++
     ChatUI.units " target=" ++ ChatUI.quote ++ ChatUI.units "_blank" ++ ChatUI.quote ++
     ChatUI.units " rel=" ++ ChatUI.quote ++ ChatUI.units "noopener noreferrer" ++
     ChatUI.quote ++ ChatUI.units ">doc</a>")%list.
Proof.
  assert (H := link_target_with_underscores (ChatUI.units "doc")
                 (ChatUI.units "https://a.b/my") (ChatUI.units "file")
                 (ChatUI.units "name.pdf")).
  do 5 feed H ltac:(vm_compute; repeat constructor).
  do 2 feed H ltac:(discriminate).
  do 4 feed H ltac:(absent_unit).
  change (ChatUI.units "[doc](https://a.b/my_file_name.pdf)")
    with (ChatUI.linkSource (ChatUI.units "doc")
            (ChatUI.units "https://a.b/my" ++ ChatUI.units "_" ++
             ChatUI.units "file" ++ ChatUI.units "_" ++ ChatUI.units "name.pdf")%list).
  rewrite H. vm_compute. reflexivity.
Defined.

Lemma first_messages_can_split_witness :
  let m := ChatManager.connected (ChatUI.units "Hello!") [10%Z; 20%Z; 30%Z] in
  ChatManager.requests
    (ChatManager.run
       [ChatManager.MessageSend (ChatUI.units "Hi");
        ChatManager.MessageSend (ChatUI.units "Are you there?");
        ChatManager.SessionSettles 0 (Ok "s1");
        ChatManager.SessionSettles 0 (Ok "s2")] m) =
    [ChatManager.CreateSession; ChatManager.CreateSession;
     ChatManager.SendMessage "s1" (ChatUI.units "Hi");
     ChatManager.SendMessage "s2" (ChatUI.units "Are you there?")] /\
  ChatManager.requests
    (ChatManager.run
       [ChatManager.MessageSend (ChatUI.units "Hi");
        ChatManager.SessionSettles 0 (Ok "s1");
        ChatManager.MessageSend (ChatUI.units "Are you there?")] m) =
    [ChatManager.CreateSession;
     ChatManager.SendMessage "s1" (ChatUI.units "Hi");
     ChatManager.SendMessage "s1" (ChatUI.units "Are you there?")].
Proof.
  assert (H := first_messages_can_split
                 (ChatManager.connected (ChatUI.units "Hello!") [10%Z; 20%Z; 30%Z])
                 (ChatUI.units "Hi") (ChatUI.units "Are you there?") "s1" "s2").
  do 5 feed H ltac:(vm_compute; reflexivity).
  feed H ltac:(discriminate).
  destruct H as (H1 & _ & _ & H4 & _).
  cbv zeta. split; [exact H1|exact H4].
Defined.

Lemma clearHistory_outcomes_witness :
  let stale :=
    ChatManager.run
      [ChatManager.ClearHistory; ChatManager.DeleteSettles 0 (Ok tt);
       ChatManager.SessionSettles 0 (Err "Network error: Unable to connect to server")]
      ChatManager.Wound.talking in
  ChatManager.sessionId stale = Some "s1" /\
  ChatManager.requests (ChatManager.exec (ChatManager.MessageSend (ChatUI.units "Hi")) stale) =
    [ChatManager.DeleteSession "s1"; ChatManager.CreateSession;
     ChatManager.SendMessage "s1" (ChatUI.units "Hi")].
Proof.
  assert (H := clearHistory_outcomes ChatManager.Wound.talking "s1"
                 "Network error: Unable to connect to server").
  do 2 feed H ltac:(vm_compute; reflexivity).
  feed H ltac:(discriminate).
  feed H ltac:(vm_compute; reflexivity).
  destruct H as (_ & (H1 & H2 & _ & _ & H3) & _).
  specialize (H3 (ChatUI.units "Hi")).
  feed H3 ltac:(vm_compute; reflexivity).
  cbv zeta. split; [exact H2|]. rewrite H3, H1. reflexivity.
Defined.
